(** * The schema migration engine of internal/infra/postgres/postgres.go

    A shallow embedding of [RunMigrations] and the functions it calls
    ([ensureMigrationsTable], [loadMigrationFiles], [toMigrationFile],
    [applyPendingMigrations], [migrationAlreadyApplied], [applyMigration]),
    together with models of the Go library functions they use and of the
    store the engine talks to, followed by the properties of the engine. *)

From Stdlib Require Import String Ascii ZArith List Bool Lia Permutation Sorted.
Import ListNotations.
Open Scope Z_scope.
Open Scope list_scope.

(** ** Go library functions used by the engine *)

(** Package [strings].  A Go string is a sequence of bytes, here a [string]
    of [ascii] characters. *)
Module strings.

(** [s[:n]]; the engine never slices beyond the length of [s]. *)
Fixpoint slice_to (n : nat) (s : string) : string :=
  match n, s with
  | S n', String c s' => String c (slice_to n' s')
  | _, _ => EmptyString
  end.

(** [s[n:]]. *)
Fixpoint slice_from (n : nat) (s : string) : string :=
  match n, s with
  | S n', String _ s' => slice_from n' s'
  | _, _ => s
  end.

(** [strings.HasPrefix(s, prefix)]:
    [len(s) >= len(prefix) && s[:len(prefix)] == prefix]. *)
Definition HasPrefix (s prefix : string) : bool :=
  (String.length prefix <=? String.length s)%nat
  && String.eqb (slice_to (String.length prefix) s) prefix.

(** [strings.HasSuffix(s, suffix)]:
    [len(s) >= len(suffix) && s[len(s)-len(suffix):] == suffix]. *)
Definition HasSuffix (s suffix : string) : bool :=
  (String.length suffix <=? String.length s)%nat
  && String.eqb (slice_from (String.length s - String.length suffix) s) suffix.

(** [strings.Index(s, substr)]: the index of the first instance of [substr]
    in [s]; Go's [-1] is [None]. *)
Fixpoint Index (s substr : string) : option nat :=
  if HasPrefix s substr then Some 0%nat
  else match s with
       | EmptyString => None
       | String _ s' => option_map S (Index s' substr)
       end.

(** [strings.SplitN(s, sep, n)] for a non-empty [sep] and [n >= 0]: at most
    [n] substrings, the last one being the unsplit remainder.  (Go first
    lowers [n] to [len(s)+1], which changes no result for a non-empty
    separator.) *)
Fixpoint SplitN (s sep : string) (n : nat) : list string :=
  match n with
  | O => []
  | S O => [s]
  | S (S _ as n') =>
      match Index s sep with
      | None => [s]
      | Some m =>
          slice_to m s :: SplitN (slice_from (m + String.length sep) s) sep n'
      end
  end.

End strings.

(** Package [strconv]. *)
Module strconv.

(** The largest and smallest values of Go's [int] on a 64-bit platform. *)
Definition maxInt : Z := 9223372036854775807.
Definition minInt : Z := -9223372036854775808.

(** The value of a decimal digit, [ch - '0'] when that is at most 9. *)
Definition digit (ch : ascii) : option Z :=
  let n := Z.of_nat (nat_of_ascii ch) in
  if (48 <=? n) && (n <=? 57) then Some (n - 48) else None.

(** The digit loop [n = n*10 + int(ch)]; a byte that is no digit is a syntax
    error. *)
Fixpoint digits (n : Z) (s : string) : option Z :=
  match s with
  | EmptyString => Some n
  | String ch s' =>
      match digit ch with
      | Some d => digits (n * 10 + d) s'
      | None => None
      end
  end.

(** [strconv.Atoi(s)]: an optional sign, then one or more decimal digits,
    denoting a value that fits [int]; [None] stands for a non-nil error
    (syntax or range).  Go's fast path for short inputs and its
    [ParseInt(s, 10, 0)] path agree on every input; this is their common
    result. *)
Definition Atoi (s : string) : option Z :=
  match s with
  | EmptyString => None
  | String c rest =>
      let neg := Ascii.eqb c "-" in
      let body := if neg || Ascii.eqb c "+" then rest else s in
      match body with
      | EmptyString => None
      | _ =>
          match digits 0 body with
          | None => None
          | Some n =>
              let v := if neg then - n else n in
              if (minInt <=? v) && (v <=? maxInt) then Some v else None
          end
      end
  end.

End strconv.

(** Package [path/filepath]. *)
Module filepath.

(** [filepath.Join(dir, name)] for a directory path that is already clean
    and the name of one of its entries: the two joined by a slash. *)
Definition Join (dir name : string) : string :=
  (dir ++ "/" ++ name)%string.

End filepath.

(** Package [os]. *)
Module os.

(** What the engine reads of an [os.FileInfo]. *)
Record FileInfo : Type := mkFileInfo {
  Name : string;
  IsDir : bool
}.

End os.

(** Package [sort]. *)
Module sort.

(** The requirement on the [less] function of [sort.Slice]: a strict weak
    ordering. *)
Record StrictWeak {A : Type} (less : A -> A -> bool) : Prop := {
  sw_asym : forall a b, less a b = true -> less b a = false;
  sw_negtrans : forall a b c,
      less a b = false -> less b c = false -> less a c = false
}.

(** No element is less than one that stands before it. *)
Definition Ordered {A : Type} (less : A -> A -> bool) (l : list A) : Prop :=
  StronglySorted (fun a b => less b a = false) l.

(** The sorted part of the insertion sort, last element first: nothing is
    less than what follows it. *)
Definition Descending {A : Type} (less : A -> A -> bool) (l : list A) : Prop :=
  StronglySorted (fun a b => less a b = false) l.

(** [sort.Slice(x, less)]: the documented contract.  The result is a
    rearrangement of the slice in which no element is less than an earlier
    one; the sort is not guaranteed to be stable, and which algorithm runs
    depends on the Go release. *)
Class Sorter : Type := {
  Slice : forall {A : Type}, list A -> (A -> A -> bool) -> list A;
  Slice_perm : forall (A : Type) (l : list A) less,
      Permutation l (Slice l less);
  Slice_ordered : forall (A : Type) (l : list A) less,
      StrictWeak less -> Ordered less (Slice l less)
}.

(** The insertion sort that [sort.Slice] runs on a short slice (of at most
    12 elements since Go 1.19): element [i] moves left while it is less
    than its left neighbour.  The sorted part [data[0..i)] is kept
    reversed, its last element first. *)
Fixpoint insert_left {A : Type} (less : A -> A -> bool) (x : A)
  (done : list A) : list A :=
  match done with
  | [] => [x]
  | y :: r => if less x y then y :: insert_left less x r else x :: done
  end.

Fixpoint insertion_loop {A : Type} (less : A -> A -> bool)
  (done todo : list A) : list A :=
  match todo with
  | [] => rev done
  | x :: t => insertion_loop less (insert_left less x done) t
  end.

Definition insertionSort {A : Type} (l : list A) (less : A -> A -> bool)
  : list A :=
  insertion_loop less [] l.

End sort.

(** ** Data of the engine *)

(** [type migrationFile struct]. *)
Record migrationFile : Type := mkMigrationFile {
  Version : Z;
  Name : string;
  Path : string
}.

(** A row of the table [app_schema_migrations]: [version INT PRIMARY KEY],
    [applied_at TIMESTAMP NOT NULL DEFAULT NOW()].  A column value that may
    be SQL NULL is an [option]. *)
Record LedgerEntry : Type := mkLedgerEntry {
  version : Z;
  applied_at : option Z
}.

(** The calls the engine makes on the store through [*sql.DB], in the order
    it makes them, each with its arguments and its outcome. *)
Inductive Call : Type :=
| CallEnsure (ok : bool)
    (* db.Exec(`CREATE TABLE IF NOT EXISTS app_schema_migrations ...`) *)
| CallCheck (v : Z) (result : option bool)
    (* db.QueryRow(`SELECT EXISTS(...)`, version).Scan(&exists) *)
| CallExecute (m : migrationFile) (content : string) (ok : bool)
    (* db.Exec(string(content)) in applyMigration(db, m) *)
| CallRecord (v : Z) (ok : bool).
    (* db.Exec(`INSERT INTO app_schema_migrations (version) VALUES ($1)`,
               m.Version) *)

(** The lines the engine writes through package [log], by format string;
    the [%v] of an error is left out. *)
Inductive LogLine : Type :=
| LogEnsureFailed
                              (* "failed to ensure schema_migrations table: %v" *)
| LogReadDirFailed            (* "failed to read migrations dir: %v" *)
| LogNoVersionPrefix (name : string)
                              (* "skip file without version prefix: %s" *)
| LogInvalidVersionPrefix (name : string)
                              (* "skip file with invalid version prefix: %s" *)
| LogAlreadyApplied (v : Z) (name : string)
                              (* "migration %03d already applied, skipping (%s)" *)
| LogCheckFailed (v : Z)      (* "failed to check migration %d: %v" *)
| LogReadFileFailed (path : string)
                              (* "failed to read migration file %s: %v" *)
| LogExecuteFailed (name : string)
                              (* "failed to execute migration %s: %v" *)
| LogRecordFailed (v : Z)     (* "failed to record migration %d: %v" *)
| LogCompleted.               (* "Custom migrations completed" *)

(** Whether a call is the execution of a migration body, or the insertion
    of a ledger row. *)
Definition is_execute (c : Call) : bool :=
  match c with CallExecute _ _ _ => true | _ => false end.

Definition is_record (c : Call) : bool :=
  match c with CallRecord _ _ => true | _ => false end.

(** Whether a call executes the body of a file of version [v], or inserts
    the ledger row of version [v]. *)
Definition executes_version (v : Z) (c : Call) : bool :=
  match c with CallExecute m _ _ => Version m =? v | _ => false end.

Definition records_version (v : Z) (c : Call) : bool :=
  match c with CallRecord v' _ => v' =? v | _ => false end.

(** The versions of a ledger's rows, in insertion order. *)
Definition versions (l : list LedgerEntry) : list Z := map version l.

(** [SELECT EXISTS(SELECT 1 FROM app_schema_migrations WHERE version = $1)]
    on the rows [l]. *)
Definition has_version (v : Z) (l : list LedgerEntry) : bool :=
  existsb (fun e => version e =? v) l.

(** The result of a function that may exit the process. *)
Inductive Result (A : Type) : Type :=
| Ok (a : A)
| Fatal.
Arguments Ok {A} a.
Arguments Fatal {A}.

Section Engine.

(** The engine executes the body of a migration verbatim and knows nothing
    of what it does.  [S] is the state of the database apart from the
    ledger table.  A body is executed on the database as a whole, the
    ledger table and the rest: [run_sql body (table, s)] is the outcome of
    executing [body] as one batch, the table and the rest as the batch
    leaves them, or [None] when the store rejects the batch.  Nothing
    keeps a body from writing to the ledger table or from dropping it. *)
Context {S : Type}
  (run_sql : string -> option (list LedgerEntry) * S ->
             option (option (list LedgerEntry) * S)).

(** The implementation of [sort.Slice]. *)
Context {sorter : sort.Sorter}.

(** ** The world the engine runs in *)

Record World : Type := mkWorld {
  dirs : string -> option (list os.FileInfo);
    (* ioutil.ReadDir: the entries of a readable directory *)
  files : string -> option string;
    (* ioutil.ReadFile: the content of a readable file *)
  ledger : option (list LedgerEntry);
    (* the table app_schema_migrations; None while it does not exist *)
  schema : S;
    (* the rest of the database *)
  now : Z;
    (* the store's NOW() *)
  outages : list bool;
    (* the fate of the coming calls on the connection: true when the store
       does not answer; every call answers once the list is used up *)
  calls : list Call;
    (* the calls made on the store so far *)
  log : list LogLine
    (* the lines logged so far *)
}.

Definition set_ledger (l : option (list LedgerEntry)) (w : World) : World :=
  mkWorld (dirs w) (files w) l (schema w) (now w) (outages w) (calls w) (log w).

Definition set_schema (s : S) (w : World) : World :=
  mkWorld (dirs w) (files w) (ledger w) s (now w) (outages w) (calls w) (log w).

Definition add_call (c : Call) (w : World) : World :=
  mkWorld (dirs w) (files w) (ledger w) (schema w) (now w) (outages w)
    (calls w ++ [c]) (log w).

Definition add_log (l : LogLine) (w : World) : World :=
  mkWorld (dirs w) (files w) (ledger w) (schema w) (now w) (outages w)
    (calls w) (log w ++ [l]).

(** The world with more lines in its log. *)
Definition add_logs (ls : list LogLine) (w : World) : World :=
  mkWorld (dirs w) (files w) (ledger w) (schema w) (now w) (outages w)
    (calls w) (log w ++ ls).

(** A new process on the same store and file system: a new connection with
    its own fate, and nothing called or logged yet. *)
Definition restart (fate : list bool) (w : World) : World :=
  mkWorld (dirs w) (files w) (ledger w) (schema w) (now w) fate [] [].

(** ** The store, as the engine sees it through [database/sql] *)

(** Every call takes one slot of the connection's fate and one tick of the
    store's clock; the result tells whether the store answers. *)
Definition serve (w : World) : bool * World :=
  (negb (hd false (outages w)),
   mkWorld (dirs w) (files w) (ledger w) (schema w) (now w + 1)
     (tl (outages w)) (calls w) (log w)).

(** [CREATE TABLE IF NOT EXISTS app_schema_migrations (...)]: creates the
    empty table when there is none and leaves an existing one as it is.
    The result is [err == nil]. *)
Definition exec_create (w : World) : bool * World :=
  let (up, w1) := serve w in
  if up then
    (true, add_call (CallEnsure true)
             (set_ledger (Some match ledger w1 with
                               | Some l => l
                               | None => []
                               end) w1))
  else (false, add_call (CallEnsure false) w1).

(** [SELECT EXISTS(SELECT 1 FROM app_schema_migrations WHERE version = $1)]
    scanned into a [bool]; an error when the store does not answer or the
    table does not exist. *)
Definition query_exists (v : Z) (w : World) : option bool * World :=
  let (up, w1) := serve w in
  let r := if up then option_map (has_version v) (ledger w1) else None in
  (r, add_call (CallCheck v r) w1).

(** The body of migration [m] executed as one batch, on the database that
    holds the ledger table. *)
Definition exec_body (m : migrationFile) (content : string) (w : World)
  : bool * World :=
  let (up, w1) := serve w in
  match (if up then run_sql content (ledger w1, schema w1) else None) with
  | Some (l', s') =>
      (true, add_call (CallExecute m content true)
               (set_ledger l' (set_schema s' w1)))
  | None => (false, add_call (CallExecute m content false) w1)
  end.

(** [INSERT INTO app_schema_migrations (version) VALUES ($1)]: the row
    takes the store's current time as [applied_at]; an error when the store
    does not answer, the table does not exist, or the primary key is
    already there. *)
Definition exec_insert (v : Z) (w : World) : bool * World :=
  let (up, w1) := serve w in
  match (if up then ledger w1 else None) with
  | Some l =>
      if has_version v l then (false, add_call (CallRecord v false) w1)
      else (true, add_call (CallRecord v true)
                    (set_ledger
                       (Some (l ++ [mkLedgerEntry v (Some (now w1))])) w1))
  | None => (false, add_call (CallRecord v false) w1)
  end.

(** ** Control flow: a result or a fatal exit, over the world *)

(** [log.Fatalf] writes its line and exits the process: the result
    [Fatal].  The world it leaves is the one the next process finds. *)
Definition M (A : Type) : Type := World -> Result A * World.

Definition ret {A : Type} (a : A) : M A := fun w => (Ok a, w).

Definition bind {A B : Type} (m : M A) (k : A -> M B) : M B :=
  fun w =>
    match m w with
    | (Ok a, w') => k a w'
    | (Fatal, w') => (Fatal, w')
    end.

Notation "x <- m ;; k" := (bind m (fun x => k))
  (at level 61, m at next level, right associativity).
Notation "m ;; k" := (bind m (fun _ => k))
  (at level 61, right associativity).

(** A call on the store or the file system: it always returns, with Go's
    [err] folded into its result. *)
Definition call {A : Type} (f : World -> A * World) : M A :=
  fun w => let (a, w') := f w in (Ok a, w').

Definition Printf (l : LogLine) : M unit := fun w => (Ok tt, add_log l w).

Definition Fatalf {A : Type} (l : LogLine) : M A :=
  fun w => (Fatal, add_log l w).

Definition ReadDir (dir : string) : M (option (list os.FileInfo)) :=
  fun w => (Ok (dirs w dir), w).

Definition ReadFile (path : string) : M (option string) :=
  fun w => (Ok (files w path), w).

(** ** The engine *)

Definition migrationsDir : string := "database/migrations".

Definition ensureMigrationsTable : M unit :=
  ok <- call exec_create ;;
  if ok then ret tt else Fatalf LogEnsureFailed.

(** Go's [(migrationFile, bool)] result is an [option]. *)
Definition toMigrationFile (dir : string) (f : os.FileInfo)
  : M (option migrationFile) :=
  if os.IsDir f || negb (strings.HasSuffix (os.Name f) ".sql") then ret None
  else
    let parts := strings.SplitN (os.Name f) "_" 2 in
    if (length parts <? 2)%nat then
      Printf (LogNoVersionPrefix (os.Name f)) ;; ret None
    else
      match strconv.Atoi (hd EmptyString parts) with
      | None => Printf (LogInvalidVersionPrefix (os.Name f)) ;; ret None
      | Some v =>
          ret (Some (mkMigrationFile v (os.Name f)
                       (filepath.Join dir (os.Name f))))
      end.

(** The loop of [loadMigrationFiles] over the directory's entries,
    appending to [migrations]. *)
Fixpoint collect (dir : string) (files : list os.FileInfo)
  (migrations : list migrationFile) : M (list migrationFile) :=
  match files with
  | [] => ret migrations
  | f :: rest =>
      r <- toMigrationFile dir f ;;
      match r with
      | None => collect dir rest migrations
      | Some mf => collect dir rest (migrations ++ [mf])
      end
  end.

(** The [less] function passed to [sort.Slice]. *)
Definition version_less (a b : migrationFile) : bool :=
  Version a <? Version b.

Definition loadMigrationFiles (dir : string) : M (list migrationFile) :=
  r <- ReadDir dir ;;
  match r with
  | None => Fatalf LogReadDirFailed
  | Some files =>
      migrations <- collect dir files [] ;;
      ret (sort.Slice migrations version_less)
  end.

Definition migrationAlreadyApplied (v : Z) : M bool :=
  r <- call (query_exists v) ;;
  match r with
  | None => Fatalf (LogCheckFailed v)
  | Some exists_ => ret exists_
  end.

Definition applyMigration (m : migrationFile) : M unit :=
  r <- ReadFile (Path m) ;;
  match r with
  | None => Fatalf (LogReadFileFailed (Path m))
  | Some content =>
      ok <- call (exec_body m content) ;;
      if ok then
        ok' <- call (exec_insert (Version m)) ;;
        if ok' then ret tt else Fatalf (LogRecordFailed (Version m))
      else Fatalf (LogExecuteFailed (Name m))
  end.

Fixpoint applyPendingMigrations (migrations : list migrationFile) : M unit :=
  match migrations with
  | [] => ret tt
  | m :: rest =>
      applied <- migrationAlreadyApplied (Version m) ;;
      if applied then
        Printf (LogAlreadyApplied (Version m) (Name m)) ;;
        applyPendingMigrations rest
      else
        applyMigration m ;;
        applyPendingMigrations rest
  end.

Definition RunMigrations : M unit :=
  ensureMigrationsTable ;;
  migrations <- loadMigrationFiles migrationsDir ;;
  applyPendingMigrations migrations ;;
  Printf LogCompleted.

End Engine.

(** ** Words of the specification *)

(** Whether the byte [c] occurs in [s]. *)
Fixpoint has_byte (c : ascii) (s : string) : bool :=
  match s with
  | EmptyString => false
  | String a s' => Ascii.eqb a c || has_byte c s'
  end.

(** The part of [s] before the first [c]; all of [s] when [c] does not
    occur. *)
Fixpoint before_byte (c : ascii) (s : string) : string :=
  match s with
  | EmptyString => EmptyString
  | String a s' =>
      if Ascii.eqb a c then EmptyString else String a (before_byte c s')
  end.

(** The separator of a migration file name, and the text before the first
    one. *)
Definition separator : ascii := "_".

Definition version_prefix (name : string) : string :=
  before_byte separator name.

Definition is_digit (c : ascii) : bool :=
  (48 <=? nat_of_ascii c)%nat && (nat_of_ascii c <=? 57)%nat.

Fixpoint all_digits (s : string) : bool :=
  match s with
  | EmptyString => true
  | String c s' => is_digit c && all_digits s'
  end.

(** The number a string of decimal digits denotes: each digit weighs ten
    to the number of digits after it. *)
Fixpoint decimal_value (s : string) : Z :=
  match s with
  | EmptyString => 0
  | String c s' =>
      (Z.of_nat (nat_of_ascii c) - 48) * 10 ^ Z.of_nat (String.length s')
      + decimal_value s'
  end.

(** A decimal numeral: one or more decimal digits. *)
Definition is_numeral (p : string) : bool :=
  negb (String.eqb p EmptyString) && all_digits p.

(** A decimal integer: a numeral, with or without a sign before it. *)
Definition is_decimal (p : string) : bool :=
  match p with
  | EmptyString => false
  | String c r =>
      if Ascii.eqb c "-" || Ascii.eqb c "+" then is_numeral r else is_numeral p
  end.

(** An entry the scan passes over without a word: a directory, or a name
    that does not end in [.sql]. *)
Definition passed_over (f : os.FileInfo) : bool :=
  os.IsDir f || negb (strings.HasSuffix (os.Name f) ".sql").

(** The line the scan logs for an entry, if it logs one. *)
Definition diagnostic (f : os.FileInfo) : option LogLine :=
  if passed_over f then None
  else if negb (has_byte separator (os.Name f))
       then Some (LogNoVersionPrefix (os.Name f))
       else match strconv.Atoi (version_prefix (os.Name f)) with
            | None => Some (LogInvalidVersionPrefix (os.Name f))
            | Some _ => None
            end.

(** The descriptor the scan makes of an entry, if it makes one. *)
Definition descriptor (dir : string) (f : os.FileInfo)
  : option migrationFile :=
  if passed_over f || negb (has_byte separator (os.Name f)) then None
  else option_map
         (fun v =>
            mkMigrationFile v (os.Name f) (filepath.Join dir (os.Name f)))
         (strconv.Atoi (version_prefix (os.Name f))).

(** The lines the scan logs for an entry, and the descriptors it makes of a
    list of entries, in their order. *)
Definition diagnostics (f : os.FileInfo) : list LogLine :=
  match diagnostic f with Some l => [l] | None => [] end.

Definition descriptors (dir : string) (entries : list os.FileInfo)
  : list migrationFile :=
  flat_map (fun f => match descriptor dir f with Some m => [m] | None => [] end)
    entries.

(** An entry the scan leaves out: passed over, or with no separator in its
    name, or with a text before the first separator that [Atoi] rejects. *)
Definition filtered_out (f : os.FileInfo) : bool :=
  passed_over f
  || negb (has_byte separator (os.Name f))
  || match strconv.Atoi (version_prefix (os.Name f)) with
     | None => true
     | Some _ => false
     end.

(** A well-formed migration file: a file, not a directory, named
    [<decimal-version>_<label>.sql], the version fitting Go's [int]. *)
Definition well_formed (f : os.FileInfo) : bool :=
  negb (os.IsDir f)
  && strings.HasSuffix (os.Name f) ".sql"
  && has_byte separator (os.Name f)
  && is_numeral (version_prefix (os.Name f))
  && (decimal_value (version_prefix (os.Name f)) <=? strconv.maxInt).

(** The version a well-formed file name states. *)
Definition named_version (f : os.FileInfo) : Z :=
  decimal_value (version_prefix (os.Name f)).

(** Strictly ascending by version. *)
Definition Ascending (ms : list migrationFile) : Prop :=
  StronglySorted (fun a b => Version a < Version b) ms.

(** The calls made from the world [w] to the later world [w']. *)
Definition calls_since {S : Type} (w w' : @World S) : list Call :=
  skipn (length (calls w)) (calls w').

(** The lines logged from the world [w] to the later world [w']. *)
Definition log_since {S : Type} (w w' : @World S) : list LogLine :=
  skipn (length (log w)) (log w').

(** The number of calls in [cs] that satisfy [p]. *)
Definition count (p : Call -> bool) (cs : list Call) : nat :=
  length (filter p cs).

(** No call to come on the connection fails for want of an answer. *)
Definition calm (fate : list bool) : Prop :=
  Forall (fun down => down = false) fate.

(** ** The turns of the Applier's loop *)

Section Turns.
Context {S : Type}
  (run_sql : string -> option (list LedgerEntry) * S ->
             option (option (list LedgerEntry) * S)).
Local Abbreviation World := (@World S).

(** The file system is the same in both worlds. *)
Definition same_files (w w1 : World) : Prop :=
  dirs w1 = dirs w /\ files w1 = files w.

(** A body that leaves the ledger table as it finds it, whatever the
    database it is executed on. *)
Definition spares_ledger (q : string) : Prop :=
  forall (l l' : option (list LedgerEntry)) (s s' : S),
    run_sql q (l, s) = Some (l', s') -> l' = l.

(** No body of the descriptors [ms] changes the ledger table. *)
Definition bodies_spare_ledger (ms : list migrationFile) (w : World) : Prop :=
  forall m q, In m ms -> files w (Path m) = Some q -> spares_ledger q.

(** What one turn of the loop of [applyPendingMigrations] does with the
    descriptor [m]: the world before, the world after, and whether the loop
    goes on.  A body that the store executes leaves the ledger table as
    [l'], which need not be the table it found. *)
Inductive Step (m : migrationFile) (w w1 : World) : bool -> Prop :=
| StepCheckFailed :
    same_files w w1 -> ledger w1 = ledger w -> schema w1 = schema w ->
    calls w1 = calls w ++ [CallCheck (Version m) None] ->
    log w1 = log w ++ [LogCheckFailed (Version m)] ->
    (calm (outages w) -> ledger w = None) ->
    Step m w w1 false
| StepSkipped (l : list LedgerEntry) :
    ledger w = Some l -> has_version (Version m) l = true ->
    same_files w w1 -> ledger w1 = ledger w -> schema w1 = schema w ->
    calls w1 = calls w ++ [CallCheck (Version m) (Some true)] ->
    log w1 = log w ++ [LogAlreadyApplied (Version m) (Name m)] ->
    Step m w w1 true
| StepReadFailed (l : list LedgerEntry) :
    ledger w = Some l -> has_version (Version m) l = false ->
    files w (Path m) = None ->
    same_files w w1 -> ledger w1 = ledger w -> schema w1 = schema w ->
    calls w1 = calls w ++ [CallCheck (Version m) (Some false)] ->
    log w1 = log w ++ [LogReadFileFailed (Path m)] ->
    Step m w w1 false
| StepExecuteFailed (l : list LedgerEntry) (q : string) :
    ledger w = Some l -> has_version (Version m) l = false ->
    files w (Path m) = Some q ->
    same_files w w1 -> ledger w1 = ledger w -> schema w1 = schema w ->
    calls w1 = calls w ++ [CallCheck (Version m) (Some false);
                           CallExecute m q false] ->
    log w1 = log w ++ [LogExecuteFailed (Name m)] ->
    (calm (outages w) -> run_sql q (ledger w, schema w) = None) ->
    Step m w w1 false
| StepRecordFailed (l : list LedgerEntry) (q : string)
    (l' : option (list LedgerEntry)) (s' : S) :
    ledger w = Some l -> has_version (Version m) l = false ->
    files w (Path m) = Some q ->
    run_sql q (ledger w, schema w) = Some (l', s') ->
    same_files w w1 -> ledger w1 = l' -> schema w1 = s' ->
    calls w1 = calls w ++ [CallCheck (Version m) (Some false);
                           CallExecute m q true;
                           CallRecord (Version m) false] ->
    log w1 = log w ++ [LogRecordFailed (Version m)] ->
    (calm (outages w) ->
     forall rows, l' = Some rows -> has_version (Version m) rows = true) ->
    Step m w w1 false
| StepApplied (l : list LedgerEntry) (q : string) (rows : list LedgerEntry)
    (s' : S) (t : Z) :
    ledger w = Some l -> has_version (Version m) l = false ->
    files w (Path m) = Some q ->
    run_sql q (ledger w, schema w) = Some (Some rows, s') ->
    has_version (Version m) rows = false ->
    same_files w w1 ->
    ledger w1 = Some (rows ++ [mkLedgerEntry (Version m) (Some t)]) ->
    schema w1 = s' ->
    calls w1 = calls w ++ [CallCheck (Version m) (Some false);
                           CallExecute m q true;
                           CallRecord (Version m) true] ->
    log w1 = log w ->
    Step m w w1 true.

(** A turn of the loop on a descriptor whose body, if it is executed,
    spares the ledger table: the table changes by the engine's own insert
    only. *)
Inductive SparingStep (m : migrationFile) (w w1 : World) : bool -> Prop :=
| SparingCheckFailed :
    same_files w w1 -> ledger w1 = ledger w -> schema w1 = schema w ->
    calls w1 = calls w ++ [CallCheck (Version m) None] ->
    log w1 = log w ++ [LogCheckFailed (Version m)] ->
    (calm (outages w) -> ledger w = None) ->
    SparingStep m w w1 false
| SparingSkipped (l : list LedgerEntry) :
    ledger w = Some l -> has_version (Version m) l = true ->
    same_files w w1 -> ledger w1 = ledger w -> schema w1 = schema w ->
    calls w1 = calls w ++ [CallCheck (Version m) (Some true)] ->
    log w1 = log w ++ [LogAlreadyApplied (Version m) (Name m)] ->
    SparingStep m w w1 true
| SparingReadFailed (l : list LedgerEntry) :
    ledger w = Some l -> has_version (Version m) l = false ->
    files w (Path m) = None ->
    same_files w w1 -> ledger w1 = ledger w -> schema w1 = schema w ->
    calls w1 = calls w ++ [CallCheck (Version m) (Some false)] ->
    log w1 = log w ++ [LogReadFileFailed (Path m)] ->
    SparingStep m w w1 false
| SparingExecuteFailed (l : list LedgerEntry) (q : string) :
    ledger w = Some l -> has_version (Version m) l = false ->
    files w (Path m) = Some q ->
    same_files w w1 -> ledger w1 = ledger w -> schema w1 = schema w ->
    calls w1 = calls w ++ [CallCheck (Version m) (Some false);
                           CallExecute m q false] ->
    log w1 = log w ++ [LogExecuteFailed (Name m)] ->
    (calm (outages w) -> run_sql q (ledger w, schema w) = None) ->
    SparingStep m w w1 false
| SparingRecordFailed (l : list LedgerEntry) (q : string) (s' : S) :
    ledger w = Some l -> has_version (Version m) l = false ->
    files w (Path m) = Some q ->
    run_sql q (ledger w, schema w) = Some (ledger w, s') ->
    same_files w w1 -> ledger w1 = ledger w -> schema w1 = s' ->
    calls w1 = calls w ++ [CallCheck (Version m) (Some false);
                           CallExecute m q true;
                           CallRecord (Version m) false] ->
    log w1 = log w ++ [LogRecordFailed (Version m)] ->
    ~ calm (outages w) ->
    SparingStep m w w1 false
| SparingApplied (l : list LedgerEntry) (q : string) (s' : S) (t : Z) :
    ledger w = Some l -> has_version (Version m) l = false ->
    files w (Path m) = Some q ->
    run_sql q (ledger w, schema w) = Some (ledger w, s') ->
    same_files w w1 ->
    ledger w1 = Some (l ++ [mkLedgerEntry (Version m) (Some t)]) ->
    schema w1 = s' ->
    calls w1 = calls w ++ [CallCheck (Version m) (Some false);
                           CallExecute m q true;
                           CallRecord (Version m) true] ->
    log w1 = log w ->
    SparingStep m w w1 true.

(** No body of a migration file of the migrations directory changes the
    ledger table. *)
Definition migrations_spare_ledger (w : World) : Prop :=
  forall entries,
    dirs w migrationsDir = Some entries ->
    bodies_spare_ledger (descriptors migrationsDir entries) w.

(** The most calls a run may make to execute a body of version [v], or to
    insert the row of version [v]: none when the ledger has the version. *)
Definition pending (w : World) (v : Z) : nat :=
  match ledger w with
  | Some l => if has_version v l then 0 else 1
  | None => 0
  end.

End Turns.

(** ** A sample store and directory *)

(** The statement that removes the rows of one version from the ledger
    table, up to the version. *)
Definition delete_row : string :=
  "DELETE FROM app_schema_migrations WHERE version = ".

(** A store whose state apart from the ledger table is the list of the
    bodies executed on it.  It rejects every body that starts with [BAD];
    the body [DELETE FROM app_schema_migrations WHERE version = <n>]
    removes the rows of version [n] from the ledger table; any other body
    leaves the table as it is. *)
Definition sample_sql (body : string)
  (db : option (list LedgerEntry) * list string)
  : option (option (list LedgerEntry) * list string) :=
  if String.prefix "BAD" body then None
  else if strings.HasPrefix body delete_row then
    match strconv.Atoi (strings.slice_from (String.length delete_row) body)
    with
    | Some v =>
        Some (option_map (filter (fun e => negb (version e =? v))) (fst db),
              snd db ++ [body])
    | None => None
    end
  else Some (fst db, snd db ++ [body]).

Definition sample_file (name : string) : os.FileInfo :=
  os.mkFileInfo name false.

(** The world of a process start: the entries of the migrations directory,
    the content of its files, the ledger table and the connection's fate. *)
Definition sample_world (entries : list os.FileInfo)
  (content : string -> option string) (table : option (list LedgerEntry))
  (fate : list bool) : World :=
  mkWorld
    (fun dir => if String.eqb dir migrationsDir then Some entries else None)
    content table ([] : list string) 1000 fate [] [].

(** Every file reads as a statement that names its path. *)
Definition sample_bodies (path : string) : option string :=
  Some ("CREATE " ++ path)%string.

(** The same, except that [2_orders.sql] holds a body the store rejects. *)
Definition sample_bodies_bad (path : string) : option string :=
  if String.eqb path (filepath.Join migrationsDir "2_orders.sql")
  then Some "BAD SQL"%string
  else sample_bodies path.

Definition sample_entries : list os.FileInfo :=
  [sample_file "3_items.sql"; sample_file "1_users.sql";
   sample_file "2_orders.sql"].

(** The descriptor of version [v] for the file [name] of the migrations
    directory. *)
Definition sample_descriptor (v : Z) (name : string) : migrationFile :=
  mkMigrationFile v name (filepath.Join migrationsDir name).

(** A first process start on the sample directory: no ledger table yet, a
    store that answers every call. *)
Definition sample_start : World :=
  sample_world sample_entries sample_bodies None [].


(** ** Words for more properties of the engine *)

(** The versions of the bodies a sequence of calls executes, in the order
    of the calls. *)
Definition executed_versions (cs : list Call) : list Z :=
  flat_map (fun c => match c with
                     | CallExecute m _ _ => [Version m]
                     | _ => []
                     end) cs.

(** A string of zeros. *)
Fixpoint all_zeros (s : string) : bool :=
  match s with
  | EmptyString => true
  | String c s' => Ascii.eqb c "0" && all_zeros s'
  end.


(** The sample directory on a store whose ledger holds version 1. *)
Definition sample_resumed : @World (list string) :=
  sample_world sample_entries sample_bodies (Some [mkLedgerEntry 1 (Some 7)])
    [].

(** The sample bodies, except that the file [name] of the migrations
    directory holds [body]. *)
Definition sample_bodies_with (name body : string) (path : string)
  : option string :=
  if String.eqb path (filepath.Join migrationsDir name)
  then Some body
  else sample_bodies path.

(** A first process start on a directory whose second migration removes
    the row of version 1 from the ledger table. *)
Definition sample_cleanup : @World (list string) :=
  sample_world [sample_file "1_users.sql"; sample_file "2_cleanup.sql"]
    (sample_bodies_with "2_cleanup.sql" (delete_row ++ "1"))
    None [].

(** Descriptors 1, 2 and 3 on an empty ledger table, the body of 3
    removing the row of version 1. *)
Definition sample_forgetful : @World (list string) :=
  sample_world
    [sample_file "1_users.sql"; sample_file "2_orders.sql";
     sample_file "3_cleanup.sql"]
    (sample_bodies_with "3_cleanup.sql" (delete_row ++ "1"))
    (Some []) [].

(** A ledger table that holds version 2, and a pending migration 1 whose
    body removes the row of version 2. *)
Definition sample_reopened : @World (list string) :=
  sample_world [sample_file "1_a.sql"; sample_file "2_b.sql"]
    (sample_bodies_with "1_a.sql" (delete_row ++ "2"))
    (Some [mkLedgerEntry 2 (Some 7)]) [].



(** * The request rate limiter of internal/middleware *)

(** Package [time]: a [Duration] is a number of nanoseconds. *)
Module time.

Definition Duration : Type := Z.
Definition Second : Duration := 1000000000.
Definition Minute : Duration := 60 * Second.

End time.

(** The Redis server, as the limiter reaches it through [go-redis]: keys
    that hold an integer and may carry a time to live, a clock in
    milliseconds, and the fate of the commands to come ([true]: the command
    fails, and changes nothing). *)
Module redis.

Record Entry : Type := mkEntry {
  value : Z;
  deadline : option Z
}.

Record Client : Type := mkClient {
  keys : string -> option Entry;
  clock : Z;
  outages : list bool
}.

Definition calm (fate : list bool) : Prop :=
  Forall (fun down => down = false) fate.

(** A key with a time to live is gone once the clock has reached its
    deadline. *)
Definition live (t : Z) (e : Entry) : bool :=
  match deadline e with
  | None => true
  | Some d => t <? d
  end.

Definition get (r : Client) (key : string) : option Entry :=
  match keys r key with
  | Some e => if live (clock r) e then Some e else None
  | None => None
  end.

Definition set (key : string) (e : option Entry) (r : Client) : Client :=
  mkClient (fun k => if String.eqb k key then e else keys r k)
    (clock r) (outages r).

(** One command reaches the server, or does not. *)
Definition serve (r : Client) : bool * Client :=
  (negb (hd false (outages r)),
   mkClient (keys r) (clock r) (tl (outages r))).

(** Time passes between two requests. *)
Definition advance (d : N) (r : Client) : Client :=
  mkClient (keys r) (clock r + Z.of_N d) (outages r).

Definition maxInt64 : Z := 9223372036854775807.

(** [INCR key]: a key that is absent counts as 0 and gets no time to live;
    the time to live of a present key stays; a value that cannot grow is an
    error.  [None] is go-redis's error. *)
Definition Incr (key : string) (r : Client) : option Z * Client :=
  let (up, r1) := serve r in
  if up then
    match get r1 key with
    | None => (Some 1, set key (Some (mkEntry 1 None)) r1)
    | Some e =>
        if value e =? maxInt64 then (None, r1)
        else (Some (value e + 1),
              set key (Some (mkEntry (value e + 1) (deadline e))) r1)
    end
  else (None, r1).

(** go-redis sends a duration to [EXPIRE] in whole seconds: a positive
    duration below one second as 1, any other rounded towards zero. *)
Definition formatSec (dur : time.Duration) : Z :=
  if (0 <? dur) && (dur <? time.Second) then 1 else Z.quot dur time.Second.

(** [EXPIRE key seconds]: a time to live that is not positive deletes the
    key; the answer tells whether the key existed. *)
Definition Expire (key : string) (expiration : time.Duration) (r : Client)
  : option bool * Client :=
  let (up, r1) := serve r in
  if up then
    match get r1 key with
    | None => (Some false, r1)
    | Some e =>
        let seconds := formatSec expiration in
        if seconds <=? 0 then (Some true, set key None r1)
        else (Some true,
              set key (Some (mkEntry (value e)
                               (Some (clock r1 + 1000 * seconds)))) r1)
    end
  else (None, r1).

End redis.

(** Package [fiber]: what the limiter reads of a request, and how a chain
    of handlers answers it. *)
Module fiber.

Record Ctx : Type := mkCtx {
  Path : string;
  IP : string
}.

Inductive Reply : Type :=
| NewError (code : Z) (message : string)
| StatusJSON (code : Z) (success : bool) (message : string)
| Reached.

(** A handler answers a request, acting on the Redis server. *)
Definition Handler : Type := Ctx -> redis.Client -> Reply * redis.Client.

(** The end of a chain of middleware: the handler of the route is reached.
    Only that fact is kept of it. *)
Definition endpoint : Handler := fun _ r => (Reached, r).

End fiber.

Module middleware.

(** [fmt.Sprintf("rate:%s:%s", c.Path(), c.IP())] *)
Definition rate_key (c : fiber.Ctx) : string :=
  ("rate:" ++ fiber.Path c ++ ":" ++ fiber.IP c)%string.

Definition too_many_requests : fiber.Reply :=
  fiber.StatusJSON 429 false "Too many requests. Please try again later.".

(** [RateLimiter(redis, limit, window)]; [next] is the rest of the chain,
    which [c.Next()] runs.  The answer of [Expire] is not looked at. *)
Definition RateLimiter (limit : Z) (window : time.Duration)
  (next : fiber.Handler) : fiber.Handler :=
  fun c r =>
    let key := rate_key c in
    match redis.Incr key r with
    | (None, r1) => (fiber.NewError 500 "Redis error", r1)
    | (Some count, r1) =>
        let r2 := if count =? 1 then snd (redis.Expire key window r1)
                  else r1 in
        if count >? limit then (too_many_requests, r2) else next c r2
    end.

(** The limiters of [main]: one for every route, one more for the login. *)
Definition generalLimiter : fiber.Handler -> fiber.Handler :=
  RateLimiter 100 (1 * time.Minute).

Definition loginLimiter : fiber.Handler -> fiber.Handler :=
  RateLimiter 15 (1 * time.Minute).

(** [app.Use(generalLimiter)] and
    [auth.Post("/login", loginLimiter, authHandler.Login)]. *)
Definition login_route : fiber.Handler :=
  generalLimiter (loginLimiter fiber.endpoint).

(** The requests of one client on one route, each some milliseconds after
    the one before, answered in turn. *)
Fixpoint serve_all (h : fiber.Handler) (c : fiber.Ctx) (waits : list N)
  (r : redis.Client) : list fiber.Reply * redis.Client :=
  match waits with
  | [] => ([], r)
  | d :: rest =>
      let (a, r1) := h c (redis.advance d r) in
      let (l, r2) := serve_all h c rest r1 in
      (a :: l, r2)
  end.

(** The answer to the request that brings the counter to [count]. *)
Definition verdict (limit count : Z) : fiber.Reply :=
  if count >? limit then too_many_requests else fiber.Reached.

(** The counts [first], [first + step], ..., [n] of them. *)
Fixpoint counts (first step : Z) (n : nat) : list Z :=
  match n with
  | O => []
  | S n' => first :: counts (first + step) step n'
  end.

Definition total (waits : list N) : Z :=
  fold_right (fun d s => Z.of_N d + s) 0 waits.

End middleware.

(** A server with no key, at time 0, that takes every command; and a client
    at the login. *)
Definition sample_redis : redis.Client := redis.mkClient (fun _ => None) 0 [].

Definition sample_login (ip : string) : fiber.Ctx :=
  fiber.mkCtx "/api/v1/auth/login" ip.


(** * Configuration and the allowed origins of cmd/app/main.go *)

(** The environment of the process, and [os.Getenv]: the value of a
    variable, empty when the variable is not set. *)
Module os_env.

Definition Environ : Type := string -> option string.

Definition Getenv (env : Environ) (key : string) : string :=
  match env key with
  | Some value => value
  | None => EmptyString
  end.

End os_env.

(** [strings.Count] and [strings.Split], for a separator that is not
    empty. *)
Module strings_split.

(** [strings.Count(s, substr)]: the instances of [substr] in [s] that do not
    overlap, found from the left, each search starting after the instance
    before.  No more than [len(s)] searches find one. *)
Fixpoint count_from (searches : nat) (s substr : string) : nat :=
  match searches with
  | O => O
  | S searches' =>
      match strings.Index s substr with
      | None => O
      | Some i =>
          S (count_from searches'
               (strings.slice_from (i + String.length substr) s) substr)
      end
  end.

Definition Count (s substr : string) : nat :=
  count_from (String.length s) s substr.

(** [strings.Split(s, sep)] is [genSplit(s, sep, 0, -1)]: the negative
    count stands for [Count(s, sep) + 1] substrings. *)
Definition Split (s sep : string) : list string :=
  strings.SplitN s sep (Count s sep + 1).

End strings_split.

(** The texts between the bytes [c] of [s]. *)
Fixpoint fields (c : ascii) (s : string) : list string :=
  match s with
  | EmptyString => [EmptyString]
  | String a s' =>
      if Ascii.eqb a c then EmptyString :: fields c s'
      else match fields c s' with
           | first :: others => String a first :: others
           | [] => [String a EmptyString]
           end
  end.

(** Package [config]. *)
Module config.

Record Config : Type := mkConfig {
  DBHost : string;
  DBPort : string;
  DBUser : string;
  DBPassword : string;
  DBName : string;
  RedisHost : string;
  RedisPort : string;
  JWTSecret : string;
  AppPort : string
}.

Definition getEnv (env : os_env.Environ) (key defaultValue : string)
  : string :=
  let value := os_env.Getenv env key in
  if negb (String.eqb value EmptyString) then value else defaultValue.

Definition LoadConfig (env : os_env.Environ) : Config :=
  mkConfig
    (getEnv env "DB_HOST" "localhost")
    (getEnv env "DB_PORT" "5433")
    (getEnv env "DB_USER" "postgres")
    (getEnv env "DB_PASSWORD" "postgres")
    (getEnv env "DB_NAME" "cashflow_be")
    (getEnv env "REDIS_HOST" "localhost")
    (getEnv env "REDIS_PORT" "6379")
    (getEnv env "JWT_SECRET" "your-secret-key")
    (getEnv env "APP_PORT" "8081").

(** The fields of a configuration, in the order of the struct. *)
Definition values (cfg : Config) : list string :=
  [DBHost cfg; DBPort cfg; DBUser cfg; DBPassword cfg; DBName cfg;
   RedisHost cfg; RedisPort cfg; JWTSecret cfg; AppPort cfg].

End config.

(** Package [main]: the origins the CORS middleware allows, and the port
    the server listens on. *)
Module main.

Definition allowedOrigins (env : os_env.Environ) : list string :=
  strings_split.Split (os_env.Getenv env "CORS_ALLOWED_ORIGINS") ",".

(** [AllowOriginsFunc]: the loop over [allowedOrigins]. *)
Fixpoint AllowOriginsFunc (allowedOrigins : list string) (origin : string)
  : bool :=
  match allowedOrigins with
  | [] => false
  | o :: rest =>
      if String.eqb origin o then true else AllowOriginsFunc rest origin
  end.

Definition port (env : os_env.Environ) : string :=
  let port := os_env.Getenv env "APP_PORT" in
  if String.eqb port EmptyString then "8081"%string else port.

End main.

(** An environment that sets the given variables and no other. *)
Fixpoint sample_env (vars : list (string * string)) : os_env.Environ :=
  fun key =>
    match vars with
    | [] => None
    | (k, v) :: rest =>
        if String.eqb key k then Some v else sample_env rest key
    end.

(** The part of [s] after the first [c], and the number of bytes [c]. *)
Fixpoint after_byte (c : ascii) (s : string) : string :=
  match s with
  | EmptyString => EmptyString
  | String a s' => if Ascii.eqb a c then s' else after_byte c s'
  end.

Fixpoint count_byte (c : ascii) (s : string) : nat :=
  match s with
  | EmptyString => O
  | String a s' => (if Ascii.eqb a c then 1 else 0) + count_byte c s'
  end.

(** An environment in which a variable set to the empty string is not set
    at all. *)
Definition without_empty (env : os_env.Environ) : os_env.Environ :=
  fun key =>
    match env key with
    | Some value => if String.eqb value EmptyString then None else Some value
    | None => None
    end.


(** * The handlers of internal/domain *)

(** [filepath.Base], [filepath.Clean] and [filepath.Join] on a system whose
    separator is the slash and whose paths have no volume name. *)
Module filepath_unix.

(** [path] without its trailing slashes. *)
Fixpoint strip_trailing (path : string) : string :=
  match path with
  | EmptyString => EmptyString
  | String a rest =>
      match strip_trailing rest with
      | EmptyString =>
          if Ascii.eqb a "/" then EmptyString else String a EmptyString
      | kept => String a kept
      end
  end.

(** [filepath.Base(path)]: the last element of [path], trailing slashes
    removed first; [.] for the empty path, [/] for a path of slashes. *)
Definition Base (path : string) : string :=
  if String.eqb path EmptyString then "."%string
  else
    let element := last (fields "/" (strip_trailing path)) EmptyString in
    if String.eqb element EmptyString then "/"%string else element.

(** The loop of [filepath.Clean] over the elements of a path, the elements
    kept so far last one first: an empty element and [.] are dropped; [..]
    drops the element before it, if there is one that is not [..] itself,
    and otherwise stays, unless the path is rooted; any other element is
    kept. *)
Fixpoint clean_elements (rooted : bool) (kept : list string)
  (elements : list string) : list string :=
  match elements with
  | [] => rev kept
  | e :: rest =>
      if String.eqb e EmptyString || String.eqb e "." then
        clean_elements rooted kept rest
      else if String.eqb e ".." then
        match kept with
        | top :: below =>
            if String.eqb top ".." then clean_elements rooted (e :: kept) rest
            else clean_elements rooted below rest
        | [] =>
            if rooted then clean_elements rooted [] rest
            else clean_elements rooted [e] rest
        end
      else clean_elements rooted (e :: kept) rest
  end.

(** [filepath.Clean(path)] *)
Definition Clean (path : string) : string :=
  if String.eqb path EmptyString then "."%string
  else
    let rooted := strings.HasPrefix path "/" in
    let out := String.concat "/" (clean_elements rooted [] (fields "/" path)) in
    if rooted then ("/" ++ out)%string
    else if String.eqb out EmptyString then "."%string else out.

(** [filepath.Join(elem...)]: the elements from the first one that is not
    empty, joined by slashes and cleaned. *)
Fixpoint join (elem : list string) : string :=
  match elem with
  | [] => EmptyString
  | e :: rest =>
      if String.eqb e EmptyString then join rest
      else Clean (String.concat "/" elem)
  end.

End filepath_unix.

(** A path that stays under [uploads]: the directory itself, its directory
    [proofs], or an entry of the latter. *)
Definition confined (path : string) : Prop :=
  path = "uploads"%string \/ path = "uploads/proofs"%string
  \/ exists name,
       has_byte "/" name = false /\ name <> EmptyString
       /\ name <> "."%string /\ name <> ".."%string
       /\ path = ("uploads/proofs/" ++ name)%string.

(** What a handler finds in the request: [c.Locals], [c.Params], the bodies
    [c.BodyParser] and [c.QueryParser] read ([None]: they fail), and the
    files of the form. *)
Module fiber_ctx.

Definition UUID : Type := string.

(** A value of [c.Locals(key)]: nothing, a string, a [uuid.UUID], or a
    value of another type. *)
Inductive Local : Type :=
| LocalNil
| LocalString (s : string)
| LocalUUID (u : UUID)
| LocalOther.

Record FileHeader : Type := mkFileHeader {
  Filename : string
}.

Record Ctx (Body Query : Type) : Type := mkCtx {
  Locals : string -> Local;
  Params : string -> string;
  BodyParser : option Body;
  QueryParser : option Query;
  FormFile : string -> option FileHeader
}.

Arguments Locals {Body Query}.
Arguments Params {Body Query}.
Arguments BodyParser {Body Query}.
Arguments QueryParser {Body Query}.
Arguments FormFile {Body Query}.

End fiber_ctx.

(** The handlers of transaction_handler.go. *)
Module transaction_handler.
Import fiber_ctx.

(** The requests and results the handlers only pass on. *)
Definition Request : Type := string.
Definition Data : Type := string.
Definition Err : Type := string.

(** What the handlers read of an [entity.Transaction]. *)
Record Transaction : Type := mkTransaction {
  UserID : UUID;
  ProofFile : string;
  Fields : string
}.

(** [dto.TransactionListParams], as far as the handler reads it. *)
Record TransactionListParams : Type := mkParams {
  Page : Z;
  Limit : Z;
  SortBy : string;
  OrderBy : string
}.

(** One entry of [validator.ValidationErrors]. *)
Record FieldError : Type := mkFieldError {
  Field : string;
  Tag : string
}.

Inductive StatResult : Type := StatFound | StatNotExist | StatFailed.

(** The calls a handler makes on the service and on the file system. *)
Inductive Call : Type :=
| SvcCreate (req : Request) (userID : UUID) (proofPath : string)
| SvcGet (id : UUID)
| SvcUpdate (id : UUID) (req : Request) (proofPath : string)
| SvcDelete (id : UUID)
| SvcList (userID : UUID) (params : TransactionListParams)
| SvcSummary (userID : UUID)
| MkdirAll (dir : string)
| SaveFile (file : FileHeader) (path : string)
| Stat (path : string)
| Remove (path : string).

Inductive Response : Type :=
| Unauthorized (message : string)
| BadRequest (message : string)
| InternalServerError (message : string)
| NotFound (message : string)
| Failed (err : Err)
| Created (message : string) (data : Data)
| Success (message : string) (data : option Data)
| Found (message : string) (tx : option Transaction)
| SendFile (path : string)
| Panic.

Section Handlers.

(** The state behind the service and the file system, and what they answer:
    [service.TransactionService], [os] and [c.SaveFile], the clock, and
    the library functions the handlers call. *)
Context {W : Type}.

Record Backend : Type := mkBackend {
  svcCreateTransaction :
    Request -> UUID -> string -> W -> (Err + Data) * W;
  svcGetTransactionByID : UUID -> W -> (Err + option Transaction) * W;
  svcUpdateTransaction :
    UUID -> Request -> string -> W -> (Err + Data) * W;
  svcDeleteTransaction : UUID -> W -> option Err * W;
  svcGetTransactionsWithPagination :
    UUID -> TransactionListParams -> W -> (Err + Data) * W;
  svcGetSummaryTransaction : UUID -> W -> (Err + Data) * W;
  osMkdirAll : string -> W -> bool * W;
  cSaveFile : FileHeader -> string -> W -> bool * W;
  osStat : string -> W -> StatResult;
  osRemove : string -> W -> W;
  Unix : W -> Z;
  uuidParse : string -> option UUID;
  TrimSpace : string -> string;
  validateCreate : Request -> list FieldError;
  validateUpdate : Request -> option string;
  validateParams : TransactionListParams -> option string;
  FormatInt : Z -> string
}.

Record World : Type := mkWorld {
  state : W;
  calls : list Call
}.

Variable b : Backend.

Definition call {A : Type} (c : Call) (f : W -> A * W) (w : World)
  : A * World :=
  let (a, s) := f (state w) in (a, mkWorld s (calls w ++ [c])).

(** [c.Locals("userID").(uuid.UUID)] *)
Definition userID_of {Body Query : Type} (c : Ctx Body Query)
  : option UUID :=
  match Locals c "userID" with
  | LocalUUID u => Some u
  | _ => None
  end.

(** The message for one validation error. *)
Definition validation_message (e : FieldError) : string :=
  if String.eqb (Tag e) "required" then (Field e ++ " is required")%string
  else if String.eqb (Tag e) "oneof" then
    (Field e ++ " must be one of the allowed values")%string
  else if String.eqb (Tag e) "datetime" then
    (Field e ++ " must follow format YYYY-MM-DD")%string
  else (Field e ++ " is invalid")%string.

(** The upload of a proof file, of [CreateTransaction] and
    [UpdateTransaction]: the directory is made, then the file is saved
    under the time and its name.  The result is the path, or the error
    message. *)
Definition upload (file : FileHeader) (failure : string) (w : World)
  : (string + string) * World :=
  let uploadDir := "./uploads/proofs"%string in
  let (made, w1) := call (MkdirAll uploadDir) (osMkdirAll b uploadDir) w in
  if negb made then (inr "Failed to create upload directory"%string, w1)
  else
    let filename :=
      (FormatInt b (Unix b (state w1)) ++ "_" ++ Filename file)%string in
    let filePath := filepath_unix.join [uploadDir; filename] in
    let (saved, w2) :=
      call (SaveFile file filePath) (cSaveFile b file filePath) w1 in
    if negb saved then (inr failure, w2) else (inl filePath, w2).

Definition CreateTransaction (c : Ctx Request TransactionListParams)
  (w : World) : Response * World :=
  match userID_of c with
  | None => (Unauthorized "Invalid user ID", w)
  | Some userID =>
      match BodyParser c with
      | None => (BadRequest "Invalid request body", w)
      | Some req =>
          match validateCreate b req with
          | _ :: _ as errors =>
              (BadRequest
                 (String.concat ", " (map validation_message errors)), w)
          | [] =>
              let create proofPath w1 :=
                match call (SvcCreate req userID proofPath)
                        (svcCreateTransaction b req userID proofPath) w1 with
                | (inl err, w2) => (Failed err, w2)
                | (inr result, w2) =>
                    (Created "Transaction created successfully" result, w2)
                end in
              match FormFile c "proofFile" with
              | Some file =>
                  match upload file "Failed to save file" w with
                  | (inr message, w1) => (InternalServerError message, w1)
                  | (inl filePath, w1) => create filePath w1
                  end
              | None => create EmptyString w
              end
          end
      end
  end.

(** The transaction id of the route: [c.Params("id")], which must not be
    blank and must parse. *)
Definition id_of {Body Query : Type} (c : Ctx Body Query)
  : Response + UUID :=
  let idParam := Params c "id" in
  if String.eqb (TrimSpace b idParam) EmptyString
  then inl (BadRequest "Transaction ID is required")
  else match uuidParse b idParam with
       | None => inl (BadRequest "Invalid transaction ID format")
       | Some id => inr id
       end.

Definition GetTransactionByID (c : Ctx Request TransactionListParams)
  (w : World) : Response * World :=
  match userID_of c with
  | None => (Unauthorized "Invalid user ID", w)
  | Some _ =>
      match id_of c with
      | inl response => (response, w)
      | inr id =>
          match call (SvcGet id) (svcGetTransactionByID b id) w with
          | (inl err, w1) => (Failed err, w1)
          | (inr result, w1) =>
              (Found "Transaction retrieved successfully" result, w1)
          end
      end
  end.

(** [filepath.Join("uploads", "proofs", filepath.Base(proofFile))] *)
Definition stored_path (proofFile : string) : string :=
  filepath_unix.join ["uploads"; "proofs"; filepath_unix.Base proofFile]%string.

Definition UpdateTransaction (c : Ctx Request TransactionListParams)
  (w : World) : Response * World :=
  match userID_of c with
  | None => (Unauthorized "Invalid user ID", w)
  | Some userID =>
      match id_of c with
      | inl response => (response, w)
      | inr id =>
          match BodyParser c with
          | None => (BadRequest "Invalid form data", w)
          | Some req =>
              match validateUpdate b req with
              | Some message => (BadRequest message, w)
              | None =>
                  match call (SvcGet id) (svcGetTransactionByID b id) w with
                  | (inl err, w1) => (Failed err, w1)
                  | (inr None, w1) => (Panic, w1)
                  | (inr (Some existingTx), w1) =>
                      if negb (String.eqb (UserID existingTx) userID) then
                        (Unauthorized
                           "You do not have access to this transaction", w1)
                      else
                        let update proofPath w2 :=
                          match call (SvcUpdate id req proofPath)
                                  (svcUpdateTransaction b id req proofPath)
                                  w2 with
                          | (inl err, w3) => (Failed err, w3)
                          | (inr result, w3) =>
                              (Success "Transaction updated successfully"
                                 (Some result), w3)
                          end in
                        match FormFile c "proofFile" with
                        | Some file =>
                            match upload file "Failed to save proof file" w1
                            with
                            | (inr message, w2) =>
                                (InternalServerError message, w2)
                            | (inl filePath, w2) =>
                                let w3 :=
                                  if negb (String.eqb (ProofFile existingTx)
                                             EmptyString)
                                  then
                                    let oldFile :=
                                      stored_path (ProofFile existingTx) in
                                    let (found, w') :=
                                      call (Stat oldFile)
                                        (fun s => (osStat b oldFile s, s)) w2 in
                                    match found with
                                    | StatFound =>
                                        snd (call (Remove oldFile)
                                               (fun s =>
                                                  (tt, osRemove b oldFile s))
                                               w')
                                    | _ => w'
                                    end
                                  else w2 in
                                update filePath w3
                            end
                        | None => update (ProofFile existingTx) w1
                        end
                  end
              end
          end
      end
  end.

Definition DeleteTransaction (c : Ctx Request TransactionListParams)
  (w : World) : Response * World :=
  match userID_of c with
  | None => (Unauthorized "Invalid user ID", w)
  | Some userID =>
      match id_of c with
      | inl response => (response, w)
      | inr id =>
          match call (SvcGet id) (svcGetTransactionByID b id) w with
          | (inl err, w1) => (Failed err, w1)
          | (inr None, w1) => (Panic, w1)
          | (inr (Some existingTx), w1) =>
              if negb (String.eqb (UserID existingTx) userID) then
                (Unauthorized "You do not have access to this transaction",
                 w1)
              else
                match call (SvcDelete id) (svcDeleteTransaction b id) w1 with
                | (Some err, w2) => (Failed err, w2)
                | (None, w2) =>
                    (Success "Transaction deleted successfully" None, w2)
                end
          end
      end
  end.

Definition GetTransactionsWithPagination
  (c : Ctx Request TransactionListParams) (w : World) : Response * World :=
  match userID_of c with
  | None => (Unauthorized "Invalid user ID", w)
  | Some userID =>
      match QueryParser c with
      | None => (BadRequest "Invalid query parameters", w)
      | Some params =>
          let params :=
            mkParams
              (if Page params =? 0 then 1 else Page params)
              (if Limit params =? 0 then 10 else Limit params)
              (if String.eqb (SortBy params) EmptyString then "date"%string
               else SortBy params)
              (if String.eqb (OrderBy params) EmptyString then "desc"%string
               else OrderBy params) in
          match validateParams b params with
          | Some message => (BadRequest message, w)
          | None =>
              match call (SvcList userID params)
                      (svcGetTransactionsWithPagination b userID params) w
              with
              | (inl err, w1) => (Failed err, w1)
              | (inr result, w1) =>
                  (Success "Transactions retrieved successfully"
                     (Some result), w1)
              end
          end
      end
  end.

Definition GetProofFile (c : Ctx Request TransactionListParams) (w : World)
  : Response * World :=
  match userID_of c with
  | None => (Unauthorized "Invalid user ID", w)
  | Some _ =>
      match uuidParse b (Params c "id") with
      | None => (BadRequest "Invalid transaction ID", w)
      | Some id =>
          match call (SvcGet id) (svcGetTransactionByID b id) w with
          | (inl err, w1) => (Failed err, w1)
          | (inr None, w1) => (NotFound "Transaction not found", w1)
          | (inr (Some tx), w1) =>
              if String.eqb (ProofFile tx) EmptyString then
                (NotFound "No proof file", w1)
              else
                let safePath := stored_path (ProofFile tx) in
                let (found, w2) :=
                  call (Stat safePath) (fun s => (osStat b safePath s, s)) w1
                in
                match found with
                | StatNotExist => (NotFound "File not found", w2)
                | _ => (SendFile safePath, w2)
                end
          end
      end
  end.

Definition GetSummaryTransaction (c : Ctx Request TransactionListParams)
  (w : World) : Response * World :=
  match userID_of c with
  | None => (Unauthorized "Invalid user ID", w)
  | Some userID =>
      match call (SvcSummary userID) (svcGetSummaryTransaction b userID) w
      with
      | (inl err, w1) => (Failed err, w1)
      | (inr result, w1) =>
          (Success "Transaction summary retrieved successfully"
             (Some result), w1)
      end
  end.

(** The calls made from [w] to [w']. *)
Definition calls_from (w w' : World) : list Call :=
  skipn (length (calls w)) (calls w').

End Handlers.

Arguments Backend W : clear implicits.
Arguments World W : clear implicits.

End transaction_handler.

(** The calls that change something: the service's update and delete, and
    the writes to the file system. *)
Definition changes (c : transaction_handler.Call) : bool :=
  match c with
  | transaction_handler.SvcUpdate _ _ _
  | transaction_handler.SvcDelete _
  | transaction_handler.MkdirAll _
  | transaction_handler.SaveFile _ _
  | transaction_handler.Remove _ => true
  | _ => false
  end.

(** The user a call of the service acts for, when it names one. *)
Definition acts_for (c : transaction_handler.Call) : option fiber_ctx.UUID :=
  match c with
  | transaction_handler.SvcCreate _ userID _
  | transaction_handler.SvcList userID _
  | transaction_handler.SvcSummary userID => Some userID
  | _ => None
  end.

(** A service that holds one transaction, [tx-1] of the user [user-a], and
    a file system that takes every file; the update succeeds or fails as
    told. *)
Definition sample_tx : transaction_handler.Transaction :=
  transaction_handler.mkTransaction "user-a"%string "uploads/proofs/1_a.png"
    "amount 10".

Definition sample_backend (update_ok : bool)
  : transaction_handler.Backend (list string) :=
  transaction_handler.mkBackend
    (fun _ _ _ s => (inr "created"%string, s))
    (fun id s =>
       (if String.eqb id "tx-1" then inr (Some sample_tx)
        else inl "transaction not found"%string, s))
    (fun _ _ _ s =>
       (if update_ok then inr "updated"%string
        else inl "update failed"%string, s))
    (fun _ s => (None, s))
    (fun _ _ s => (inr "page"%string, s))
    (fun _ s => (inr "summary"%string, s))
    (fun _ s => (true, s))
    (fun _ path s => (true, path :: s))
    (fun _ _ => transaction_handler.StatFound)
    (fun path s => ("removed " ++ path)%string :: s)
    (fun _ => 1700000000)
    (fun text => if String.eqb text EmptyString then None else Some text)
    (fun text => text)
    (fun _ => [])
    (fun _ => None)
    (fun _ => None)
    (fun _ => "1700000000"%string).

(** The request of the user [user] on the transaction [id], with or without
    a proof file. *)
Definition sample_ctx (user id : string)
  (file : option fiber_ctx.FileHeader)
  : fiber_ctx.Ctx transaction_handler.Request
      transaction_handler.TransactionListParams :=
  fiber_ctx.mkCtx _ _
    (fun key =>
       if String.eqb key "userID" then fiber_ctx.LocalUUID user
       else fiber_ctx.LocalNil)
    (fun key => if String.eqb key "id" then id else EmptyString)
    (Some "body"%string)
    (Some (transaction_handler.mkParams 0 0 "" ""))
    (fun _ => file).

Definition sample_handler_world : transaction_handler.World (list string) :=
  transaction_handler.mkWorld [] [].


(** The handlers of maximum_spend_handler.go. *)
Module maximum_spend_handler.
Import fiber_ctx.

Section Handlers.

(** The amounts and the identifiers of the limits, which the handlers only
    pass on, and the state behind the service. *)
Context {Amount Id W : Type}.

(** [dto.MaximumSpendRequest] *)
Record MaximumSpendRequest : Type := mkRequest {
  reqDailyLimit : Amount;
  reqMonthlyLimit : Amount;
  reqYearlyLimit : Amount
}.

(** What the handlers read of the service's limits. *)
Record MaximumSpend : Type := mkMaximumSpend {
  msID : Id;
  msUserID : UUID;
  msDailyLimit : Amount;
  msMonthlyLimit : Amount;
  msYearlyLimit : Amount
}.

(** [dto.MaximumSpendResponse] *)
Record MaximumSpendResponse : Type := mkResponse {
  ID : Id;
  UserID : string;
  DailyLimit : Amount;
  MonthlyLimit : Amount;
  YearlyLimit : Amount
}.

Inductive Call : Type :=
| SvcSet (userID : UUID) (daily monthly yearly : Amount)
| SvcGet (userID : UUID).

(** An answer: a status with an error message, the limits with status 200,
    or the panic of a failed type assertion. *)
Inductive Response : Type :=
| StatusError (code : Z) (error : string)
| StatusOK (resp : MaximumSpendResponse)
| Panic.

Record Backend : Type := mkBackend {
  svcSetMaximumSpend :
    UUID -> Amount -> Amount -> Amount -> W -> (string + MaximumSpend) * W;
  svcGetMaximumSpend : UUID -> W -> (string + MaximumSpend) * W;
  validateStruct : MaximumSpendRequest -> option string;
  uuidParse : string -> option UUID;
  uuidString : UUID -> string
}.

Record World : Type := mkWorld {
  state : W;
  calls : list Call
}.

Variable b : Backend.

Definition call {A : Type} (c : Call) (f : W -> A * W) (w : World)
  : A * World :=
  let (a, s) := f (state w) in (a, mkWorld s (calls w ++ [c])).

Definition response_of (ms : MaximumSpend) : MaximumSpendResponse :=
  mkResponse (msID ms) (uuidString b (msUserID ms)) (msDailyLimit ms)
    (msMonthlyLimit ms) (msYearlyLimit ms).

(** The user of the request: [c.Locals("user_id")], which must not be nil,
    is asserted to be a string, and must parse. *)
Definition user_of {Query : Type} (c : Ctx MaximumSpendRequest Query)
  : Response + UUID :=
  match Locals c "user_id" with
  | LocalNil => inl (StatusError 401 "Unauthorized")
  | LocalString userIDStr =>
      match uuidParse b userIDStr with
      | None => inl (StatusError 400 "Invalid user ID")
      | Some userID => inr userID
      end
  | _ => inl Panic
  end.

Definition SetMaximumSpend {Query : Type}
  (c : Ctx MaximumSpendRequest Query) (w : World) : Response * World :=
  match BodyParser c with
  | None => (StatusError 400 "Invalid request body", w)
  | Some req =>
      match validateStruct b req with
      | Some message => (StatusError 400 message, w)
      | None =>
          match user_of c with
          | inl response => (response, w)
          | inr userID =>
              match call (SvcSet userID (reqDailyLimit req)
                            (reqMonthlyLimit req) (reqYearlyLimit req))
                      (svcSetMaximumSpend b userID (reqDailyLimit req)
                         (reqMonthlyLimit req) (reqYearlyLimit req)) w with
              | (inl message, w1) => (StatusError 500 message, w1)
              | (inr ms, w1) => (StatusOK (response_of ms), w1)
              end
          end
      end
  end.

Definition GetMaximumSpend {Query : Type}
  (c : Ctx MaximumSpendRequest Query) (w : World) : Response * World :=
  match user_of c with
  | inl response => (response, w)
  | inr userID =>
      match call (SvcGet userID) (svcGetMaximumSpend b userID) w with
      | (inl message, w1) => (StatusError 404 message, w1)
      | (inr ms, w1) => (StatusOK (response_of ms), w1)
      end
  end.

Definition calls_from (w w' : World) : list Call :=
  skipn (length (calls w)) (calls w').

End Handlers.

Arguments MaximumSpendRequest Amount : clear implicits.
Arguments MaximumSpend Amount Id : clear implicits.
Arguments MaximumSpendResponse Amount Id : clear implicits.
Arguments Call Amount : clear implicits.
Arguments Response Amount Id : clear implicits.
Arguments Backend Amount Id W : clear implicits.
Arguments World Amount W : clear implicits.

End maximum_spend_handler.

(** A service of limits in whole units that always answers, for a request
    whose user id is held as [held]. *)
Definition sample_limits : maximum_spend_handler.Backend Z Z (list string) :=
  maximum_spend_handler.mkBackend
    (fun u d m y s =>
       (inr (maximum_spend_handler.mkMaximumSpend 1 u d m y), s))
    (fun u s =>
       (inr (maximum_spend_handler.mkMaximumSpend 1 u 10 100 1000), s))
    (fun _ => None)
    (fun text => if String.eqb text EmptyString then None else Some text)
    (fun u => u).

Definition sample_limits_ctx (held : fiber_ctx.Local)
  : fiber_ctx.Ctx (maximum_spend_handler.MaximumSpendRequest Z) unit :=
  fiber_ctx.mkCtx _ _
    (fun key => if String.eqb key "user_id" then held else fiber_ctx.LocalNil)
    (fun _ => EmptyString)
    (Some (maximum_spend_handler.mkRequest 10 100 1000))
    None
    (fun _ => None).

(** ** [sort.Slice]: the insertion sort meets the contract *)

Section SortFacts.
Context {A : Type} (less : A -> A -> bool).

Lemma insert_left_perm (x : A) (done : list A) :
  Permutation (x :: done) (sort.insert_left less x done).
Proof.
  induction done as [|y r IH]; simpl.
  - reflexivity.
  - destruct (less x y).
    + rewrite perm_swap. now apply perm_skip.
    + reflexivity.
Qed.

Lemma insertion_loop_perm (todo done : list A) :
  Permutation (rev done ++ todo) (sort.insertion_loop less done todo).
Proof.
  revert done. induction todo as [|x t IH]; intros done; simpl.
  - now rewrite app_nil_r.
  - rewrite <- IH. rewrite <- (Permutation_rev (sort.insert_left less x done)).
    rewrite <- insert_left_perm, <- Permutation_rev.
    rewrite <- Permutation_middle. reflexivity.
Qed.

Lemma insertionSort_perm (l : list A) :
  Permutation l (sort.insertionSort l less).
Proof. exact (insertion_loop_perm l []). Qed.

Hypothesis SW : sort.StrictWeak less.

Lemma insert_left_descending (x : A) (done : list A) :
  sort.Descending less done ->
  sort.Descending less (sort.insert_left less x done).
Proof.
  unfold sort.Descending. induction 1 as [|y r Hr IH Hy]; simpl.
  - repeat constructor.
  - destruct (less x y) eqn:E.
    + constructor; [exact IH|].
      rewrite Forall_forall in *. intros z Hz.
      apply (Permutation_in z (Permutation_sym (insert_left_perm x r))) in Hz.
      destruct Hz as [<-|Hz]; [now apply (sort.sw_asym less SW)|now apply Hy].
    + constructor; [now constructor|].
      constructor; [exact E|].
      rewrite Forall_forall in *. intros z Hz.
      apply (sort.sw_negtrans less SW x y z E). now apply Hy.
Qed.

Lemma descending_rev (l : list A) :
  sort.Descending less l -> sort.Ordered less (rev l).
Proof.
  unfold sort.Descending, sort.Ordered. induction 1 as [|y r Hr IH Hy]; simpl.
  - constructor.
  - clear Hr. revert IH. generalize (rev r) (fun z => proj2 (in_rev r z)).
    intros l' Hin. induction 1 as [|z t Ht IHt Hz]; simpl.
    + repeat constructor.
    + constructor.
      * apply IHt. intros u Hu. apply Hin. now right.
      * rewrite Forall_forall in *. intros u Hu.
        apply in_app_or in Hu. destruct Hu as [Hu|[<-|[]]]; [now apply Hz|].
        apply Hy, Hin. now left.
Qed.

Lemma insertion_loop_ordered (todo done : list A) :
  sort.Descending less done ->
  sort.Ordered less (sort.insertion_loop less done todo).
Proof.
  revert done. induction todo as [|x t IH]; intros done Hd; simpl.
  - now apply descending_rev.
  - apply IH. now apply insert_left_descending.
Qed.

Lemma insertionSort_ordered (l : list A) :
  sort.Ordered less (sort.insertionSort l less).
Proof. apply insertion_loop_ordered. constructor. Qed.

End SortFacts.

#[export] Instance insertion_sorter : sort.Sorter := {|
  sort.Slice := @sort.insertionSort;
  sort.Slice_perm := fun A l less => insertionSort_perm less l;
  sort.Slice_ordered := fun A l less SW => insertionSort_ordered less SW l
|}.

(** ** Facts about the library functions *)

Section StringFacts.

Lemma HasPrefix_separator (a : ascii) (s : string) :
  strings.HasPrefix (String a s) "_" = Ascii.eqb a separator.
Proof.
  unfold strings.HasPrefix, separator; simpl.
  now destruct (Ascii.eqb a "_").
Qed.

Lemma Index_separator (s : string) :
  strings.Index s "_" =
  if has_byte separator s
  then Some (String.length (before_byte separator s))
  else None.
Proof.
  induction s as [|a s IH].
  - reflexivity.
  - cbn [strings.Index has_byte before_byte]. rewrite HasPrefix_separator.
    destruct (Ascii.eqb a separator); simpl; [reflexivity|].
    rewrite IH. now destruct (has_byte separator s).
Qed.

Lemma slice_to_before (c : ascii) (s : string) :
  strings.slice_to (String.length (before_byte c s)) s = before_byte c s.
Proof.
  induction s as [|a s IH]; simpl; [reflexivity|].
  destruct (Ascii.eqb a c); simpl; [reflexivity|]. now rewrite IH.
Qed.

Lemma SplitN_separator (s : string) :
  strings.SplitN s "_" 2 =
  if has_byte separator s
  then [version_prefix s;
        strings.slice_from (String.length (version_prefix s) + 1) s]
  else [s].
Proof.
  unfold version_prefix. cbn [strings.SplitN]. rewrite Index_separator.
  destruct (has_byte separator s); [|reflexivity].
  now rewrite slice_to_before.
Qed.

Lemma digit_is_digit (c : ascii) :
  strconv.digit c =
  if is_digit c then Some (Z.of_nat (nat_of_ascii c) - 48) else None.
Proof.
  unfold strconv.digit, is_digit. cbv zeta.
  replace (48 <=? Z.of_nat (nat_of_ascii c))
    with (48 <=? nat_of_ascii c)%nat.
  replace (Z.of_nat (nat_of_ascii c) <=? 57)
    with (nat_of_ascii c <=? 57)%nat.
  - reflexivity.
  - destruct (Nat.leb_spec (nat_of_ascii c) 57); symmetry;
      [apply Z.leb_le|apply Z.leb_gt]; lia.
  - destruct (Nat.leb_spec 48 (nat_of_ascii c)); symmetry;
      [apply Z.leb_le|apply Z.leb_gt]; lia.
Qed.

Lemma digits_decimal (s : string) (n : Z) :
  strconv.digits n s =
  if all_digits s
  then Some (n * 10 ^ Z.of_nat (String.length s) + decimal_value s)
  else None.
Proof.
  revert n. induction s as [|c s IH]; intros n.
  - simpl. f_equal. lia.
  - cbn [strconv.digits all_digits decimal_value String.length].
    rewrite digit_is_digit. destruct (is_digit c); [|reflexivity].
    rewrite IH. cbn [andb]. destruct (all_digits s); [|reflexivity].
    f_equal. rewrite Nat2Z.inj_succ, Z.pow_succ_r by lia. ring.
Qed.

Lemma decimal_value_nonneg (s : string) :
  all_digits s = true -> 0 <= decimal_value s.
Proof.
  induction s as [|c s IH]; simpl; [lia|].
  intros H. apply andb_prop in H. destruct H as [Hc Hs].
  unfold is_digit in Hc. apply andb_prop in Hc. destruct Hc as [Hc _].
  apply Nat.leb_le in Hc. specialize (IH Hs).
  assert (0 <= 10 ^ Z.of_nat (String.length s)) by (apply Z.pow_nonneg; lia).
  nia.
Qed.

Lemma digits_2 (s : string) (v : Z):
  strconv.digits 0 s = Some v -> all_digits s = true /\ v = decimal_value s.
Proof.
  rewrite digits_decimal. destruct (all_digits s); [|discriminate].
  intros [= <-]. split; [reflexivity|lia].
Qed.

Lemma is_digit_not_sign (c : ascii) :
  is_digit c = true -> Ascii.eqb c "-" || Ascii.eqb c "+" = false.
Proof.
  intros H. destruct (Ascii.eqb c "-") eqn:E1.
  - apply Ascii.eqb_eq in E1. subst c. discriminate H.
  - destruct (Ascii.eqb c "+") eqn:E2; [|reflexivity].
    apply Ascii.eqb_eq in E2. subst c. discriminate H.
Qed.

(** [Atoi] on a numeral that fits [int] is its decimal value. *)
Lemma Atoi_numeral (p : string) :
  is_numeral p = true -> decimal_value p <= strconv.maxInt ->
  strconv.Atoi p = Some (decimal_value p).
Proof.
  unfold is_numeral. intros H Hmax.
  apply andb_prop in H. destruct H as [Hne Hd].
  destruct p as [|c r]; [discriminate|].
  pose proof (decimal_value_nonneg _ Hd) as Hpos.
  unfold strconv.Atoi.
  assert (Hs : Ascii.eqb c "-" || Ascii.eqb c "+" = false).
  { simpl in Hd. apply andb_prop in Hd. now apply is_digit_not_sign. }
  apply orb_false_elim in Hs. destruct Hs as [Hm Hp].
  rewrite Hm, Hp. cbn [orb]. cbv zeta.
  rewrite digits_decimal, Hd.
  replace (0 * _ + decimal_value (String c r))
    with (decimal_value (String c r)) by lia.
  replace (strconv.minInt <=? _) with true
    by (symmetry; apply Z.leb_le; unfold strconv.minInt; lia).
  replace (_ <=? strconv.maxInt) with true by (symmetry; now apply Z.leb_le).
  reflexivity.
Qed.

(** What [Atoi] accepts is a decimal integer, and its value fits [int];
    without a leading minus sign the value is not negative. *)
Lemma Atoi_Some (p : string) (v : Z) :
  strconv.Atoi p = Some v ->
  is_decimal p = true
  /\ strconv.minInt <= v <= strconv.maxInt
  /\ (strings.HasPrefix p "-" = false -> 0 <= v).
Proof.
  unfold strconv.Atoi, is_decimal. destruct p as [|c r]; [discriminate|].
  cbv zeta. intros H.
  assert (Hpre : strings.HasPrefix (String c r) "-" = Ascii.eqb c "-").
  { unfold strings.HasPrefix; simpl. now destruct (Ascii.eqb c "-"). }
  rewrite Hpre. clear Hpre.
  set (body := if Ascii.eqb c "-" || Ascii.eqb c "+" then r else String c r)
    in *.
  assert (Hnum : is_numeral body = true /\
                 exists n, 0 <= n /\ v = (if Ascii.eqb c "-" then - n else n)
                           /\ strconv.minInt <= v <= strconv.maxInt).
  { destruct body as [|b bs] eqn:Eb; [discriminate|].
    destruct (strconv.digits 0 (String b bs)) as [n|] eqn:Ed; [|discriminate].
    apply digits_2 in Ed. destruct Ed as [Hd ->].
    destruct (_ && _) eqn:Er in H; [|discriminate]. injection H as <-.
    apply andb_prop in Er. destruct Er as [E1 E2].
    apply Z.leb_le in E1, E2.
    split; [unfold is_numeral; now rewrite Hd|].
    exists (decimal_value (String b bs)).
    split; [now apply decimal_value_nonneg|]. split; [reflexivity|now split]. }
  destruct Hnum as [Hnum (n & Hn & Hv & Hr)].
  split; [|split; [exact Hr|]].
  - subst body. now destruct (Ascii.eqb c "-" || Ascii.eqb c "+").
  - intros Hm. rewrite Hm in Hv. lia.
Qed.

Lemma Atoi_not_decimal (p : string) :
  is_decimal p = false -> strconv.Atoi p = None.
Proof.
  intros H. destruct (strconv.Atoi p) as [v|] eqn:E; [|reflexivity].
  apply Atoi_Some in E. destruct E as [E _]. congruence.
Qed.

Lemma HasPrefix_minus (a : ascii) (s : string) :
  strings.HasPrefix (String a s) "-" = Ascii.eqb a "-".
Proof.
  unfold strings.HasPrefix; simpl. now destruct (Ascii.eqb a "-").
Qed.

(** A name starts with a minus sign exactly when its version prefix
    does. *)
Lemma HasPrefix_minus_version_prefix (s : string) :
  strings.HasPrefix (version_prefix s) "-" = strings.HasPrefix s "-".
Proof.
  destruct s as [|a s]; [reflexivity|].
  unfold version_prefix. cbn [before_byte].
  destruct (Ascii.eqb a separator) eqn:E.
  - apply Ascii.eqb_eq in E. subst a. reflexivity.
  - now rewrite !HasPrefix_minus.
Qed.

Lemma slice_from_length_append (p q : string) :
  strings.slice_from (String.length p) (p ++ q) = q.
Proof. induction p as [|a p IH]; simpl; [now destruct q|exact IH]. Qed.

Lemma length_append (p q : string) :
  String.length (p ++ q) = (String.length p + String.length q)%nat.
Proof. induction p as [|a p IH]; simpl; [reflexivity|now rewrite IH]. Qed.

Lemma HasSuffix_append (p q : string) : strings.HasSuffix (p ++ q) q = true.
Proof.
  unfold strings.HasSuffix. rewrite length_append.
  replace (String.length p + String.length q - String.length q)%nat
    with (String.length p) by lia.
  rewrite slice_from_length_append, String.eqb_refl, andb_true_r.
  apply Nat.leb_le. lia.
Qed.

Lemma has_byte_append (c : ascii) (p q : string) :
  has_byte c (p ++ q) = has_byte c p || has_byte c q.
Proof.
  induction p as [|a p IH]; simpl; [reflexivity|].
  now rewrite IH, orb_assoc.
Qed.

Lemma all_digits_no_separator (p : string) :
  all_digits p = true -> has_byte separator p = false.
Proof.
  induction p as [|a p IH]; simpl; [reflexivity|].
  intros H. apply andb_prop in H. destruct H as [Ha Hp].
  rewrite (IH Hp), orb_false_r. apply Ascii.eqb_neq. intros ->. discriminate Ha.
Qed.

End StringFacts.

Section ListFacts.

Lemma skipn_length_app {A : Type} (l l' : list A) :
  skipn (length l) (l ++ l') = l'.
Proof. induction l; simpl; auto. Qed.

Lemma has_version_app (v : Z) (l l' : list LedgerEntry) :
  has_version v (l ++ l') = has_version v l || has_version v l'.
Proof. unfold has_version. apply existsb_app. Qed.

Lemma has_version_In (v : Z) (l : list LedgerEntry) :
  has_version v l = true <-> In v (versions l).
Proof.
  unfold has_version, versions. rewrite existsb_exists, in_map_iff.
  split; intros (e & H1 & H2); exists e.
  - apply Z.eqb_eq in H2. tauto.
  - split; [tauto|]. now apply Z.eqb_eq.
Qed.

Lemma count_app (p : Call -> bool) (l l' : list Call) :
  count p (l ++ l') = (count p l + count p l')%nat.
Proof. unfold count. now rewrite filter_app, length_app. Qed.

Lemma calm_tl (fate : list bool) : calm fate -> calm (tl fate).
Proof. unfold calm. destruct 1; simpl; auto. Qed.

Lemma calm_hd (fate : list bool) : calm fate -> hd false fate = false.
Proof. unfold calm. destruct 1; simpl; auto. Qed.

End ListFacts.

Section VersionOrder.

Lemma version_less_strict_weak : sort.StrictWeak version_less.
Proof.
  unfold version_less. split.
  - intros a b H. apply Z.ltb_lt in H. apply Z.ltb_ge. lia.
  - intros a b c H1 H2. apply Z.ltb_ge in H1, H2. apply Z.ltb_ge. lia.
Qed.

(** An ordered list of descriptors with distinct versions ascends
    strictly. *)
Lemma Ordered_NoDup_Ascending (ms : list migrationFile) :
  sort.Ordered version_less ms -> NoDup (map Version ms) -> Ascending ms.
Proof.
  unfold sort.Ordered, Ascending. induction 1 as [|m ms Hs IH Hm]; intros Hnd.
  - constructor.
  - simpl in Hnd. inversion Hnd as [|? ? Hnotin Hnd']; subst.
    constructor; [now apply IH|].
    rewrite Forall_forall in *. intros b Hb.
    specialize (Hm b Hb). unfold version_less in Hm. apply Z.ltb_ge in Hm.
    assert (Version b <> Version m).
    { intros E. apply Hnotin. rewrite <- E. now apply in_map. }
    lia.
Qed.

(** Two strictly ascending lists with the same elements are the same
    list. *)
Lemma Ascending_Permutation_eq (l1 l2 : list migrationFile) :
  Ascending l1 -> Ascending l2 -> Permutation l1 l2 -> l1 = l2.
Proof.
  unfold Ascending. intros H1. revert l2.
  induction H1 as [|a l1 Hs1 IH Ha]; intros l2 H2 HP.
  - now apply Permutation_nil in HP.
  - destruct H2 as [|b l2 Hs2 Hb].
    + apply Permutation_sym, Permutation_nil in HP. discriminate.
    + assert (a = b) as ->.
      { assert (Ia : In a (b :: l2)) by (apply (Permutation_in _ HP); now left).
        assert (Ib : In b (a :: l1))
          by (apply (Permutation_in _ (Permutation_sym HP)); now left).
        destruct Ia as [->|Ia]; [reflexivity|].
        destruct Ib as [->|Ib]; [reflexivity|].
        rewrite Forall_forall in Ha, Hb.
        specialize (Ha _ Ib). specialize (Hb _ Ia). lia. }
      f_equal. apply IH; [assumption|]. now apply Permutation_cons_inv in HP.
Qed.

End VersionOrder.

(** ** Discovery *)

(** Where a descriptor comes from. *)
Lemma descriptor_Some (dir : string) (f : os.FileInfo) (m : migrationFile) :
  descriptor dir f = Some m ->
  os.IsDir f = false
  /\ strings.HasSuffix (os.Name f) ".sql" = true
  /\ has_byte separator (os.Name f) = true
  /\ strconv.Atoi (version_prefix (os.Name f)) = Some (Version m)
  /\ Name m = os.Name f
  /\ Path m = filepath.Join dir (os.Name f).
Proof.
  unfold descriptor, passed_over.
  destruct (os.IsDir f); [discriminate|].
  destruct (strings.HasSuffix (os.Name f) ".sql"); [|discriminate].
  destruct (has_byte separator (os.Name f)); [|discriminate].
  simpl. destruct (strconv.Atoi _) as [v|]; [|discriminate].
  simpl. intros [= <-]. simpl. tauto.
Qed.

Lemma in_descriptors (dir : string) (entries : list os.FileInfo)
  (m : migrationFile) :
  In m (descriptors dir entries) <->
  exists f, In f entries /\ descriptor dir f = Some m.
Proof.
  unfold descriptors. rewrite in_flat_map. split; intros (f & Hf & H); exists f.
  - split; [assumption|]. destruct (descriptor dir f); [|contradiction].
    destruct H as [->|[]]. reflexivity.
  - split; [assumption|]. rewrite H. now left.
Qed.

Lemma descriptor_filtered_out (dir : string) (f : os.FileInfo) :
  filtered_out f = true <-> descriptor dir f = None.
Proof.
  unfold filtered_out, descriptor.
  destruct (passed_over f || negb (has_byte separator (os.Name f))); simpl.
  - tauto.
  - destruct (strconv.Atoi _); simpl; split; congruence.
Qed.

Lemma descriptors_filtered_out (dir : string) (entries : list os.FileInfo) :
  Forall (fun f => filtered_out f = true) entries ->
  descriptors dir entries = [].
Proof.
  induction 1 as [|f rest Hf _ IH]; [reflexivity|].
  apply (descriptor_filtered_out dir) in Hf.
  unfold descriptors in *. simpl. now rewrite Hf, IH.
Qed.

Lemma descriptors_app (dir : string) (l1 l2 : list os.FileInfo) :
  descriptors dir (l1 ++ l2) = descriptors dir l1 ++ descriptors dir l2.
Proof. unfold descriptors. apply flat_map_app. Qed.

Lemma descriptors_perm (dir : string) (l1 l2 : list os.FileInfo) :
  Permutation l1 l2 -> Permutation (descriptors dir l1) (descriptors dir l2).
Proof.
  induction 1; simpl.
  - constructor.
  - unfold descriptors; simpl. now apply Permutation_app_head.
  - unfold descriptors; simpl. rewrite !app_assoc.
    apply Permutation_app_tail, Permutation_app_comm.
  - etransitivity; eassumption.
Qed.

(** A well-formed entry yields the descriptor its name states. *)
Lemma descriptor_well_formed (dir : string) (f : os.FileInfo) :
  well_formed f = true ->
  descriptor dir f =
  Some (mkMigrationFile (named_version f) (os.Name f)
          (filepath.Join dir (os.Name f)))
  /\ diagnostic f = None.
Proof.
  unfold well_formed, descriptor, diagnostic, passed_over, named_version.
  intros H. repeat (apply andb_prop in H; destruct H as [H ?]).
  apply negb_true_iff in H. rewrite H.
  match goal with H : strings.HasSuffix _ _ = true |- _ => rewrite H end.
  match goal with H : has_byte _ _ = true |- _ => rewrite H end.
  simpl. rewrite Atoi_numeral; [now split|assumption|now apply Z.leb_le].
Qed.

Lemma descriptors_well_formed (dir : string) (entries : list os.FileInfo) :
  Forall (fun f => well_formed f = true) entries ->
  map Version (descriptors dir entries) = map named_version entries
  /\ map Name (descriptors dir entries) = map os.Name entries
  /\ flat_map diagnostics entries = [].
Proof.
  induction 1 as [|f rest Hf _ IH].
  - now split.
  - destruct IH as (IH1 & IH2 & IH3).
    destruct (descriptor_well_formed dir f Hf) as [Hd Hg].
    unfold descriptors, diagnostics in *. simpl. rewrite Hd, Hg. simpl.
    now rewrite IH1, IH2, IH3.
Qed.

(** Every descriptor of a scan comes from an entry that is a file, ends in
    [.sql], has a separator, and has before it a text that [Atoi] reads as
    the descriptor's version. *)
Lemma loaded_descriptor_origin (dir : string) (entries : list os.FileInfo)
  (ms : list migrationFile) (m : migrationFile) :
  Permutation (descriptors dir entries) ms -> In m ms ->
  exists f,
    In f entries /\ Name m = os.Name f /\ os.IsDir f = false
    /\ strings.HasSuffix (os.Name f) ".sql" = true
    /\ has_byte separator (os.Name f) = true
    /\ strconv.Atoi (version_prefix (os.Name f)) = Some (Version m).
Proof.
  intros HP Hin. apply (Permutation_in _ (Permutation_sym HP)) in Hin.
  apply in_descriptors in Hin. destruct Hin as (f & Hf & Hd).
  apply descriptor_Some in Hd. exists f. tauto.
Qed.

Section Discovery.
Context {S : Type} {sorter : sort.Sorter}.

Local Abbreviation World := (@World S).

Lemma add_logs_nil (w : World) : add_logs [] w = w.
Proof. destruct w. unfold add_logs. simpl. now rewrite app_nil_r. Qed.

Lemma add_logs_app (ls ls' : list LogLine) (w : World) :
  add_logs ls' (add_logs ls w) = add_logs (ls ++ ls') w.
Proof. unfold add_logs. simpl. now rewrite app_assoc. Qed.

(** [toMigrationFile] returns the descriptor of the entry and logs its
    diagnostic, whatever the world. *)
Lemma toMigrationFile_eq (dir : string) (f : os.FileInfo) (w : World) :
  toMigrationFile dir f w = (Ok (descriptor dir f), add_logs (diagnostics f) w).
Proof.
  unfold toMigrationFile, descriptor, diagnostics, diagnostic, passed_over.
  destruct (os.IsDir f || negb (strings.HasSuffix (os.Name f) ".sql")).
  - simpl. unfold ret. now rewrite add_logs_nil.
  - rewrite SplitN_separator. cbn [orb].
    destruct (has_byte separator (os.Name f));
      cbn [negb length hd Nat.ltb Nat.leb].
    + destruct (strconv.Atoi (version_prefix (os.Name f))); simpl.
      * unfold ret. now rewrite add_logs_nil.
      * reflexivity.
    + reflexivity.
Qed.

Lemma collect_eq (dir : string) (entries : list os.FileInfo) :
  forall (migrations : list migrationFile) (w : World),
    collect dir entries migrations w =
    (Ok (migrations ++ descriptors dir entries),
     add_logs (flat_map diagnostics entries) w).
Proof.
  induction entries as [|f rest IH]; intros ms w.
  - simpl. unfold ret. now rewrite add_logs_nil, app_nil_r.
  - cbn [collect]. unfold bind. rewrite toMigrationFile_eq.
    destruct (descriptor dir f) as [m|] eqn:E; rewrite IH, add_logs_app;
      unfold descriptors; simpl; rewrite E; simpl;
      [now rewrite <- app_assoc|reflexivity].
Qed.

Lemma loadMigrationFiles_eq (dir : string) (entries : list os.FileInfo)
  (w : World) :
  dirs w dir = Some entries ->
  loadMigrationFiles dir w =
  (Ok (sort.Slice (descriptors dir entries) version_less),
   add_logs (flat_map diagnostics entries) w).
Proof.
  intros H. unfold loadMigrationFiles, bind, ReadDir. rewrite H.
  now rewrite collect_eq.
Qed.

Lemma loadMigrationFiles_unreadable (dir : string) (w : World) :
  dirs w dir = None ->
  loadMigrationFiles dir w = (Fatal, add_log LogReadDirFailed w).
Proof.
  intros H. unfold loadMigrationFiles, bind, ReadDir. now rewrite H.
Qed.

End Discovery.

(** ** The loop of the Applier *)

Section Applier.
Context {S : Type}
  (run_sql : string -> option (list LedgerEntry) * S ->
             option (option (list LedgerEntry) * S))
  {sorter : sort.Sorter}.
Local Abbreviation World := (@World S).
Local Abbreviation Step := (Step run_sql).
Local Abbreviation SparingStep := (SparingStep run_sql).
Local Abbreviation spares_ledger := (spares_ledger run_sql).
Local Abbreviation bodies_spare_ledger := (bodies_spare_ledger run_sql).
Local Abbreviation migrations_spare_ledger := (migrations_spare_ledger run_sql).

Lemma not_calm_cons (fate : list bool) : hd false fate = true -> ~ calm fate.
Proof. intros H C. apply calm_hd in C. congruence. Qed.

Lemma not_calm_tl (fate : list bool) : ~ calm (tl fate) -> ~ calm fate.
Proof. intros H C. apply H. now apply calm_tl. Qed.

Ltac unfold_engine :=
  unfold migrationAlreadyApplied, applyMigration, ensureMigrationsTable,
    bind, call, ret, Printf, Fatalf, ReadFile, ReadDir,
    query_exists, exec_body, exec_insert, exec_create, serve,
    add_call, add_log, set_ledger, set_schema in *;
  cbn [dirs files ledger schema now outages calls log fst snd negb] in *.

Ltac reduce_world :=
  cbv beta iota;
  cbn [negb option_map dirs files ledger schema now outages calls log].

Ltac step_facts :=
  cbn;
  try solve [ reflexivity | eassumption | split; reflexivity
            | rewrite <- !app_assoc; reflexivity | congruence ].

(** One turn of the loop. *)
Lemma applyPendingMigrations_cons (m : migrationFile)
  (rest : list migrationFile) (w w' : World) (r : Result unit) :
  applyPendingMigrations run_sql (m :: rest) w = (r, w') ->
  exists w1 b,
    Step m w w1 b
    /\ (calm (outages w) -> calm (outages w1))
    /\ (if b then applyPendingMigrations run_sql rest w1 = (r, w')
        else r = Fatal /\ w' = w1).
Proof.
  cbn [applyPendingMigrations]. unfold_engine.
  destruct (hd false (outages w)) eqn:Hup; reduce_world.
  { intros [= <- <-]. eexists _, false.
    split; [|split; [|split; reflexivity]].
    - apply StepCheckFailed; step_facts.
      intros C. apply calm_hd in C. congruence.
    - cbn. apply calm_tl. }
  destruct (ledger w) as [l|] eqn:Hl; reduce_world.
  2:{ intros [= <- <-]. eexists _, false.
      split; [|split; [|split; reflexivity]].
      - apply StepCheckFailed; step_facts; auto.
      - cbn. apply calm_tl. }
  destruct (has_version (Version m) l) eqn:Hv; reduce_world.
  { intros H. eexists _, true. split; [|split; [|exact H]].
    - eapply StepSkipped; step_facts.
    - cbn. apply calm_tl. }
  destruct (files w (Path m)) as [q|] eqn:Hq; reduce_world.
  2:{ intros [= <- <-]. eexists _, false.
      split; [|split; [|split; reflexivity]].
      - eapply StepReadFailed; step_facts.
      - cbn. apply calm_tl. }
  destruct (hd false (tl (outages w))) eqn:Hup2; reduce_world.
  { intros [= <- <-]. eexists _, false.
    split; [|split; [|split; reflexivity]].
    - eapply StepExecuteFailed; step_facts.
      intros C. apply calm_tl, calm_hd in C. congruence.
    - cbn. intros C. now apply calm_tl, calm_tl. }
  destruct (run_sql q (Some l, schema w)) as [[l' s']|] eqn:Hs; reduce_world.
  2:{ intros [= <- <-]. eexists _, false.
      split; [|split; [|split; reflexivity]].
      - eapply StepExecuteFailed; step_facts; auto.
      - cbn. intros C. now apply calm_tl, calm_tl. }
  rewrite <- Hl in Hs.
  destruct (hd false (tl (tl (outages w)))) eqn:Hup3; reduce_world.
  { intros [= <- <-]. eexists _, false.
    split; [|split; [|split; reflexivity]].
    - eapply StepRecordFailed; step_facts.
      intros C. exfalso. revert C.
      now apply not_calm_tl, not_calm_tl, not_calm_cons.
    - cbn. intros C. now apply calm_tl, calm_tl, calm_tl. }
  destruct l' as [rows|]; reduce_world.
  2:{ intros [= <- <-]. eexists _, false.
      split; [|split; [|split; reflexivity]].
      - eapply StepRecordFailed; step_facts; discriminate.
      - cbn. intros C. now apply calm_tl, calm_tl, calm_tl. }
  destruct (has_version (Version m) rows) eqn:Hv'; reduce_world.
  { intros [= <- <-]. eexists _, false.
    split; [|split; [|split; reflexivity]].
    - eapply StepRecordFailed; step_facts; intros _ rows' E; congruence.
    - cbn. intros C. now apply calm_tl, calm_tl, calm_tl. }
  intros H. eexists _, true. split; [|split; [|exact H]].
  - eapply StepApplied; step_facts.
  - cbn. intros C. now apply calm_tl, calm_tl, calm_tl.
Qed.

(** Induction over the turns of the loop. *)
Lemma applyPendingMigrations_ind
  (P : list migrationFile -> World -> Result unit -> World -> Prop) :
  (forall w, P [] w (Ok tt) w) ->
  (forall m rest w w1,
      Step m w w1 false -> P (m :: rest) w Fatal w1) ->
  (forall m rest w w1 r w',
      Step m w w1 true -> (calm (outages w) -> calm (outages w1)) ->
      applyPendingMigrations run_sql rest w1 = (r, w') ->
      P rest w1 r w' -> P (m :: rest) w r w') ->
  forall ms w r w',
    applyPendingMigrations run_sql ms w = (r, w') -> P ms w r w'.
Proof.
  intros Hnil Hstop Hgo. induction ms as [|m rest IH]; intros w r w' H.
  - injection H as <- <-. apply Hnil.
  - apply applyPendingMigrations_cons in H.
    destruct H as (w1 & [|] & Hs & Hc & H).
    + eapply Hgo; eauto.
    + destruct H as [-> ->]. now apply Hstop.
Qed.

Lemma Step_same_files (m : migrationFile) (w w1 : World) (b : bool) :
  Step m w w1 b -> same_files w w1.
Proof. now destruct 1. Qed.

(** The calls and the log lines of one turn. *)
Lemma Step_extends (m : migrationFile) (w w1 : World) (b : bool) :
  Step m w w1 b ->
  (exists cs, calls w1 = calls w ++ cs) /\ (exists ls, log w1 = log w ++ ls).
Proof.
  destruct 1; split; eauto.
  exists []. now rewrite app_nil_r.
Qed.

Lemma applyPendingMigrations_extends (ms : list migrationFile) (w w' : World)
  (r : Result unit) :
  applyPendingMigrations run_sql ms w = (r, w') ->
  same_files w w'
  /\ calls w' = calls w ++ calls_since w w'
  /\ log w' = log w ++ log_since w w'.
Proof.
  intros H.
  enough (same_files w w' /\ (exists cs, calls w' = calls w ++ cs)
          /\ (exists ls, log w' = log w ++ ls)) as (Hf & (cs & Hc) & (ls & Hl)).
  { unfold calls_since, log_since. rewrite Hc, Hl.
    now rewrite !skipn_length_app. }
  revert ms w r w' H. apply applyPendingMigrations_ind.
  - intros w. split; [now split|]. split; exists []; now rewrite app_nil_r.
  - intros m rest w w1 Hs. split; [eapply Step_same_files; eauto|].
    eapply Step_extends; eauto.
  - intros m rest w w1 r w' Hs _ _ ((Hd & Hf) & (cs & Hc) & (ls & Hl)).
    destruct (Step_same_files _ _ _ _ Hs) as [Hd1 Hf1].
    destruct (Step_extends _ _ _ _ Hs) as [(cs1 & Hc1) (ls1 & Hl1)].
    split; [split; congruence|].
    split; [exists (cs1 ++ cs)|exists (ls1 ++ ls)];
      rewrite app_assoc; congruence.
Qed.

Lemma calls_since_step (w w1 w' : World) (cs : list Call)
  (ms : list migrationFile) (r : Result unit) :
  calls w1 = calls w ++ cs -> applyPendingMigrations run_sql ms w1 = (r, w') ->
  calls_since w w' = cs ++ calls_since w1 w'.
Proof.
  intros H1 H. apply applyPendingMigrations_extends in H.
  destruct H as (_ & H & _). unfold calls_since at 1.
  now rewrite H, H1, <- app_assoc, skipn_length_app.
Qed.

Lemma log_since_step (w w1 w' : World) (ls : list LogLine)
  (ms : list migrationFile) (r : Result unit) :
  log w1 = log w ++ ls -> applyPendingMigrations run_sql ms w1 = (r, w') ->
  log_since w w' = ls ++ log_since w1 w'.
Proof.
  intros H1 H. apply applyPendingMigrations_extends in H.
  destruct H as (_ & _ & H). unfold log_since at 1.
  now rewrite H, H1, <- app_assoc, skipn_length_app.
Qed.

Lemma calls_since_one (w w1 : World) (cs : list Call) :
  calls w1 = calls w ++ cs -> calls_since w w1 = cs.
Proof. intros H. unfold calls_since. now rewrite H, skipn_length_app. Qed.

Lemma log_since_one (w w1 : World) (ls : list LogLine) :
  log w1 = log w ++ ls -> log_since w w1 = ls.
Proof. intros H. unfold log_since. now rewrite H, skipn_length_app. Qed.

Lemma calls_since_refl (w : World) : calls_since w w = [].
Proof. apply calls_since_one. now rewrite app_nil_r. Qed.

Lemma log_since_refl (w : World) : log_since w w = [].
Proof. apply log_since_one. now rewrite app_nil_r. Qed.

(** A turn on a descriptor whose body spares the ledger table. *)
Lemma Step_sparing (m : migrationFile) (w w1 : World) (b : bool) :
  (forall q, files w (Path m) = Some q -> spares_ledger q) ->
  Step m w w1 b -> SparingStep m w w1 b.
Proof.
  intros Hsp Hs.
  destruct Hs as [Hf Hl1 Hs1 Hc Hg Hn
                 |l Hl Hv Hf Hl1 Hs1 Hc Hg
                 |l Hl Hv Hq Hf Hl1 Hs1 Hc Hg
                 |l q Hl Hv Hq Hf Hl1 Hs1 Hc Hg Hn
                 |l q l' s' Hl Hv Hq Hr Hf Hl1 Hs1 Hc Hg Hn
                 |l q rows s' t Hl Hv Hq Hr Hv' Hf Hl1 Hs1 Hc Hg].
  - now apply SparingCheckFailed.
  - now apply (SparingSkipped _ _ _ _ l).
  - now apply (SparingReadFailed _ _ _ _ l).
  - now apply (SparingExecuteFailed _ _ _ _ l q).
  - pose proof (Hsp q Hq _ _ _ _ Hr) as E.
    apply (SparingRecordFailed _ _ _ _ l q s'); try assumption.
    + now rewrite E in Hr.
    + congruence.
    + intros C. assert (El : l' = Some l) by congruence.
      specialize (Hn C l El). congruence.
  - pose proof (Hsp q Hq _ _ _ _ Hr) as E.
    assert (rows = l) by congruence. subst rows.
    apply (SparingApplied _ _ _ _ l q s' t); try assumption.
    rewrite Hr. now rewrite E.
Qed.

Lemma bodies_spare_ledger_tl (m : migrationFile) (rest : list migrationFile)
  (w w1 : World) :
  same_files w w1 -> bodies_spare_ledger (m :: rest) w ->
  bodies_spare_ledger rest w1.
Proof.
  intros [_ Hf] H m' q Hin Hq. rewrite Hf in Hq.
  apply (H m' q); [now right|assumption].
Qed.

(** Induction over the turns of a loop none of whose bodies changes the
    ledger table. *)
Lemma applyPendingMigrations_sparing_ind
  (P : list migrationFile -> World -> Result unit -> World -> Prop) :
  (forall w, P [] w (Ok tt) w) ->
  (forall m rest w w1,
      SparingStep m w w1 false -> P (m :: rest) w Fatal w1) ->
  (forall m rest w w1 r w',
      SparingStep m w w1 true -> (calm (outages w) -> calm (outages w1)) ->
      applyPendingMigrations run_sql rest w1 = (r, w') ->
      bodies_spare_ledger rest w1 ->
      P rest w1 r w' -> P (m :: rest) w r w') ->
  forall ms w r w',
    bodies_spare_ledger ms w ->
    applyPendingMigrations run_sql ms w = (r, w') -> P ms w r w'.
Proof.
  intros Hnil Hstop Hgo. induction ms as [|m rest IH]; intros w r w' Hsp H.
  - injection H as <- <-. apply Hnil.
  - apply applyPendingMigrations_cons in H.
    destruct H as (w1 & b & Hs & Hc & H).
    assert (Hs' : SparingStep m w w1 b).
    { apply Step_sparing; [|exact Hs]. intros q Hq.
      apply (Hsp m q); [now left|assumption]. }
    assert (Hsp1 : bodies_spare_ledger rest w1)
      by (eapply bodies_spare_ledger_tl; [eapply Step_same_files|]; eauto).
    destruct b.
    + eapply Hgo; eauto.
    + destruct H as [-> ->]. now apply Hstop.
Qed.

Ltac loop_induction :=
  match goal with
  | |- forall ms w r w', _ -> @?P ms w r w' =>
      apply (applyPendingMigrations_ind P); cbv beta
  end.

Ltac sparing_induction :=
  match goal with
  | |- forall ms w r w', _ -> _ -> @?P ms w r w' =>
      apply (applyPendingMigrations_sparing_ind P); cbv beta
  end.

(** Rewriting with the facts of a turn: the calls and lines since the
    world before it, and the ledger before it. *)
Ltac use_step :=
  repeat match goal with
  | H : calls ?w1 = calls ?w ++ _ |- context [calls_since ?w ?w1] =>
      rewrite (calls_since_one _ _ _ H)
  | H : log ?w1 = log ?w ++ _ |- context [log_since ?w ?w1] =>
      rewrite (log_since_one _ _ _ H)
  | H : log ?w1 = log ?w |- context [log_since ?w ?w1] =>
      unfold log_since; rewrite H, skipn_all; fold (log_since w w1)
  | H : ledger ?w = Some _ |- context [ledger ?w] => rewrite H
  end.

Ltac use_step_run Hrun :=
  repeat match goal with
  | H : calls ?w1 = calls ?w ++ _ |- context [calls_since ?w _] =>
      rewrite (calls_since_step _ _ _ _ _ _ H Hrun)
  | H : log ?w1 = log ?w ++ _ |- context [log_since ?w _] =>
      rewrite (log_since_step _ _ _ _ _ _ H Hrun)
  | H : ledger ?w = Some _ |- context [ledger ?w] => rewrite H
  end.

Lemma applyPendingMigrations_count (v : Z) (ms : list migrationFile)
  (w w' : World) (r : Result unit) :
  bodies_spare_ledger ms w ->
  applyPendingMigrations run_sql ms w = (r, w') ->
  (count (executes_version v) (calls_since w w') <= pending w v)%nat
  /\ (count (records_version v) (calls_since w w') <= pending w v)%nat.
Proof.
  revert ms w r w'. sparing_induction.
  - intros w. rewrite calls_since_refl. cbn. lia.
  - intros m rest w w1 Hs. unfold pending.
    inversion Hs; use_step; cbn;
      try (destruct (Version m =? v) eqn:E;
           [apply Z.eqb_eq in E; subst v;
            match goal with H : has_version _ _ = _ |- _ => rewrite H end|]);
      cbn; try lia;
      destruct (ledger w) as [l0|]; try destruct (has_version v l0); cbn; lia.
  - intros m rest w w1 r w' Hs _ Hrun _ [IH1 IH2]. unfold pending in *.
    inversion Hs; use_step_run Hrun; rewrite !count_app;
      match goal with H : ledger w1 = _ |- _ => rewrite H in IH1, IH2 end;
      try match goal with H : ledger w = _ |- _ => rewrite H in IH1, IH2 end;
      cbn.
    + destruct (has_version v l); lia.
    + rewrite has_version_app in IH1, IH2. cbn in IH1, IH2.
      destruct (Version m =? v) eqn:E.
      * apply Z.eqb_eq in E. subst v.
        match goal with H : has_version _ _ = _ |- _ => rewrite H in * end.
        cbn in *. lia.
      * rewrite orb_false_r in IH1, IH2. cbn. destruct (has_version v l); lia.
Qed.

(** How a run changes the ledger: it appends rows, each with a time, each
    of a version the ledger lacked, and each after the body of a descriptor
    of that version was executed with success. *)
Lemma applyPendingMigrations_ledger (ms : list migrationFile) (w w' : World)
  (r : Result unit) :
  bodies_spare_ledger ms w ->
  applyPendingMigrations run_sql ms w = (r, w') ->
  forall l, ledger w = Some l ->
  exists added,
    ledger w' = Some (l ++ added)
    /\ Forall (fun e =>
         applied_at e <> None
         /\ has_version (version e) l = false
         /\ exists m q, In m ms /\ Version m = version e
                        /\ In (CallExecute m q true) (calls_since w w')) added.
Proof.
  revert ms w r w'. sparing_induction.
  - intros w l Hl. exists []. rewrite app_nil_r. now split.
  - intros m rest w w1 Hs l Hl. exists []. rewrite app_nil_r.
    split; [|constructor]. inversion Hs; congruence.
  - intros m rest w w1 r w' Hs _ Hrun _ IH l Hl.
    inversion Hs as [|l0 Hl0 Hv Hf Hl1 Hs1 Hc Hg| | | |
                     l0 q s' t Hl0 Hv Hq Hr Hf Hl1 Hs1 Hc Hg];
      subst; rewrite Hl in Hl0; injection Hl0 as <-.
    + rewrite Hl in Hl1. destruct (IH l Hl1) as (added & Ha & Hall).
      exists added. split; [exact Ha|].
      rewrite (calls_since_step _ _ _ _ _ _ Hc Hrun).
      eapply Forall_impl; [|exact Hall]. cbv beta.
      intros e (H1 & H2 & m' & q & H3 & H4 & H5).
      repeat split; try assumption. exists m', q.
      split; [now right|]. split; [assumption|]. apply in_or_app. now right.
    + destruct (IH _ Hl1) as (added & Ha & Hall).
      exists (mkLedgerEntry (Version m) (Some t) :: added).
      split; [now rewrite Ha, <- app_assoc|].
      rewrite (calls_since_step _ _ _ _ _ _ Hc Hrun).
      constructor.
      * cbn [applied_at version]. split; [discriminate|]. split; [assumption|].
        exists m, q. split; [now left|]. split; [reflexivity|].
        apply in_or_app. left. right. now left.
      * eapply Forall_impl; [|exact Hall]. cbv beta.
        intros e (H1 & H2 & m' & q' & H3 & H4 & H5).
        rewrite has_version_app in H2. apply orb_false_elim in H2.
        repeat split; try tauto. exists m', q'.
        split; [now right|]. split; [assumption|]. apply in_or_app. now right.
Qed.

(** After a run that returned, the ledger has the version of every
    descriptor. *)
Lemma applyPendingMigrations_applied (ms : list migrationFile) (w w' : World) :
  bodies_spare_ledger ms w ->
  applyPendingMigrations run_sql ms w = (Ok tt, w') ->
  forall m, In m ms ->
  exists l', ledger w' = Some l' /\ has_version (Version m) l' = true.
Proof.
  intros Hsp H. remember (Ok tt) as r eqn:Er. revert Er.
  revert ms w r w' Hsp H. sparing_induction.
  - intros w _ m [].
  - discriminate.
  - intros m rest w w1 r w' Hs _ Hrun Hsp IH -> m' [<-|Hin]; [|now apply IH].
    assert (exists l1, ledger w1 = Some l1 /\ has_version (Version m) l1 = true)
      as (l1 & Hl1 & Hv1).
    { inversion Hs; subst.
      - eexists; split; [|eassumption]. congruence.
      - eexists; split; [eassumption|]. rewrite has_version_app. cbn.
        now rewrite Z.eqb_refl, orb_true_r. }
    destruct (applyPendingMigrations_ledger _ _ _ _ Hsp Hrun _ Hl1)
      as (added & Ha & _).
    exists (l1 ++ added). split; [assumption|].
    now rewrite has_version_app, Hv1.
Qed.

(** A run over pending descriptors of distinct versions that returned has
    appended their versions, in their order. *)
Lemma applyPendingMigrations_exact (ms : list migrationFile) (w w' : World) :
  bodies_spare_ledger ms w ->
  applyPendingMigrations run_sql ms w = (Ok tt, w') ->
  forall l, ledger w = Some l ->
  (forall m, In m ms -> has_version (Version m) l = false) ->
  NoDup (map Version ms) ->
  exists added,
    ledger w' = Some (l ++ added) /\ versions added = map Version ms.
Proof.
  intros Hsp H. remember (Ok tt) as r eqn:Er. revert Er.
  revert ms w r w' Hsp H. sparing_induction.
  - intros w _ l Hl _ _. exists []. now rewrite app_nil_r.
  - discriminate.
  - intros m rest w w1 r w' Hs _ Hrun _ IH -> l Hl Hpend Hnd.
    inversion Hnd as [|? ? Hnotin Hnd']; subst.
    inversion Hs as [|l0 Hl0 Hv| | | |l0 q s' t Hl0 Hv Hq Hr Hf Hl1 Hs1 Hc Hg];
      subst; rewrite Hl in Hl0; injection Hl0 as <-.
    + rewrite Hpend in Hv by now left. discriminate.
    + destruct (IH eq_refl _ Hl1) as (added & Ha & Hvs); [|assumption|].
      * intros m' Hin. rewrite has_version_app, Hpend by now right. cbn.
        rewrite orb_false_r. apply Z.eqb_neq. intros E. apply Hnotin.
        rewrite E. now apply in_map.
      * exists (mkLedgerEntry (Version m) (Some t) :: added).
        split; [now rewrite Ha, <- app_assoc|].
        unfold versions in *. cbn [map version]. now rewrite Hvs.
Qed.

(** A run over descriptors whose versions the ledger has only checks
    them. *)
Lemma applyPendingMigrations_all_applied (ms : list migrationFile)
  (w w' : World) (r : Result unit) :
  applyPendingMigrations run_sql ms w = (r, w') ->
  forall l, ledger w = Some l ->
  (forall m, In m ms -> has_version (Version m) l = true) ->
  ledger w' = Some l /\ schema w' = schema w
  /\ count is_execute (calls_since w w') = 0%nat
  /\ count is_record (calls_since w w') = 0%nat
  /\ (calm (outages w) ->
      r = Ok tt
      /\ calls_since w w' = map (fun m => CallCheck (Version m) (Some true)) ms
      /\ log_since w w'
         = map (fun m => LogAlreadyApplied (Version m) (Name m)) ms).
Proof.
  revert ms w r w'. loop_induction.
  - intros w l Hl _. rewrite calls_since_refl, log_since_refl. now repeat split.
  - intros m rest w w1 Hs l Hl Hall.
    specialize (Hall m (or_introl eq_refl)).
    inversion Hs; subst; use_step; try congruence.
    repeat split; try congruence; try reflexivity.
    all: match goal with H : calm _ -> _ = None, C : calm _ |- _ =>
           specialize (H C) end; congruence.
  - intros m rest w w1 r w' Hs Hcalm Hrun IH l Hl Hall.
    inversion Hs as [|l0 Hl0 Hv Hf Hl1 Hs1 Hc Hg| | | |l0 q rows s' t Hl0 Hv];
      subst; rewrite Hl in Hl0; injection Hl0 as <-.
    2:{ rewrite Hall in Hv by now left. discriminate. }
    rewrite Hl in Hl1. destruct (IH l Hl1) as (H1 & H2 & H3 & H4 & H5).
    { intros m' Hin. apply Hall. now right. }
    rewrite (calls_since_step _ _ _ _ _ _ Hc Hrun).
    rewrite (log_since_step _ _ _ _ _ _ Hg Hrun), !count_app.
    repeat split; try congruence; try (rewrite ?H3, ?H4; reflexivity).
    all: match goal with C : calm _ |- _ =>
           destruct (H5 (Hcalm C)) as (E1 & E2 & E3) end;
      try assumption; cbn; congruence.
Qed.

(** The loop over a list in two parts. *)
Lemma applyPendingMigrations_app (pre post : list migrationFile) (w : World) :
  applyPendingMigrations run_sql (pre ++ post) w =
  match applyPendingMigrations run_sql pre w with
  | (Ok _, w1) => applyPendingMigrations run_sql post w1
  | (Fatal, w1) => (Fatal, w1)
  end.
Proof.
  revert w. induction pre as [|m pre IH]; intros w; [reflexivity|].
  cbn [applyPendingMigrations app]. unfold bind.
  destruct (migrationAlreadyApplied (Version m) w) as [[[|]|] w1];
    [| |reflexivity].
  - destruct (Printf _ w1) as [[|] w2]; [apply IH|reflexivity].
  - destruct (applyMigration run_sql m w1) as [[|] w2]; [apply IH|reflexivity].
Qed.

(** [ensureMigrationsTable]: what it returns and the world it leaves. *)
Lemma ensureMigrationsTable_eq (w : World) :
  ensureMigrationsTable w =
  if hd false (outages w)
  then (Fatal,
        mkWorld (dirs w) (files w) (ledger w) (schema w) (now w + 1)
          (tl (outages w)) (calls w ++ [CallEnsure false])
          (log w ++ [LogEnsureFailed]))
  else (Ok tt,
        mkWorld (dirs w) (files w)
          (Some match ledger w with Some l => l | None => [] end)
          (schema w) (now w + 1) (tl (outages w))
          (calls w ++ [CallEnsure true]) (log w)).
Proof.
  unfold ensureMigrationsTable, bind, call, exec_create, serve.
  now destruct (hd false (outages w)).
Qed.

(** [RunMigrations], step by step. *)
Lemma RunMigrations_eq (w : World) :
  RunMigrations run_sql w =
  match ensureMigrationsTable w with
  | (Fatal, w1) => (Fatal, w1)
  | (Ok _, w1) =>
      match dirs w1 migrationsDir with
      | None => (Fatal, add_log LogReadDirFailed w1)
      | Some entries =>
          match applyPendingMigrations run_sql
                  (sort.Slice (descriptors migrationsDir entries) version_less)
                  (add_logs (flat_map diagnostics entries) w1) with
          | (Ok _, w3) => (Ok tt, add_log LogCompleted w3)
          | (Fatal, w3) => (Fatal, w3)
          end
      end
  end.
Proof.
  unfold RunMigrations, bind.
  destruct (ensureMigrationsTable w) as [[[]|] w1]; [|reflexivity].
  destruct (dirs w1 migrationsDir) as [entries|] eqn:Hd.
  - rewrite (loadMigrationFiles_eq _ _ _ Hd).
    now destruct (applyPendingMigrations run_sql _ _) as [[[]|] w3].
  - now rewrite (loadMigrationFiles_unreadable _ _ Hd).
Qed.

(** The condition on the bodies does not depend on the order of the
    descriptors, and looks at the files only. *)
Lemma bodies_spare_ledger_perm (ms ms' : list migrationFile) (w w' : World) :
  Permutation ms ms' -> files w' = files w ->
  bodies_spare_ledger ms w -> bodies_spare_ledger ms' w'.
Proof.
  intros HP Hf H m q Hin Hq. rewrite Hf in Hq.
  apply (H m q); [|assumption].
  now apply (Permutation_in _ (Permutation_sym HP)).
Qed.

Lemma bodies_spare_ledger_app (pre post : list migrationFile) (w : World) :
  bodies_spare_ledger (pre ++ post) w ->
  bodies_spare_ledger pre w /\ bodies_spare_ledger post w.
Proof.
  intros H. split; intros m q Hin Hq; apply (H m q); try assumption;
    apply in_or_app; [now left|now right].
Qed.

Lemma executed_versions_app (cs cs' : list Call) :
  executed_versions (cs ++ cs') = executed_versions cs ++ executed_versions cs'.
Proof. unfold executed_versions. apply flat_map_app. Qed.

(** The bodies a run of the loop over an ordered list executes, whatever
    they do to the ledger table: their versions are versions of the list,
    in strictly ascending order, and above any version that the ledger
    holds and that no descriptor of the list is below. *)
Lemma applyPendingMigrations_order (ms : list migrationFile) (w w' : World)
  (r : Result unit) :
  applyPendingMigrations run_sql ms w = (r, w') ->
  sort.Ordered version_less ms ->
  StronglySorted Z.lt (executed_versions (calls_since w w'))
  /\ Forall (fun v => In v (map Version ms))
       (executed_versions (calls_since w w'))
  /\ forall v0,
       (forall m, In m ms -> v0 <= Version m) ->
       (forall l, ledger w = Some l -> has_version v0 l = true) ->
       Forall (fun v => v0 < v) (executed_versions (calls_since w w')).
Proof.
  revert ms w r w'.
  apply (applyPendingMigrations_ind
           (fun ms w r w' =>
              sort.Ordered version_less ms ->
              StronglySorted Z.lt (executed_versions (calls_since w w'))
              /\ Forall (fun v => In v (map Version ms))
                   (executed_versions (calls_since w w'))
              /\ forall v0,
                   (forall m, In m ms -> v0 <= Version m) ->
                   (forall l, ledger w = Some l -> has_version v0 l = true) ->
                   Forall (fun v => v0 < v)
                     (executed_versions (calls_since w w')))).
  - intros w _. rewrite calls_since_refl. repeat split; constructor.
  - intros m rest w w1 Hs _.
    assert (Hlow : forall v0,
               (forall m', In m' (m :: rest) -> v0 <= Version m') ->
               (forall l, ledger w = Some l -> has_version v0 l = true) ->
               forall l, ledger w = Some l ->
               has_version (Version m) l = false -> v0 < Version m).
    { intros v0 Hge Hin l Hl Hv. specialize (Hge m (or_introl eq_refl)).
      specialize (Hin l Hl).
      destruct (Z.eq_dec v0 (Version m)) as [E|N]; [|lia]. congruence. }
    inversion Hs; subst;
      match goal with H : calls _ = calls _ ++ _ |- _ =>
        rewrite (calls_since_one _ _ _ H) end;
      cbn [executed_versions flat_map app];
      (split; [repeat constructor|]);
      (split; [repeat constructor; now left|]);
      intros v0 Hge Hin; repeat constructor; eapply Hlow; eauto.
  - intros m rest w w1 r w' Hs _ Hrun IH Hord.
    assert (Hrest : sort.Ordered version_less rest)
      by (inversion Hord; assumption).
    assert (Hm : forall m', In m' rest -> Version m <= Version m').
    { intros m' Hin. inversion Hord as [|? ? _ Hall]; subst.
      rewrite Forall_forall in Hall. specialize (Hall m' Hin).
      unfold version_less in Hall. now apply Z.ltb_ge in Hall. }
    destruct (IH Hrest) as (IH1 & IH2 & IH3).
    inversion Hs as [|l0 Hl0 Hv Hf Hl1 Hs1 Hc Hg| | | |
                     l0 q rows s' t Hl0 Hv Hq Hr Hv' Hf Hl1 Hs1 Hc Hg]; subst;
      rewrite (calls_since_step _ _ _ _ _ _ Hc Hrun),
        executed_versions_app; cbn [executed_versions flat_map app].
    + split; [exact IH1|]. split.
      * eapply Forall_impl; [|exact IH2]. cbv beta. intros v Hin. now right.
      * intros v0 Hge Hin. apply IH3.
        -- intros m' Hm'. apply Hge. now right.
        -- intros l Hl. apply Hin. congruence.
    + assert (Hlater : Forall (fun v => Version m < v)
                         (executed_versions (calls_since w1 w'))).
      { apply IH3; [exact Hm|]. intros l Hl.
        assert (l = rows ++ [mkLedgerEntry (Version m) (Some t)])
          by congruence.
        subst l. rewrite has_version_app. cbn.
        now rewrite Z.eqb_refl, orb_true_r. }
      split; [now constructor|]. split.
      * constructor; [now left|].
        eapply Forall_impl; [|exact IH2]. cbv beta. intros v Hin. now right.
      * intros v0 Hge Hin.
        assert (Hlt : v0 < Version m).
        { specialize (Hge m (or_introl eq_refl)). specialize (Hin l0 Hl0).
          destruct (Z.eq_dec v0 (Version m)) as [E|N]; [|lia]. congruence. }
        constructor; [exact Hlt|].
        eapply Forall_impl; [|exact Hlater]. cbv beta. intros v Hv0. lia.
Qed.

(** In calls whose executed bodies ascend strictly by version, at most one
    call executes a body of a given version. *)
Lemma count_executes_In (v : Z) (cs : list Call) :
  (0 < count (executes_version v) cs)%nat -> In v (executed_versions cs).
Proof.
  unfold count. induction cs as [|c cs IH]; cbn; [lia|].
  destruct c as [ok|v' r|m q ok|v' ok]; cbn; try exact IH.
  destruct (Z.eqb_spec (Version m) v) as [E|N]; cbn; [now left|].
  intros H. right. now apply IH.
Qed.

Lemma count_executes_sorted (v : Z) (cs : list Call) :
  StronglySorted Z.lt (executed_versions cs) ->
  (count (executes_version v) cs <= 1)%nat.
Proof.
  induction cs as [|c cs IH]; [cbn; lia|].
  destruct c as [ok|v' r|m q ok|v' ok];
    try (intros H; specialize (IH H); unfold count in *; cbn; exact IH).
  cbn [executed_versions flat_map app].
  fold (executed_versions cs). intros H.
  inversion H as [|? ? Hs Hall]; subst. specialize (IH Hs).
  unfold count in *. cbn.
  destruct (Z.eqb_spec (Version m) v) as [E|N]; cbn; [|exact IH].
  destruct (length (filter (executes_version v) cs)) eqn:Hn; [lia|].
  exfalso. assert (Hin : In v (executed_versions cs)).
  { apply count_executes_In. unfold count. lia. }
  rewrite Forall_forall in Hall. specialize (Hall v Hin). lia.
Qed.

(** A run of the loop inserts the row of a version no more often than it
    executes a body of that version. *)
Lemma applyPendingMigrations_records (v : Z) (ms : list migrationFile)
  (w w' : World) (r : Result unit) :
  applyPendingMigrations run_sql ms w = (r, w') ->
  (count (records_version v) (calls_since w w')
   <= count (executes_version v) (calls_since w w'))%nat.
Proof.
  revert ms w r w'. loop_induction.
  - intros w. rewrite calls_since_refl. cbn. lia.
  - intros m rest w w1 Hs.
    inversion Hs; use_step; unfold count; cbn;
      try lia; destruct (Version m =? v); cbn; lia.
  - intros m rest w w1 r w' Hs _ Hrun IH.
    inversion Hs; use_step_run Hrun; rewrite !count_app;
      unfold count in *; cbn; try lia; destruct (Version m =? v); cbn; lia.
Qed.

(** While the ledger holds version [v], the loop over descriptors of
    version [v] leaves the ledger as it is. *)
Lemma applyPendingMigrations_skips_version (v : Z) (ms : list migrationFile)
  (w w' : World) (r : Result unit) :
  applyPendingMigrations run_sql ms w = (r, w') ->
  (forall m, In m ms -> Version m = v) ->
  forall l, ledger w = Some l -> has_version v l = true -> ledger w' = Some l.
Proof.
  revert ms w r w'.
  apply (applyPendingMigrations_ind
           (fun ms w r w' =>
              (forall m, In m ms -> Version m = v) ->
              forall l, ledger w = Some l -> has_version v l = true ->
              ledger w' = Some l)).
  - intros w _ l Hl _. exact Hl.
  - intros m rest w w1 Hs Hall l Hl Hv.
    assert (E : Version m = v) by (apply Hall; now left).
    inversion Hs; subst; congruence.
  - intros m rest w w1 r w' Hs _ Hrun IH Hall l Hl Hv.
    assert (E : Version m = v) by (apply Hall; now left).
    apply IH; [intros m' Hm'; apply Hall; now right| |exact Hv].
    inversion Hs; subst; congruence.
Qed.

(** When the loop has come past a descriptor and the descriptors of the
    same version that follow it, the ledger holds that version. *)
Lemma applyPendingMigrations_same_version (m : migrationFile)
  (same : list migrationFile) (w w' : World) :
  applyPendingMigrations run_sql (m :: same) w = (Ok tt, w') ->
  (forall m', In m' same -> Version m' = Version m) ->
  exists l, ledger w' = Some l /\ has_version (Version m) l = true.
Proof.
  intros H Hall. apply applyPendingMigrations_cons in H.
  destruct H as (w1 & b & Hs & _ & H).
  destruct b; [|destruct H; discriminate].
  assert (exists l1, ledger w1 = Some l1
                     /\ has_version (Version m) l1 = true)
    as (l1 & Hl1 & Hv1).
  { inversion Hs; subst.
    - eexists. split; [|eassumption]. congruence.
    - eexists. split; [eassumption|]. rewrite has_version_app.
      unfold has_version at 2. cbn [existsb version].
      rewrite Z.eqb_refl. now rewrite orb_true_r. }
  exists l1. split; [|exact Hv1].
  exact (applyPendingMigrations_skips_version _ _ _ _ _ H Hall l1 Hl1 Hv1).
Qed.

(** In an ordered list, what stands between two descriptors of one
    version is of that version. *)
Lemma Ordered_between (before between : list migrationFile)
  (m m' : migrationFile) :
  sort.Ordered version_less (before ++ m :: between ++ [m']) ->
  Version m' = Version m ->
  forall x, In x between -> Version x = Version m.
Proof.
  unfold sort.Ordered. intros H E.
  induction before as [|b before IH]; cbn [app] in H.
  - inversion H as [|? ? Hs Hall]; subst. clear H.
    rewrite Forall_forall in Hall.
    induction between as [|y between IHb]; intros x Hx; [destruct Hx|].
    cbn [app] in Hs. inversion Hs as [|? ? Hs' Hall']; subst.
    destruct Hx as [<-|Hx].
    + rewrite Forall_forall in Hall'.
      assert (H1 : version_less y m = false)
        by (apply Hall; now left).
      assert (H2 : version_less m' y = false)
        by (apply Hall', in_or_app; right; now left).
      unfold version_less in H1, H2.
      apply Z.ltb_ge in H1, H2. lia.
    + apply IHb; [exact Hs'| |exact Hx].
      intros z Hz. apply Hall. now right.
  - inversion H; subst. now apply IH.
Qed.



(** A turn on a descriptor whose version the ledger has, the store
    answering: the descriptor is skipped. *)
Lemma turn_skips (m : migrationFile) (rest : list migrationFile) (w : World)
  (l : list LedgerEntry) :
  calm (outages w) -> ledger w = Some l ->
  has_version (Version m) l = true ->
  exists w1,
    applyPendingMigrations run_sql (m :: rest) w
    = applyPendingMigrations run_sql rest w1
    /\ same_files w w1 /\ calm (outages w1)
    /\ ledger w1 = Some l /\ schema w1 = schema w
    /\ calls w1 = calls w ++ [CallCheck (Version m) (Some true)]
    /\ log w1 = log w ++ [LogAlreadyApplied (Version m) (Name m)].
Proof.
  intros C Hl Hv.
  destruct (applyPendingMigrations run_sql (m :: rest) w) as [r w'] eqn:H.
  apply applyPendingMigrations_cons in H. destruct H as (w1 & b & Hs & Hc & H).
  inversion Hs; subst;
    try match goal with H : calm _ -> _ = None |- _ => specialize (H C) end;
    try congruence.
  exists w1. repeat split; try tauto; try congruence.
  all: match goal with H : same_files _ _ |- _ => destruct H; assumption end.
Qed.

End Applier.

(** * Properties of the engine *)

Section DiscoveryClaims.
Context {S : Type} {sorter : sort.Sorter}.
Local Abbreviation World := (@World S).

(** ** Discovery *)

(** What [loadMigrationFiles] returns on a readable directory: the
    descriptors of the entries, sorted, and the world with the diagnostics
    logged. *)
Lemma loadMigrationFiles_readable (dir : string) (entries : list os.FileInfo)
  (w : World) :
  dirs w dir = Some entries ->
  exists ms w',
    loadMigrationFiles dir w = (Ok ms, w')
    /\ Permutation (descriptors dir entries) ms
    /\ sort.Ordered version_less ms
    /\ ms = sort.Slice (descriptors dir entries) version_less
    /\ log_since w w' = flat_map diagnostics entries.
Proof.
  intros H. rewrite (loadMigrationFiles_eq _ _ _ H). eexists _, _.
  split; [reflexivity|]. split; [apply sort.Slice_perm|].
  split; [apply sort.Slice_ordered, version_less_strict_weak|].
  split; [reflexivity|]. unfold log_since, add_logs. cbn [log].
  apply skipn_length_app.
Qed.

(** C4: for well-formed file names with distinct versions, Discovery
    returns one descriptor per file, sorted strictly ascending by the
    version the name states, and the same sequence in whatever order the
    directory lists the files. *)
Theorem discovery_sorted_ascending (dir : string) (entries : list os.FileInfo)
  (w : World) :
  dirs w dir = Some entries ->
  Forall (fun f => well_formed f = true) entries ->
  NoDup (map named_version entries) ->
  exists ms w',
    loadMigrationFiles dir w = (Ok ms, w')
    /\ Ascending ms
    /\ Permutation (map Version ms) (map named_version entries)
    /\ Permutation (map Name ms) (map os.Name entries)
    /\ forall (entries' : list os.FileInfo) (w2 : World),
        Permutation entries entries' -> dirs w2 dir = Some entries' ->
        fst (loadMigrationFiles dir w2) = Ok ms.
Proof.
  intros Hd Hwf Hnd.
  assert (Hasc : forall es, Permutation entries es ->
            Ascending (sort.Slice (descriptors dir es) version_less)).
  { intros es HP. apply Ordered_NoDup_Ascending.
    - apply sort.Slice_ordered, version_less_strict_weak.
    - assert (Hwf' : Forall (fun f => well_formed f = true) es).
      { rewrite Forall_forall in *. intros f Hf. apply Hwf.
        now apply (Permutation_in _ (Permutation_sym HP)). }
      destruct (descriptors_well_formed dir es Hwf') as (Hv & _ & _).
      eapply Permutation_NoDup;
        [apply Permutation_map, sort.Slice_perm|].
      rewrite Hv. eapply Permutation_NoDup; [|exact Hnd].
      now apply Permutation_map. }
  destruct (descriptors_well_formed dir entries Hwf) as (Hv & Hn & _).
  rewrite (loadMigrationFiles_eq _ _ _ Hd). eexists _, _.
  split; [reflexivity|]. split; [now apply Hasc|].
  split; [rewrite <- Hv;
          apply Permutation_sym, Permutation_map, sort.Slice_perm|].
  split; [rewrite <- Hn;
          apply Permutation_sym, Permutation_map, sort.Slice_perm|].
  intros es w2 HP Hd2. rewrite (loadMigrationFiles_eq _ _ _ Hd2). cbn [fst].
  f_equal. apply Ascending_Permutation_eq; [now apply Hasc|now apply Hasc|].
  rewrite <- (sort.Slice_perm _ (descriptors dir es)).
  rewrite <- (sort.Slice_perm _ (descriptors dir entries)).
  now apply Permutation_sym, descriptors_perm.
Qed.

(** C5, amended: every descriptor produced by Discovery has as version the
    integer that [strconv.Atoi] reads in the text before the first
    separator of its file name; it fits Go's [int], and it is not negative
    unless the name starts with a minus sign.  A file whose text before the
    first separator [Atoi] rejects is skipped with a diagnostic. *)
Theorem discovery_versions_read_by_Atoi (dir : string) :
  (forall (entries : list os.FileInfo) (w : World),
      dirs w dir = Some entries ->
      exists ms w',
        loadMigrationFiles dir w = (Ok ms, w')
        /\ forall m, In m ms ->
           exists f,
             In f entries /\ Name m = os.Name f
             /\ strconv.Atoi (version_prefix (os.Name f)) = Some (Version m)
             /\ strconv.minInt <= Version m <= strconv.maxInt
             /\ (strings.HasPrefix (Name m) "-" = false -> 0 <= Version m))
  /\ (forall (f : os.FileInfo) (w : World),
         os.IsDir f = false ->
         strings.HasSuffix (os.Name f) ".sql" = true ->
         strconv.Atoi (version_prefix (os.Name f)) = None ->
         exists line,
           toMigrationFile dir f w = (Ok None, add_log line w)
           /\ (line = LogNoVersionPrefix (os.Name f)
               \/ line = LogInvalidVersionPrefix (os.Name f))).
Proof.
  split.
  - intros entries w Hd.
    destruct (loadMigrationFiles_readable dir entries w Hd)
      as (ms & w' & Hl & HP & _).
    exists ms, w'. split; [exact Hl|]. intros m Hm.
    destruct (loaded_descriptor_origin _ _ _ _ HP Hm)
      as (f & Hf & Hn & _ & _ & _ & Ha).
    exists f. split; [exact Hf|]. split; [exact Hn|]. split; [exact Ha|].
    apply Atoi_Some in Ha. destruct Ha as (_ & Hr & Hpos).
    split; [exact Hr|]. intros Hminus. apply Hpos.
    now rewrite HasPrefix_minus_version_prefix, <- Hn.
  - intros f w Hdir Hsuf Ha. rewrite toMigrationFile_eq.
    unfold descriptor, diagnostics, diagnostic, passed_over.
    rewrite Hdir, Hsuf, Ha. cbn [orb negb].
    destruct (has_byte separator (os.Name f)); cbn [negb option_map];
      eexists; (split; [reflexivity|tauto]).
Qed.

(** C6: Discovery leaves out every entry that is a directory or whose name
    does not end in [.sql], without a word, and every file name with no
    separator or with no decimal integer before the first separator, with a
    diagnostic; the scan of a readable directory always returns, every
    descriptor it returns comes from an entry of neither kind, and an entry
    of either kind changes nothing in what it returns. *)
Theorem discovery_excludes_without_failing (dir : string) :
  (forall (f : os.FileInfo) (w : World),
      os.IsDir f = true \/ strings.HasSuffix (os.Name f) ".sql" = false ->
      toMigrationFile dir f w = (Ok None, w))
  /\ (forall (f : os.FileInfo) (w : World),
         os.IsDir f = false ->
         strings.HasSuffix (os.Name f) ".sql" = true ->
         has_byte separator (os.Name f) = false
         \/ is_decimal (version_prefix (os.Name f)) = false ->
         exists line,
           toMigrationFile dir f w = (Ok None, add_log line w)
           /\ (line = LogNoVersionPrefix (os.Name f)
               \/ line = LogInvalidVersionPrefix (os.Name f)))
  /\ (forall (entries : list os.FileInfo) (w : World),
         dirs w dir = Some entries ->
         exists ms w',
           loadMigrationFiles dir w = (Ok ms, w')
           /\ forall m, In m ms ->
              exists f,
                In f entries /\ Name m = os.Name f
                /\ os.IsDir f = false
                /\ strings.HasSuffix (os.Name f) ".sql" = true
                /\ has_byte separator (os.Name f) = true
                /\ is_decimal (version_prefix (os.Name f)) = true)
  /\ (forall (before after : list os.FileInfo) (f : os.FileInfo) (w w0 : World),
         os.IsDir f = true \/ strings.HasSuffix (os.Name f) ".sql" = false
         \/ has_byte separator (os.Name f) = false
         \/ is_decimal (version_prefix (os.Name f)) = false ->
         dirs w dir = Some (before ++ f :: after) ->
         dirs w0 dir = Some (before ++ after) ->
         fst (loadMigrationFiles dir w) = fst (loadMigrationFiles dir w0)).
Proof.
  assert (Hout : forall f,
             os.IsDir f = true \/ strings.HasSuffix (os.Name f) ".sql" = false
             \/ has_byte separator (os.Name f) = false
             \/ is_decimal (version_prefix (os.Name f)) = false ->
             descriptor dir f = None).
  { intros f H. apply descriptor_filtered_out. unfold filtered_out, passed_over.
    destruct H as [->|[->|[->|H]]]; rewrite ?orb_true_r; try reflexivity.
    now rewrite (Atoi_not_decimal _ H), orb_true_r. }
  split; [|split; [|split]].
  - intros f w H. rewrite toMigrationFile_eq.
    rewrite Hout by tauto.
    unfold diagnostics, diagnostic, passed_over.
    replace (os.IsDir f || negb (strings.HasSuffix (os.Name f) ".sql"))
      with true
      by (destruct H as [-> | ->]; [reflexivity|now rewrite orb_true_r]).
    now rewrite add_logs_nil.
  - intros f w Hdir Hsuf H. rewrite toMigrationFile_eq.
    rewrite Hout by tauto.
    unfold diagnostics, diagnostic, passed_over. rewrite Hdir, Hsuf.
    cbn [orb negb].
    destruct (has_byte separator (os.Name f)) eqn:Hsep; cbn [negb].
    + destruct H as [H|H]; [discriminate|].
      rewrite (Atoi_not_decimal _ H). eexists. split; [reflexivity|tauto].
    + eexists. split; [reflexivity|tauto].
  - intros entries w Hd.
    destruct (loadMigrationFiles_readable dir entries w Hd)
      as (ms & w' & Hl & HP & _).
    exists ms, w'. split; [exact Hl|]. intros m Hm.
    destruct (loaded_descriptor_origin _ _ _ _ HP Hm)
      as (f & Hf & Hn & H1 & H2 & H3 & Ha).
    exists f. apply Atoi_Some in Ha. tauto.
  - intros before after f w w0 H Hd Hd0.
    rewrite (loadMigrationFiles_eq _ _ _ Hd), (loadMigrationFiles_eq _ _ _ Hd0).
    cbn [fst]. do 2 f_equal.
    rewrite !descriptors_app. f_equal.
    change (f :: after) with ([f] ++ after). rewrite descriptors_app.
    unfold descriptors at 1. cbn [flat_map]. now rewrite (Hout f H).
Qed.

(** C10: a file whose name ends in [.sql] and has no separator at all is
    left out with the diagnostic for a missing version prefix, also when
    the text before the suffix is a decimal numeral, as in [1.sql]; no
    descriptor of a scan has a name without a separator. *)
Theorem no_separator_no_descriptor (dir : string) :
  (forall (f : os.FileInfo) (w : World),
      os.IsDir f = false ->
      strings.HasSuffix (os.Name f) ".sql" = true ->
      has_byte separator (os.Name f) = false ->
      toMigrationFile dir f w
      = (Ok None, add_log (LogNoVersionPrefix (os.Name f)) w))
  /\ (forall (p : string) (w : World),
         is_numeral p = true ->
         toMigrationFile dir (os.mkFileInfo (p ++ ".sql") false) w
         = (Ok None, add_log (LogNoVersionPrefix (p ++ ".sql")) w))
  /\ (forall w : World,
         toMigrationFile dir (os.mkFileInfo "1.sql" false) w
         = (Ok None, add_log (LogNoVersionPrefix "1.sql") w))
  /\ (forall (entries : list os.FileInfo) (w : World),
         dirs w dir = Some entries ->
         exists ms w',
           loadMigrationFiles dir w = (Ok ms, w')
           /\ forall m, In m ms -> has_byte separator (Name m) = true).
Proof.
  assert (H1 : forall (f : os.FileInfo) (w : World),
             os.IsDir f = false ->
             strings.HasSuffix (os.Name f) ".sql" = true ->
             has_byte separator (os.Name f) = false ->
             toMigrationFile dir f w
             = (Ok None, add_log (LogNoVersionPrefix (os.Name f)) w)).
  { intros f w Hdir Hsuf Hsep. rewrite toMigrationFile_eq.
    unfold descriptor, diagnostics, diagnostic, passed_over.
    now rewrite Hdir, Hsuf, Hsep. }
  assert (H2 : forall (p : string) (w : World),
             is_numeral p = true ->
             toMigrationFile dir (os.mkFileInfo (p ++ ".sql") false) w
             = (Ok None, add_log (LogNoVersionPrefix (p ++ ".sql")) w)).
  { intros p w Hp. apply (H1 (os.mkFileInfo (p ++ ".sql") false)).
    - reflexivity.
    - apply HasSuffix_append.
    - cbn [os.Name]. rewrite has_byte_append.
      unfold is_numeral in Hp. apply andb_prop in Hp. destruct Hp as [_ Hp].
      now rewrite (all_digits_no_separator _ Hp). }
  split; [exact H1|]. split; [exact H2|].
  split; [intros w; now apply (H2 "1"%string)|].
  intros entries w Hd.
  destruct (loadMigrationFiles_readable dir entries w Hd)
    as (ms & w' & Hl & HP & _).
  exists ms, w'. split; [exact Hl|]. intros m Hm.
  destruct (loaded_descriptor_origin _ _ _ _ HP Hm)
    as (f & _ & Hn & _ & _ & H3 & _).
  now rewrite Hn.
Qed.

End DiscoveryClaims.

(** ** The Applier *)

Section ApplierClaims.
Context {S : Type}
  (run_sql : string -> option (list LedgerEntry) * S ->
             option (option (list LedgerEntry) * S))
  {sorter : sort.Sorter}.
Local Abbreviation World := (@World S).
Local Abbreviation bodies_spare_ledger := (bodies_spare_ledger run_sql).
Local Abbreviation migrations_spare_ledger := (migrations_spare_ledger run_sql).

(** The condition on the bodies of the directory, for the loop of a run:
    the descriptors as sorted, in the world the loop starts in. *)
Lemma migrations_spare_ledger_loop (w wb : World)
  (entries : list os.FileInfo) :
  migrations_spare_ledger w -> dirs w migrationsDir = Some entries ->
  files wb = files w ->
  bodies_spare_ledger
    (sort.Slice (descriptors migrationsDir entries) version_less) wb.
Proof.
  intros H Hd Hf.
  apply (bodies_spare_ledger_perm run_sql
           (descriptors migrationsDir entries) _ w wb);
    [apply sort.Slice_perm|exact Hf|now apply H].
Qed.

(** C8: when the migrations directory is readable and every entry of it is
    filtered out (none at all, for an empty directory), Discovery returns
    no descriptor and the run completes, having made one call on the
    store, the creation of the ledger table if it does not exist. *)
Theorem run_with_nothing_to_apply (w : World) (entries : list os.FileInfo) :
  dirs w migrationsDir = Some entries ->
  Forall (fun f => filtered_out f = true) entries ->
  hd false (outages w) = false ->
  exists w',
    RunMigrations run_sql w = (Ok tt, w')
    /\ (exists w1, loadMigrationFiles migrationsDir w = (Ok [], w1))
    /\ calls_since w w' = [CallEnsure true]
    /\ schema w' = schema w
    /\ ledger w' = Some match ledger w with Some l => l | None => [] end.
Proof.
  intros Hd Hout Hup.
  assert (Hnone : sort.Slice (descriptors migrationsDir entries) version_less
                  = []).
  { rewrite (descriptors_filtered_out _ _ Hout).
    apply Permutation_nil, sort.Slice_perm. }
  rewrite RunMigrations_eq, ensureMigrationsTable_eq, Hup. cbn [dirs].
  rewrite Hd, Hnone. cbn [applyPendingMigrations]. unfold ret.
  eexists. split; [reflexivity|].
  split; [rewrite (loadMigrationFiles_eq _ _ _ Hd), Hnone; now eexists|].
  unfold calls_since, add_log, add_logs. cbn [calls schema ledger].
  now rewrite skipn_length_app.
Qed.

(** C1: when no body of a migration file of the directory changes the
    ledger table, then after a run that completed, a second run on the
    same store and directory executes no migration body and inserts no
    ledger row, and leaves the ledger and the rest of the database as they
    are; when the store answers every call, the second run completes, and
    the calls it makes after creating the table are one check per
    discovered descriptor, each answered true, each followed by the skip
    line in the log. *)
Theorem second_run_applies_nothing (w w1 : World) (fate : list bool) :
  migrations_spare_ledger w ->
  RunMigrations run_sql w = (Ok tt, w1) ->
  let r2 := fst (RunMigrations run_sql (restart fate w1)) in
  let w2 := snd (RunMigrations run_sql (restart fate w1)) in
  count is_execute (calls w2) = 0%nat
  /\ count is_record (calls w2) = 0%nat
  /\ ledger w2 = ledger w1
  /\ schema w2 = schema w1
  /\ (calm fate ->
      exists ms w1',
        loadMigrationFiles migrationsDir w1 = (Ok ms, w1')
        /\ r2 = Ok tt
        /\ calls w2
           = CallEnsure true
             :: map (fun m => CallCheck (Version m) (Some true)) ms
        /\ log w2
           = log_since w1 w1'
             ++ map (fun m => LogAlreadyApplied (Version m) (Name m)) ms
             ++ [LogCompleted]).
Proof.
  intros Hsp Hrun.
  (* the first run: its table, its directory and its descriptors *)
  rewrite RunMigrations_eq, ensureMigrationsTable_eq in Hrun.
  destruct (hd false (outages w)); [discriminate|]. cbn [dirs] in Hrun.
  destruct (dirs w migrationsDir) as [entries|] eqn:Hd; [|discriminate].
  set (ms := sort.Slice (descriptors migrationsDir entries) version_less) in *.
  match type of Hrun with
  | context [applyPendingMigrations run_sql ms ?w0] => set (wa := w0) in *
  end.
  assert (Hspa : bodies_spare_ledger ms wa)
    by (now apply (migrations_spare_ledger_loop w wa entries)).
  destruct (applyPendingMigrations run_sql ms wa) as [[[]|] w3] eqn:Happly;
    [|discriminate].
  injection Hrun as Hw1.
  pose proof (applyPendingMigrations_applied _ _ _ _ Hspa Happly) as Hall.
  pose proof (applyPendingMigrations_extends _ _ _ _ _ Happly)
    as ((Hd3 & _) & _).
  cbn [dirs add_logs wa] in Hd3.
  destruct (applyPendingMigrations_ledger _ _ _ _ _ Hspa Happly _ eq_refl)
    as (added & Hl3 & _).
  set (l3 := match ledger w with Some l => l | None => [] end ++ added) in *.
  assert (Hall3 : forall m, In m ms -> has_version (Version m) l3 = true).
  { intros m Hm. destruct (Hall m Hm) as (l' & Hl' & Hv). congruence. }
  assert (Hd1 : dirs w1 migrationsDir = Some entries)
    by (rewrite <- Hw1; cbn [dirs add_log]; now rewrite Hd3).
  assert (Hl1 : ledger w1 = Some l3) by (now rewrite <- Hw1).
  clear Hw1 Happly Hall Hd3 Hl3 Hd Hspa.
  (* the second run *)
  cbv zeta. rewrite RunMigrations_eq, ensureMigrationsTable_eq.
  unfold restart. cbn [outages dirs files ledger schema now calls log].
  destruct (hd false fate) eqn:Hup.
  { cbn [fst snd calls ledger schema]. repeat split; try reflexivity.
    intros C. apply calm_hd in C. congruence. }
  cbn [dirs]. rewrite Hd1. fold ms. rewrite Hl1.
  match goal with |- context [applyPendingMigrations run_sql ms ?w0] =>
    set (wb := w0) end.
  destruct (applyPendingMigrations run_sql ms wb) as [r4 w4] eqn:Happly2.
  destruct (applyPendingMigrations_all_applied _ _ _ _ _ Happly2 l3 eq_refl
              Hall3)
    as (Hl4 & Hs4 & Hx4 & Hr4 & Hcalm4).
  pose proof (applyPendingMigrations_extends _ _ _ _ _ Happly2)
    as (_ & Hc4 & Hg4).
  cbn [calls log add_logs wb] in Hc4, Hg4. cbn [schema add_logs wb] in Hs4.
  split; [|split; [|split; [|split]]].
  - destruct r4 as [[]|]; cbn [snd calls add_log]; rewrite Hc4, count_app, Hx4;
      reflexivity.
  - destruct r4 as [[]|]; cbn [snd calls add_log]; rewrite Hc4, count_app, Hr4;
      reflexivity.
  - destruct r4 as [[]|]; cbn [snd ledger add_log]; congruence.
  - destruct r4 as [[]|]; cbn [snd schema add_log]; congruence.
  - intros C. destruct (Hcalm4 (calm_tl _ C)) as (-> & Ec & Eg).
    rewrite (loadMigrationFiles_eq _ _ _ Hd1). eexists _, _.
    split; [reflexivity|]. cbn [fst snd calls log add_log].
    split; [reflexivity|].
    rewrite Hc4, Hg4, Ec, Eg. split; [reflexivity|].
    unfold log_since, add_logs. cbn [log].
    now rewrite skipn_length_app, <- app_assoc.
Qed.


(** C3: when no body of the descriptors changes the ledger table, a run
    over descriptors of distinct versions that completes on an empty ledger
    leaves exactly their versions in the ledger (versions 1, 2 and 3 for
    descriptors 1, 2 and 3), every row with a time.  Under the same
    condition, whatever the run and however it ends, the ledger after it
    is the ledger before it with rows appended, each row with a time and
    each only after the body of a descriptor of its version was executed
    with success; for a version the ledger already has, no body is
    executed and no row inserted.  Whatever the bodies do, the statements
    of the engine itself read the ledger or append to it: creating the
    table leaves an existing ledger as it is, the check of a version
    leaves the ledger as it is, and applying a migration leaves the ledger
    either as it was, or as the body of the migration left it, or as the
    body left it with one row of the migration's version appended. *)
Theorem ledger_grows_by_applied_versions :
  (forall (ms : list migrationFile) (w w' : World),
      bodies_spare_ledger ms w ->
      ledger w = Some [] -> NoDup (map Version ms) ->
      applyPendingMigrations run_sql ms w = (Ok tt, w') ->
      exists rows,
        ledger w' = Some rows
        /\ versions rows = map Version ms
        /\ Forall (fun e => applied_at e <> None) rows)
  /\ (forall (ms : list migrationFile) (w w' : World) (r : Result unit)
             (l : list LedgerEntry),
         bodies_spare_ledger ms w ->
         ledger w = Some l ->
         applyPendingMigrations run_sql ms w = (r, w') ->
         exists added,
           ledger w' = Some (l ++ added)
           /\ Forall (fun e =>
                applied_at e <> None
                /\ exists m q,
                     In m ms /\ Version m = version e
                     /\ In (CallExecute m q true) (calls_since w w')) added)
  /\ (forall (ms : list migrationFile) (w w' : World) (r : Result unit)
             (l : list LedgerEntry) (v : Z),
         bodies_spare_ledger ms w ->
         ledger w = Some l -> has_version v l = true ->
         applyPendingMigrations run_sql ms w = (r, w') ->
         count (executes_version v) (calls_since w w') = 0%nat
         /\ count (records_version v) (calls_since w w') = 0%nat)
  /\ (forall (w : World) (l : list LedgerEntry),
         ledger w = Some l ->
         ledger (snd (ensureMigrationsTable w)) = Some l)
  /\ (forall (w w' : World) (r : Result unit) (l : list LedgerEntry),
         migrations_spare_ledger w ->
         ledger w = Some l ->
         RunMigrations run_sql w = (r, w') ->
         exists added, ledger w' = Some (l ++ added))
  /\ (forall (v : Z) (w : World),
         ledger (snd (migrationAlreadyApplied v w)) = ledger w)
  /\ (forall (m : migrationFile) (w : World),
         let w1 := snd (applyMigration run_sql m w) in
         ledger w1 = ledger w
         \/ exists q l' s',
              files w (Path m) = Some q
              /\ run_sql q (ledger w, schema w) = Some (l', s')
              /\ (ledger w1 = l'
                  \/ exists rows t,
                       l' = Some rows
                       /\ has_version (Version m) rows = false
                       /\ ledger w1
                          = Some (rows
                                  ++ [mkLedgerEntry (Version m) (Some t)]))).
Proof.
  split; [|split; [|split; [|split; [|split; [|split]]]]].
  - intros ms w w' Hsp Hl Hnd Hrun.
    destruct (applyPendingMigrations_exact _ _ _ _ Hsp Hrun [] Hl)
      as (rows & Hr & Hv); [reflexivity|assumption|].
    destruct (applyPendingMigrations_ledger _ _ _ _ _ Hsp Hrun [] Hl)
      as (added & Ha & Hall).
    exists rows. split; [exact Hr|]. split; [exact Hv|].
    replace rows with added by (cbn [app] in Hr, Ha; congruence).
    eapply Forall_impl; [|exact Hall]. cbv beta. tauto.
  - intros ms w w' r l Hsp Hl Hrun.
    destruct (applyPendingMigrations_ledger _ _ _ _ _ Hsp Hrun l Hl)
      as (added & Ha & Hall).
    exists added. split; [exact Ha|].
    eapply Forall_impl; [|exact Hall]. cbv beta. tauto.
  - intros ms w w' r l v Hsp Hl Hv Hrun.
    destruct (applyPendingMigrations_count _ v _ _ _ _ Hsp Hrun) as [H1 H2].
    unfold pending in *. rewrite Hl, Hv in *. lia.
  - intros w l Hl. rewrite ensureMigrationsTable_eq.
    destruct (hd false (outages w)); cbn [snd ledger]; now rewrite ?Hl.
  - intros w w' r l Hsp Hl. rewrite RunMigrations_eq, ensureMigrationsTable_eq.
    destruct (hd false (outages w)).
    { intros [= <- <-]. exists []. cbn [ledger]. now rewrite app_nil_r. }
    cbn [dirs]. rewrite Hl.
    destruct (dirs w migrationsDir) as [entries|] eqn:Hd.
    2:{ intros [= <- <-]. exists []. cbn [ledger add_log].
        now rewrite app_nil_r. }
    match goal with
    | |- context [applyPendingMigrations run_sql ?l0 ?w0] =>
        set (ms := l0); set (wa := w0)
    end.
    assert (Hspa : bodies_spare_ledger ms wa)
      by (now apply (migrations_spare_ledger_loop w wa entries)).
    destruct (applyPendingMigrations run_sql ms wa) as [r3 w3] eqn:Hrun.
    destruct (applyPendingMigrations_ledger _ _ _ _ _ Hspa Hrun l eq_refl)
      as (added & Ha & _).
    destruct r3 as [[]|]; intros [= <- <-]; exists added; exact Ha.
  - intros v w.
    unfold migrationAlreadyApplied, bind, call, query_exists, serve, Fatalf,
      ret, add_call, add_log.
    cbn [dirs files ledger schema now outages calls log].
    now destruct (if negb (hd false (outages w))
                  then option_map (has_version v) (ledger w) else None).
  - intros m w.
    unfold applyMigration, bind, ReadFile, call, exec_body, exec_insert,
      serve, Fatalf, ret, add_call, add_log, set_schema, set_ledger.
    destruct (files w (Path m)) as [q|] eqn:Hq; [|now left].
    cbn [dirs files ledger schema now outages calls log].
    destruct (negb (hd false (outages w))); [|now left].
    destruct (run_sql q (ledger w, schema w)) as [[l' s']|] eqn:Hr;
      [|now left].
    cbn [dirs files ledger schema now outages calls log].
    right. exists q, l', s'. split; [reflexivity|]. split; [exact Hr|].
    destruct (negb (hd false (tl (outages w)))); [|now left].
    destruct l' as [rows|]; [|now left].
    destruct (has_version (Version m) rows) eqn:Hv; [now left|].
    right. cbn [snd ledger]. now exists rows, (now w + 1 + 1).
Qed.


(** C9: Discovery keeps the descriptor of every file that parses, also of
    files that parse to one version.  In one run, whatever the bodies do,
    at most one call executes the body of a file of a given version and at
    most one call inserts the row of that version.  The same holds of the
    loop over any list of descriptors that is ordered by version, and over
    any list none of whose bodies changes the ledger table; and in such a
    list, once a descriptor of a version has been applied and recorded, a
    later descriptor of the same version is checked, found applied and
    skipped. *)
Theorem one_application_per_version :
  (forall (dir : string) (entries : list os.FileInfo) (w : World),
      dirs w dir = Some entries ->
      exists ms w',
        loadMigrationFiles dir w = (Ok ms, w')
        /\ Permutation (descriptors dir entries) ms
        /\ forall f m (w0 : World),
            In f entries -> fst (toMigrationFile dir f w0) = Ok (Some m) ->
            In m ms)
  /\ (forall (w : World) (v : Z),
         (count (executes_version v)
            (calls_since w (snd (RunMigrations run_sql w))) <= 1)%nat
         /\ (count (records_version v)
               (calls_since w (snd (RunMigrations run_sql w))) <= 1)%nat)
  /\ (forall (ms : list migrationFile) (w : World) (v : Z),
         bodies_spare_ledger ms w \/ sort.Ordered version_less ms ->
         (count (executes_version v)
            (calls_since w (snd (applyPendingMigrations run_sql ms w)))
          <= 1)%nat
         /\ (count (records_version v)
               (calls_since w (snd (applyPendingMigrations run_sql ms w)))
             <= 1)%nat)
  /\ (forall (before between after : list migrationFile)
             (m m' : migrationFile) (w w1 : World),
         bodies_spare_ledger (before ++ m :: between) w
         \/ sort.Ordered version_less (before ++ m :: between ++ [m']) ->
         Version m' = Version m ->
         applyPendingMigrations run_sql (before ++ m :: between) w
         = (Ok tt, w1) ->
         calm (outages w1) ->
         exists w2,
           migrationAlreadyApplied (Version m') w1
           = (Ok true,
              add_call (CallCheck (Version m') (Some true)) (snd (serve w1)))
           /\ applyPendingMigrations run_sql
                (before ++ m :: between ++ m' :: after) w
              = applyPendingMigrations run_sql after w2
           /\ calls w2 = calls w1 ++ [CallCheck (Version m') (Some true)]
           /\ log w2 = log w1 ++ [LogAlreadyApplied (Version m') (Name m')]
           /\ ledger w2 = ledger w1 /\ schema w2 = schema w1).
Proof.
  assert (Hpending : forall (w : World) v, (pending w v <= 1)%nat).
  { intros w v. unfold pending. destruct (ledger w) as [l|]; [|lia].
    destruct (has_version v l); lia. }
  split; [|split; [|split]].
  - intros dir entries w Hd.
    destruct (loadMigrationFiles_readable dir entries w Hd)
      as (ms & w' & Hl & HP & _).
    exists ms, w'. split; [exact Hl|]. split; [exact HP|].
    intros f m w0 Hf Hm. rewrite toMigrationFile_eq in Hm. cbn [fst] in Hm.
    apply (Permutation_in _ HP), in_descriptors. exists f.
    split; [exact Hf|congruence].
  - intros w v. rewrite RunMigrations_eq, ensureMigrationsTable_eq.
    destruct (hd false (outages w)).
    { unfold calls_since. cbn [snd calls]. rewrite skipn_length_app.
      cbn. lia. }
    cbn [dirs]. destruct (dirs w migrationsDir) as [entries|].
    2:{ unfold calls_since. cbn [snd calls add_log]. rewrite skipn_length_app.
        cbn. lia. }
    match goal with |- context [applyPendingMigrations run_sql ?l ?w0] =>
      set (ms := l); set (wb := w0) end.
    destruct (applyPendingMigrations run_sql ms wb) as [r3 w3] eqn:Hrun.
    destruct (applyPendingMigrations_order _ _ _ _ _ Hrun) as (Hsorted & _).
    { apply sort.Slice_ordered, version_less_strict_weak. }
    pose proof (count_executes_sorted v _ Hsorted) as H1.
    pose proof (applyPendingMigrations_records _ v _ _ _ _ Hrun) as H2.
    apply applyPendingMigrations_extends in Hrun. destruct Hrun as (_ & Hc & _).
    cbn [wb add_logs calls] in Hc.
    assert (Hsince :
              calls_since w (snd (match r3 with
                                  | Ok _ => (Ok tt, add_log LogCompleted w3)
                                  | Fatal => (Fatal, w3)
                                  end))
              = [CallEnsure true] ++ calls_since wb w3).
    { unfold calls_since at 1.
      destruct r3 as [[]|]; cbn [snd calls add_log];
        now rewrite Hc, <- app_assoc, skipn_length_app. }
    rewrite Hsince, !count_app.
    change (count (executes_version v) [CallEnsure true]) with 0%nat.
    change (count (records_version v) [CallEnsure true]) with 0%nat.
    lia.
  - intros ms w v Hms.
    destruct (applyPendingMigrations run_sql ms w) as [r w'] eqn:Hrun.
    cbn [snd]. destruct Hms as [Hsp|Hord].
    + destruct (applyPendingMigrations_count _ v _ _ _ _ Hsp Hrun) as [H1 H2].
      specialize (Hpending w v). lia.
    + destruct (applyPendingMigrations_order _ _ _ _ _ Hrun Hord)
        as (Hsorted & _).
      pose proof (count_executes_sorted v _ Hsorted) as H1.
      pose proof (applyPendingMigrations_records _ v _ _ _ _ Hrun) as H2.
      lia.
  - intros before between after m m' w w1 Hms Hv Hrun C.
    assert (exists l1, ledger w1 = Some l1
                       /\ has_version (Version m) l1 = true)
      as (l1 & Hl1 & Hv1).
    { destruct Hms as [Hsp|Hord].
      - apply (applyPendingMigrations_applied _ _ _ _ Hsp Hrun m).
        apply in_or_app. right. now left.
      - rewrite applyPendingMigrations_app in Hrun.
        destruct (applyPendingMigrations run_sql before w) as [[[]|] w0];
          [|discriminate].
        apply (applyPendingMigrations_same_version _ _ _ _ _ Hrun).
        exact (Ordered_between _ _ _ _ Hord Hv). }
    rewrite <- Hv in Hv1.
    destruct (turn_skips run_sql m' after w1 l1 C Hl1 Hv1)
      as (w2 & E & _ & _ & Hl2 & Hs2 & Hc2 & Hg2).
    exists w2. split.
    { unfold migrationAlreadyApplied, bind, call, query_exists, serve.
      cbn [outages ledger fst snd]. rewrite (calm_hd _ C), Hl1.
      cbn [negb option_map]. now rewrite Hv1. }
    split; [|repeat split; congruence].
    replace (before ++ m :: between ++ m' :: after)
      with ((before ++ m :: between) ++ m' :: after)
      by (now rewrite <- app_assoc).
    now rewrite applyPendingMigrations_app, Hrun.
Qed.

End ApplierClaims.

(** * The properties at work on the sample store *)

(** On the sample store, a body that is not the statement that removes
    rows of the ledger table leaves the table as it is. *)
Lemma sample_sql_spares_ledger (q : string) :
  strings.HasPrefix q delete_row = false -> spares_ledger sample_sql q.
Proof.
  intros H l l' s s' E. unfold sample_sql in E. rewrite H in E.
  cbn [fst snd] in E. destruct (String.prefix "BAD" q); congruence.
Qed.

Lemma sample_bodies_no_delete (path q : string) :
  sample_bodies path = Some q -> strings.HasPrefix q delete_row = false.
Proof.
  intros [= <-]. unfold strings.HasPrefix. apply andb_false_iff. right.
  reflexivity.
Qed.

(** No body of the sample directory changes the ledger table. *)
Lemma sample_bodies_spare_ledger (ms : list migrationFile)
  (entries : list os.FileInfo) (table : option (list LedgerEntry))
  (fate : list bool) :
  bodies_spare_ledger sample_sql ms
    (sample_world entries sample_bodies table fate).
Proof.
  intros m q _ Hq. apply sample_sql_spares_ledger.
  exact (sample_bodies_no_delete _ _ Hq).
Qed.

Lemma sample_migrations_spare_ledger (entries : list os.FileInfo)
  (table : option (list LedgerEntry)) (fate : list bool) :
  migrations_spare_ledger sample_sql
    (sample_world entries sample_bodies table fate).
Proof. intros es _. apply sample_bodies_spare_ledger. Qed.

(** The directory lists [3_items.sql], [1_users.sql], [2_orders.sql]; the
    run applies them as 1, 2, 3. *)
Example sample_run :
  fst (RunMigrations sample_sql sample_start) = Ok tt
  /\ option_map versions (ledger (snd (RunMigrations sample_sql sample_start)))
     = Some [1; 2; 3]
  /\ schema (snd (RunMigrations sample_sql sample_start))
     = ["CREATE database/migrations/1_users.sql";
        "CREATE database/migrations/2_orders.sql";
        "CREATE database/migrations/3_items.sql"]%string
  /\ log (snd (RunMigrations sample_sql sample_start)) = [LogCompleted].
Proof. vm_compute. repeat split. Qed.

(** The example of the specification: [001_create_users.sql] and
    [002_add_email_index.sql] on an empty ledger leave rows for versions 1
    and 2. *)
Example specification_scenario :
  option_map versions
    (ledger (snd (RunMigrations sample_sql
                    (sample_world
                       [sample_file "001_create_users.sql";
                        sample_file "002_add_email_index.sql"]
                       sample_bodies (Some []) []))))
  = Some [1; 2].
Proof. vm_compute. reflexivity. Qed.

(** With a body of [2_orders.sql] that the store rejects, the run applies
    1, fails on 2 and never comes to 3. *)
Example sample_run_fails_fast :
  fst (RunMigrations sample_sql
         (sample_world sample_entries sample_bodies_bad None []))
  = Fatal
  /\ option_map versions
       (ledger (snd (RunMigrations sample_sql
                       (sample_world sample_entries sample_bodies_bad None []))))
     = Some [1]
  /\ calls (snd (RunMigrations sample_sql
                   (sample_world sample_entries sample_bodies_bad None [])))
     = [CallEnsure true;
        CallCheck 1 (Some false);
        CallExecute (sample_descriptor 1 "1_users.sql")
          "CREATE database/migrations/1_users.sql" true;
        CallRecord 1 true;
        CallCheck 2 (Some false);
        CallExecute (sample_descriptor 2 "2_orders.sql") "BAD SQL" false]
  /\ log (snd (RunMigrations sample_sql
                 (sample_world sample_entries sample_bodies_bad None [])))
     = [LogExecuteFailed "2_orders.sql"].
Proof. vm_compute. repeat split. Qed.

(** Two files of version 1: both are discovered, one is applied, the
    other skipped. *)
Example sample_run_with_two_files_of_one_version :
  calls (snd (RunMigrations sample_sql
                (sample_world
                   [sample_file "1_users.sql"; sample_file "01_people.sql"]
                   sample_bodies None [])))
  = [CallEnsure true;
     CallCheck 1 (Some false);
     CallExecute (sample_descriptor 1 "1_users.sql")
       "CREATE database/migrations/1_users.sql" true;
     CallRecord 1 true;
     CallCheck 1 (Some true)]
  /\ log (snd (RunMigrations sample_sql
                 (sample_world
                    [sample_file "1_users.sql"; sample_file "01_people.sql"]
                    sample_bodies None [])))
     = [LogAlreadyApplied 1 "01_people.sql"; LogCompleted].
Proof. vm_compute. repeat split. Qed.

(** The store does not answer the insert of version 1: the first run exits
    with the body of 1 executed and no row; the second run executes the
    same body again. *)
Example sample_run_repeats_an_unrecorded_body :
  fst (RunMigrations sample_sql
         (sample_world sample_entries sample_bodies None
            [false; false; false; true]))
  = Fatal
  /\ schema (snd (RunMigrations sample_sql
                    (restart []
                       (snd (RunMigrations sample_sql
                               (sample_world sample_entries sample_bodies None
                                  [false; false; false; true]))))))
     = ["CREATE database/migrations/1_users.sql";
        "CREATE database/migrations/1_users.sql";
        "CREATE database/migrations/2_orders.sql";
        "CREATE database/migrations/3_items.sql"]%string.
Proof. vm_compute. repeat split. Qed.

(** A second run on the sample directory executes and inserts nothing. *)
Lemma second_run_applies_nothing_witness :
  count is_execute
    (calls (snd (RunMigrations sample_sql
                   (restart [] (snd (RunMigrations sample_sql sample_start))))))
  = 0%nat
  /\ count is_record
       (calls (snd (RunMigrations sample_sql
                      (restart [] (snd (RunMigrations sample_sql sample_start))))))
     = 0%nat.
Proof.
  assert (H : RunMigrations sample_sql sample_start
              = (Ok tt, snd (RunMigrations sample_sql sample_start)))
    by (vm_compute; reflexivity).
  destruct (second_run_applies_nothing sample_sql sample_start _ []
              (sample_migrations_spare_ledger _ _ _) H)
    as (H1 & H2 & _).
  split; assumption.
Defined.

(** The second migration of the directory removes the row of version 1:
    the first run completes and leaves version 2 only in the ledger; the
    second run finds version 1 pending, executes the body of
    [1_users.sql] again and inserts a row. *)
Lemma second_run_applies_again_counterexample :
  RunMigrations sample_sql sample_cleanup
  = (Ok tt, snd (RunMigrations sample_sql sample_cleanup))
  /\ option_map versions
       (ledger (snd (RunMigrations sample_sql sample_cleanup)))
     = Some [2]
  /\ calls (snd (RunMigrations sample_sql
                   (restart []
                      (snd (RunMigrations sample_sql sample_cleanup)))))
     = [CallEnsure true;
        CallCheck 1 (Some false);
        CallExecute (sample_descriptor 1 "1_users.sql")
          "CREATE database/migrations/1_users.sql" true;
        CallRecord 1 true;
        CallCheck 2 (Some true)]
  /\ count is_execute
       (calls (snd (RunMigrations sample_sql
                      (restart []
                         (snd (RunMigrations sample_sql sample_cleanup))))))
     = 1%nat
  /\ count is_record
       (calls (snd (RunMigrations sample_sql
                      (restart []
                         (snd (RunMigrations sample_sql sample_cleanup))))))
     = 1%nat.
Proof. vm_compute. repeat split. Qed.


(** Descriptors 1, 2, 3 on an empty ledger: the rows are 1, 2, 3, each
    with a time. *)
Lemma ledger_grows_by_applied_versions_witness :
  exists rows,
    ledger (snd (applyPendingMigrations sample_sql
                   [sample_descriptor 1 "1_users.sql";
                    sample_descriptor 2 "2_orders.sql";
                    sample_descriptor 3 "3_items.sql"]
                   (sample_world sample_entries sample_bodies (Some []) [])))
    = Some rows
    /\ versions rows = [1; 2; 3]
    /\ Forall (fun e => applied_at e <> None) rows.
Proof.
  apply (proj1 (ledger_grows_by_applied_versions sample_sql)
           [sample_descriptor 1 "1_users.sql";
            sample_descriptor 2 "2_orders.sql";
            sample_descriptor 3 "3_items.sql"]
           (sample_world sample_entries sample_bodies (Some []) [])).
  - apply sample_bodies_spare_ledger.
  - reflexivity.
  - repeat constructor; cbn; intuition discriminate.
  - vm_compute. reflexivity.
Defined.

(** The body of descriptor 3 removes the row of version 1: the loop over
    descriptors 1, 2 and 3 completes on an empty ledger and leaves
    versions 2 and 3 only.  The body of a pending descriptor 1 removes the
    row of version 2 from a ledger that holds it: the body of descriptor 2
    is executed and version 2 inserted again. *)
Lemma ledger_loses_a_version_counterexample :
  ledger sample_forgetful = Some []
  /\ fst (applyPendingMigrations sample_sql
            [sample_descriptor 1 "1_users.sql";
             sample_descriptor 2 "2_orders.sql";
             sample_descriptor 3 "3_cleanup.sql"] sample_forgetful)
     = Ok tt
  /\ option_map versions
       (ledger (snd (applyPendingMigrations sample_sql
                       [sample_descriptor 1 "1_users.sql";
                        sample_descriptor 2 "2_orders.sql";
                        sample_descriptor 3 "3_cleanup.sql"]
                       sample_forgetful)))
     = Some [2; 3]
  /\ option_map (has_version 2) (ledger sample_reopened) = Some true
  /\ count (executes_version 2)
       (calls (snd (applyPendingMigrations sample_sql
                      [sample_descriptor 1 "1_a.sql";
                       sample_descriptor 2 "2_b.sql"] sample_reopened)))
     = 1%nat
  /\ count (records_version 2)
       (calls (snd (applyPendingMigrations sample_sql
                      [sample_descriptor 1 "1_a.sql";
                       sample_descriptor 2 "2_b.sql"] sample_reopened)))
     = 1%nat.
Proof. vm_compute. repeat split. Qed.

(** The sample directory, listed as 3, 1, 2, is discovered in ascending
    order. *)
Lemma discovery_sorted_ascending_witness :
  exists ms w',
    loadMigrationFiles migrationsDir sample_start = (Ok ms, w')
    /\ Ascending ms
    /\ Permutation (map Version ms) [3; 1; 2].
Proof.
  destruct (discovery_sorted_ascending migrationsDir sample_entries
              sample_start)
    as (ms & w' & H1 & H2 & H3 & _).
  - reflexivity.
  - repeat constructor.
  - repeat constructor; cbn; intuition discriminate.
  - exists ms, w'. repeat split; assumption.
Defined.

(** A descriptor of negative version: the file [-5_rollback.sql] yields
    version -5. *)
Lemma negative_version_counterexample :
  exists m,
    fst (loadMigrationFiles migrationsDir
           (sample_world [sample_file "-5_rollback.sql"] sample_bodies None []))
    = Ok [m]
    /\ Version m = -5 /\ Version m < 0.
Proof.
  exists (sample_descriptor (-5) "-5_rollback.sql").
  split; [vm_compute; reflexivity|]. split; reflexivity.
Qed.

(** In a directory with [-5_rollback.sql] and [7_x.sql], a descriptor
    whose name has no minus sign first has a version that is not
    negative. *)
Lemma discovery_versions_read_by_Atoi_witness :
  exists ms w',
    loadMigrationFiles migrationsDir
      (sample_world [sample_file "-5_rollback.sql"; sample_file "7_x.sql"]
         sample_bodies None [])
    = (Ok ms, w')
    /\ forall m, In m ms ->
       strings.HasPrefix (Name m) "-" = false -> 0 <= Version m.
Proof.
  destruct (proj1 (discovery_versions_read_by_Atoi (S := list string)
                     migrationsDir)
              [sample_file "-5_rollback.sql"; sample_file "7_x.sql"]
              (sample_world
                 [sample_file "-5_rollback.sql"; sample_file "7_x.sql"]
                 sample_bodies None []) eq_refl)
    as (ms & w' & H1 & H2).
  exists ms, w'. split; [exact H1|]. intros m Hm.
  destruct (H2 m Hm) as (f & _ & _ & _ & _ & H). exact H.
Defined.

(** A directory, a file that is no migration and a file with a prefix
    that is no number are left out. *)
Lemma discovery_excludes_without_failing_witness :
  toMigrationFile migrationsDir (os.mkFileInfo "archive" true) sample_start
  = (Ok None, sample_start)
  /\ toMigrationFile migrationsDir (sample_file "README.md") sample_start
     = (Ok None, sample_start)
  /\ exists line,
       toMigrationFile migrationsDir (sample_file "v2_users.sql") sample_start
       = (Ok None, add_log line sample_start).
Proof.
  pose proof (discovery_excludes_without_failing (S := list string)
                migrationsDir)
    as (H1 & H2 & _).
  split; [apply H1; now left|]. split; [apply H1; now right|].
  destruct (H2 (sample_file "v2_users.sql") sample_start) as (line & H & _);
    [reflexivity|reflexivity|now right|].
  now exists line.
Defined.


(** A directory where nothing is a migration: the run completes with the
    one call that creates the table. *)
Lemma run_with_nothing_to_apply_witness :
  exists w',
    RunMigrations sample_sql
      (sample_world
         [os.mkFileInfo "archive" true; sample_file "README.md";
          sample_file "1.sql"; sample_file "v2_users.sql"]
         sample_bodies None [])
    = (Ok tt, w')
    /\ calls w' = [CallEnsure true].
Proof.
  destruct (run_with_nothing_to_apply sample_sql
              (sample_world
                 [os.mkFileInfo "archive" true; sample_file "README.md";
                  sample_file "1.sql"; sample_file "v2_users.sql"]
                 sample_bodies None [])
              [os.mkFileInfo "archive" true; sample_file "README.md";
               sample_file "1.sql"; sample_file "v2_users.sql"])
    as (w' & H1 & _ & H2 & _).
  - reflexivity.
  - repeat constructor.
  - reflexivity.
  - exists w'. split; [exact H1|exact H2].
Defined.

(** Two descriptors of version 1: the second is skipped. *)
Lemma one_application_per_version_witness :
  exists w2,
    applyPendingMigrations sample_sql
      [sample_descriptor 1 "1_users.sql"; sample_descriptor 1 "01_people.sql"]
      (sample_world sample_entries sample_bodies (Some []) [])
    = applyPendingMigrations sample_sql [] w2
    /\ schema w2 = ["CREATE database/migrations/1_users.sql"%string].
Proof.
  destruct (proj2 (proj2 (proj2 (one_application_per_version sample_sql)))
              [] [] []
              (sample_descriptor 1 "1_users.sql")
              (sample_descriptor 1 "01_people.sql")
              (sample_world sample_entries sample_bodies (Some []) [])
              (snd (applyPendingMigrations sample_sql
                      [sample_descriptor 1 "1_users.sql"]
                      (sample_world sample_entries sample_bodies (Some []) []))))
    as (w2 & _ & H1 & _ & _ & _ & H2).
  - left. apply sample_bodies_spare_ledger.
  - reflexivity.
  - vm_compute. reflexivity.
  - repeat constructor.
  - exists w2. split; [exact H1|]. rewrite H2. vm_compute. reflexivity.
Defined.

(** A file named by a number and the suffix only is left out. *)
Lemma no_separator_no_descriptor_witness :
  toMigrationFile migrationsDir (sample_file "20240101.sql") sample_start
  = (Ok None, add_log (LogNoVersionPrefix "20240101.sql") sample_start).
Proof.
  apply (proj1 (no_separator_no_descriptor (S := list string) migrationsDir)
           (sample_file "20240101.sql") sample_start); reflexivity.
Defined.


(** * More of the migration engine *)

Section EngineErrors.
Context {S : Type}
  (run_sql : string -> option (list LedgerEntry) * S ->
             option (option (list LedgerEntry) * S))
  {sorter : sort.Sorter}.
Local Abbreviation World := (@World S).

(** X1: when the store does not answer the creation of the ledger table,
    the run exits at once: that one call, its failure line, and nothing
    else; the migrations directory is not scanned (nothing is logged for
    it) and the store is as it was. *)
Theorem table_creation_failure_stops_the_run (w : World) :
  hd false (outages w) = true ->
  exists w',
    RunMigrations run_sql w = (Fatal, w')
    /\ calls_since w w' = [CallEnsure false]
    /\ log_since w w' = [LogEnsureFailed]
    /\ ledger w' = ledger w /\ schema w' = schema w.
Proof.
  intros Hup. rewrite RunMigrations_eq, ensureMigrationsTable_eq, Hup.
  eexists. split; [reflexivity|].
  unfold calls_since, log_since. cbn [calls log ledger schema].
  now rewrite !skipn_length_app.
Qed.

(** X2: when the migrations directory cannot be read, the run exits after
    it has created the ledger table: the table is there afterwards (empty
    if it was missing), no version was checked and no body executed. *)
Theorem unreadable_directory_stops_the_run (w : World) :
  hd false (outages w) = false ->
  dirs w migrationsDir = None ->
  exists w',
    RunMigrations run_sql w = (Fatal, w')
    /\ calls_since w w' = [CallEnsure true]
    /\ log_since w w' = [LogReadDirFailed]
    /\ ledger w' = Some match ledger w with Some l => l | None => [] end
    /\ schema w' = schema w.
Proof.
  intros Hup Hd. rewrite RunMigrations_eq, ensureMigrationsTable_eq, Hup.
  cbn [dirs]. rewrite Hd. eexists. split; [reflexivity|].
  unfold calls_since, log_since, add_log. cbn [calls log ledger schema].
  now rewrite !skipn_length_app.
Qed.

(** X3: a pending descriptor whose file cannot be read stops the run after
    the check of its version: no body is executed for it or for any later
    descriptor, and the ledger and the rest of the database stay as they
    are. *)
Theorem unreadable_migration_file_stops_the_run (m : migrationFile)
  (rest : list migrationFile) (w : World) (l : list LedgerEntry) :
  calm (outages w) -> ledger w = Some l ->
  has_version (Version m) l = false ->
  files w (Path m) = None ->
  exists w',
    applyPendingMigrations run_sql (m :: rest) w = (Fatal, w')
    /\ calls_since w w' = [CallCheck (Version m) (Some false)]
    /\ log_since w w' = [LogReadFileFailed (Path m)]
    /\ ledger w' = Some l /\ schema w' = schema w.
Proof.
  intros C Hl Hv Hq.
  destruct (applyPendingMigrations run_sql (m :: rest) w) as [r w'] eqn:H.
  apply applyPendingMigrations_cons in H. destruct H as (w1 & b & Hs & _ & H).
  inversion Hs; subst;
    try match goal with H : calm _ -> _ = None |- _ => specialize (H C) end;
    try congruence.
  destruct H as [-> ->]. exists w1. split; [reflexivity|].
  split; [now apply calls_since_one|]. split; [now apply log_since_one|].
  split; congruence.
Qed.

(** X4: when the check of a version fails, because the store does not
    answer or because the ledger table does not exist, the run exits with
    that one call: the file of the descriptor is not executed, nor any
    later one. *)
Theorem failed_check_stops_the_run (m : migrationFile)
  (rest : list migrationFile) (w : World) :
  hd false (outages w) = true \/ ledger w = None ->
  exists w',
    applyPendingMigrations run_sql (m :: rest) w = (Fatal, w')
    /\ calls_since w w' = [CallCheck (Version m) None]
    /\ log_since w w' = [LogCheckFailed (Version m)]
    /\ ledger w' = ledger w /\ schema w' = schema w.
Proof.
  intros H. cbn [applyPendingMigrations].
  unfold migrationAlreadyApplied, bind, call, query_exists, serve, Fatalf,
    add_call, add_log.
  cbn [outages ledger dirs files schema now calls log].
  assert (E : (if negb (hd false (outages w))
               then option_map (has_version (Version m)) (ledger w)
               else None) = None).
  { destruct H as [-> | ->]; [reflexivity|].
    now destruct (negb (hd false (outages w))). }
  rewrite E. eexists. split; [reflexivity|].
  unfold calls_since, log_since.
  cbn [calls log ledger schema]. now rewrite !skipn_length_app.
Qed.

End EngineErrors.


Section EngineOrder.
Context {S : Type}
  (run_sql : string -> option (list LedgerEntry) * S ->
             option (option (list LedgerEntry) * S))
  {sorter : sort.Sorter}.
Local Abbreviation World := (@World S).

(** X5: in a run of the engine, the bodies are executed in strictly
    ascending order of version: no body of a version is executed after a
    body of a higher or equal version. *)
Theorem bodies_execute_in_ascending_order (w : World) :
  StronglySorted Z.lt
    (executed_versions (calls_since w (snd (RunMigrations run_sql w)))).
Proof.
  rewrite RunMigrations_eq, ensureMigrationsTable_eq.
  destruct (hd false (outages w)).
  { unfold calls_since. cbn [snd calls]. rewrite skipn_length_app. constructor. }
  cbn [dirs]. destruct (dirs w migrationsDir) as [entries|].
  2:{ unfold calls_since. cbn [snd calls add_log]. rewrite skipn_length_app.
      constructor. }
  match goal with |- context [applyPendingMigrations run_sql ?l ?w0] =>
    set (ms := l); set (wb := w0) end.
  destruct (applyPendingMigrations run_sql ms wb) as [r3 w3] eqn:Hrun.
  destruct (applyPendingMigrations_order _ _ _ _ _ Hrun) as [Hsorted _].
  { apply sort.Slice_ordered, version_less_strict_weak. }
  apply applyPendingMigrations_extends in Hrun. destruct Hrun as (_ & Hc & _).
  cbn [wb add_logs calls] in Hc.
  assert (Hsince :
            calls_since w (snd (match r3 with
                                | Ok _ => (Ok tt, add_log LogCompleted w3)
                                | Fatal => (Fatal, w3)
                                end))
            = [CallEnsure true] ++ calls_since wb w3).
  { unfold calls_since at 1.
    destruct r3 as [[]|]; cbn [snd calls add_log];
      now rewrite Hc, <- app_assoc, skipn_length_app. }
  rewrite Hsince, executed_versions_app. exact Hsorted.
Qed.

(** The loop never logs the completion line. *)
Lemma applyPendingMigrations_not_completed (ms : list migrationFile)
  (w w' : World) (r : Result unit) :
  applyPendingMigrations run_sql ms w = (r, w') ->
  ~ In LogCompleted (log_since w w').
Proof.
  revert ms w r w'.
  apply (applyPendingMigrations_ind run_sql
           (fun ms w r w' => ~ In LogCompleted (log_since w w'))).
  - intros w. rewrite log_since_refl. intros [].
  - intros m rest w w1 Hs.
    inversion Hs; subst;
      match goal with H : log _ = log _ ++ _ |- _ =>
        rewrite (log_since_one _ _ _ H) end;
      intros [E|[]]; discriminate E.
  - intros m rest w w1 r w' Hs _ Hrun IH.
    inversion Hs as [|l0 Hl0 Hv Hf Hl1 Hs1 Hc Hg| | | |
                     l0 q rows s' t Hl0 Hv Hq Hr Hv' Hf Hl1 Hs1 Hc Hg]; subst.
    + rewrite (log_since_step run_sql _ _ _ _ _ _ Hg Hrun).
      intros [E|E]; [discriminate E|now apply IH].
    + assert (Hg' : log w1 = log w ++ []) by now rewrite app_nil_r.
      now rewrite (log_since_step run_sql _ _ _ _ _ _ Hg' Hrun).
Qed.

Lemma diagnostics_not_completed (entries : list os.FileInfo) :
  ~ In LogCompleted (flat_map diagnostics entries).
Proof.
  rewrite in_flat_map. intros (f & _ & H). unfold diagnostics, diagnostic in H.
  destruct (passed_over f); [contradiction|].
  destruct (negb _); [destruct H as [H|[]]; discriminate H|].
  destruct (strconv.Atoi _); [contradiction|].
  destruct H as [H|[]]; discriminate H.
Qed.

(** X6: the line that reports the migrations completed is logged exactly
    when the run returns: a run that exits never logs it. *)
Theorem completion_line_iff_run_returns (w : World) :
  fst (RunMigrations run_sql w) = Ok tt
  <-> In LogCompleted (log_since w (snd (RunMigrations run_sql w))).
Proof.
  rewrite RunMigrations_eq, ensureMigrationsTable_eq.
  destruct (hd false (outages w)).
  { unfold log_since. cbn [fst snd log]. rewrite skipn_length_app.
    split; [discriminate|]. intros [H|[]]; discriminate H. }
  cbn [dirs]. destruct (dirs w migrationsDir) as [entries|].
  2:{ unfold log_since. cbn [fst snd log add_log]. rewrite skipn_length_app.
      split; [discriminate|]. intros [H|[]]; discriminate H. }
  match goal with |- context [applyPendingMigrations run_sql ?l ?w0] =>
    set (ms := l); set (wb := w0) end.
  destruct (applyPendingMigrations run_sql ms wb) as [r3 w3] eqn:Hrun.
  pose proof (applyPendingMigrations_not_completed _ _ _ _ Hrun) as Hno.
  apply applyPendingMigrations_extends in Hrun. destruct Hrun as (_ & _ & Hg).
  cbn [wb add_logs log] in Hg.
  destruct r3 as [[]|]; cbn [fst snd]; unfold log_since at 1;
    cbn [log add_log]; rewrite Hg, <- ?app_assoc, skipn_length_app.
  - split; [intros _|reflexivity]. apply in_or_app. right.
    apply in_or_app. right. now left.
  - split; [discriminate|]. intros H. exfalso.
    apply in_app_or in H. destruct H as [H|H]; [|now apply Hno].
    now apply (diagnostics_not_completed entries).
Qed.

(** X7: when no body of a migration file of the directory changes the
    ledger table, then after a run that returned, the ledger has the
    version of every entry of the migrations directory that is not
    filtered out. *)
Theorem completed_run_records_every_migration (w w' : World)
  (entries : list os.FileInfo) (f : os.FileInfo) :
  migrations_spare_ledger run_sql w ->
  RunMigrations run_sql w = (Ok tt, w') ->
  dirs w migrationsDir = Some entries ->
  In f entries -> filtered_out f = false ->
  exists l v,
    ledger w' = Some l
    /\ strconv.Atoi (version_prefix (os.Name f)) = Some v
    /\ has_version v l = true.
Proof.
  intros Hsp Hrun Hd Hf Hout.
  rewrite RunMigrations_eq, ensureMigrationsTable_eq in Hrun.
  destruct (hd false (outages w)); [discriminate|]. cbn [dirs] in Hrun.
  rewrite Hd in Hrun.
  match type of Hrun with
  | context [applyPendingMigrations run_sql ?l0 ?w0] =>
      set (ms := l0) in *; set (wa := w0) in *
  end.
  assert (Hspa : bodies_spare_ledger run_sql ms wa)
    by (now apply (migrations_spare_ledger_loop run_sql w wa entries)).
  destruct (applyPendingMigrations run_sql ms wa) as [[[]|] w3] eqn:Happly;
    [|discriminate].
  injection Hrun as <-.
  destruct (descriptor migrationsDir f) as [m|] eqn:Hm.
  2:{ apply descriptor_filtered_out in Hm. congruence. }
  destruct (applyPendingMigrations_applied _ _ _ _ Hspa Happly m)
    as (l & Hl & Hv).
  { apply (Permutation_in _ (sort.Slice_perm _ _ _)), in_descriptors.
    now exists f. }
  apply descriptor_Some in Hm. destruct Hm as (_ & _ & _ & Ha & _).
  exists l, (Version m). now repeat split.
Qed.

(** What the loop executes are the contents of the files of its
    descriptors. *)
Lemma applyPendingMigrations_executes_files (ms : list migrationFile)
  (w w' : World) (r : Result unit) :
  applyPendingMigrations run_sql ms w = (r, w') ->
  forall m q ok,
    In (CallExecute m q ok) (calls_since w w') ->
    In m ms /\ files w (Path m) = Some q.
Proof.
  revert ms w r w'.
  apply (applyPendingMigrations_ind run_sql
           (fun ms w r w' =>
              forall m q ok,
                In (CallExecute m q ok) (calls_since w w') ->
                In m ms /\ files w (Path m) = Some q)).
  - intros w m q ok. rewrite calls_since_refl. intros [].
  - intros m rest w w1 Hs m' q' ok.
    inversion Hs; subst;
      match goal with H : calls _ = calls _ ++ _ |- _ =>
        rewrite (calls_since_one _ _ _ H) end;
      cbn [In]; intros E;
      repeat match type of E with _ \/ _ => destruct E as [E|E] end;
      try contradiction; try discriminate E;
      injection E as <- <- <-; (split; [now left|assumption]).
  - intros m rest w w1 r w' Hs _ Hrun IH m' q' ok.
    assert (Hfiles : files w1 = files w)
      by (apply Step_same_files in Hs; now destruct Hs).
    inversion Hs as [|l0 Hl0 Hv Hf Hl1 Hs1 Hc Hg| | | |
                     l0 q rows s' t Hl0 Hv Hq Hr Hv' Hf Hl1 Hs1 Hc Hg]; subst;
      rewrite (calls_since_step run_sql _ _ _ _ _ _ Hc Hrun);
      intros E; apply in_app_or in E; destruct E as [E|E];
      try (destruct (IH _ _ _ E) as [E1 E2];
           split; [now right|congruence]);
      cbn [In] in E;
      repeat match type of E with _ \/ _ => destruct E as [E|E] end;
      try contradiction; try discriminate E.
    injection E as <- <- <-. split; [now left|assumption].
Qed.

(** X8: whatever a run executes on the store is the content of a file of
    the migrations directory: a file, not a directory, whose name ends in
    [.sql], read at the path of the directory joined with its name. *)
Theorem run_executes_only_migration_files (w : World)
  (entries : list os.FileInfo) (m : migrationFile) (q : string) (ok : bool) :
  dirs w migrationsDir = Some entries ->
  In (CallExecute m q ok)
    (calls_since w (snd (RunMigrations run_sql w))) ->
  exists f,
    In f entries /\ os.IsDir f = false
    /\ strings.HasSuffix (os.Name f) ".sql" = true
    /\ Name m = os.Name f
    /\ Path m = filepath.Join migrationsDir (os.Name f)
    /\ files w (Path m) = Some q.
Proof.
  intros Hd. rewrite RunMigrations_eq, ensureMigrationsTable_eq.
  destruct (hd false (outages w)).
  { unfold calls_since. cbn [snd calls]. rewrite skipn_length_app.
    intros [H|[]]; discriminate H. }
  cbn [dirs]. rewrite Hd.
  match goal with |- context [applyPendingMigrations run_sql ?l ?w0] =>
    set (ms := l); set (wb := w0) end.
  destruct (applyPendingMigrations run_sql ms wb) as [r3 w3] eqn:Hrun.
  pose proof (applyPendingMigrations_executes_files _ _ _ _ Hrun) as Hex.
  apply applyPendingMigrations_extends in Hrun. destruct Hrun as (_ & Hc & _).
  cbn [wb add_logs calls] in Hc.
  assert (Hsince :
            calls_since w (snd (match r3 with
                                | Ok _ => (Ok tt, add_log LogCompleted w3)
                                | Fatal => (Fatal, w3)
                                end))
            = [CallEnsure true] ++ calls_since wb w3).
  { unfold calls_since at 1.
    destruct r3 as [[]|]; cbn [snd calls add_log];
      now rewrite Hc, <- app_assoc, skipn_length_app. }
  rewrite Hsince. intros [H|H]; [discriminate H|].
  destruct (Hex _ _ _ H) as [Hin Hq]. cbn [wb add_logs files] in Hq.
  apply (Permutation_in _ (Permutation_sym (sort.Slice_perm _ _ _))) in Hin.
  apply in_descriptors in Hin. destruct Hin as (f & Hf & Hdesc).
  apply descriptor_Some in Hdesc. exists f. tauto.
Qed.

End EngineOrder.


Section LeadingZeros.

Lemma append_assoc (a b c : string) :
  ((a ++ b) ++ c = a ++ (b ++ c))%string.
Proof. induction a as [|x a IH]; simpl; [reflexivity|now rewrite IH]. Qed.

Lemma version_prefix_append (p rest : string) :
  all_digits p = true ->
  version_prefix (p ++ String separator rest) = p
  /\ has_byte separator (p ++ String separator rest) = true.
Proof.
  unfold version_prefix. induction p as [|c p IH]; simpl.
  - now split.
  - intros H. apply andb_prop in H. destruct H as [Hc Hp].
    assert (E : Ascii.eqb c separator = false).
    { apply Ascii.eqb_neq. intros ->. discriminate Hc. }
    rewrite E. destruct (IH Hp) as [-> ->]. now split.
Qed.

Lemma all_zeros_digits (zs p : string) :
  all_zeros zs = true -> all_digits p = true ->
  all_digits (zs ++ p) = true /\ decimal_value (zs ++ p) = decimal_value p.
Proof.
  intros Hz Hp. induction zs as [|c zs IH]; simpl.
  - now split.
  - simpl in Hz. apply andb_prop in Hz. destruct Hz as [Hc Hz].
    apply Ascii.eqb_eq in Hc. subst c. destruct (IH Hz) as [-> ->].
    split; [reflexivity|]. cbn. lia.
Qed.

Context {S : Type}.
Local Abbreviation World := (@World S).

(** X9: leading zeros do not change the version: the files
    [<zeros><digits>_<label>.sql] and [<digits>_<label'>.sql] yield
    descriptors of one and the same version, the value of the digits. *)
Theorem leading_zeros_do_not_change_the_version (dir : string)
  (zeros p label label' : string) (w : World) :
  all_zeros zeros = true -> is_numeral p = true ->
  decimal_value p <= strconv.maxInt ->
  exists m m',
    toMigrationFile dir
      (os.mkFileInfo (zeros ++ p ++ "_" ++ label ++ ".sql") false) w
    = (Ok (Some m), w)
    /\ toMigrationFile dir
         (os.mkFileInfo (p ++ "_" ++ label' ++ ".sql") false) w
       = (Ok (Some m'), w)
    /\ Version m = decimal_value p /\ Version m' = decimal_value p.
Proof.
  intros Hz Hp Hmax. unfold is_numeral in Hp. apply andb_prop in Hp.
  destruct Hp as [Hne Hd].
  destruct (all_zeros_digits zeros p Hz Hd) as [Hzd Hzv].
  assert (Hwf : forall q lbl,
             all_digits q = true -> negb (String.eqb q EmptyString) = true ->
             decimal_value q <= strconv.maxInt ->
             well_formed (os.mkFileInfo (q ++ "_" ++ lbl ++ ".sql") false) = true
             /\ named_version (os.mkFileInfo (q ++ "_" ++ lbl ++ ".sql") false)
                = decimal_value q).
  { intros q lbl Hq Hq0 Hqmax. unfold well_formed, named_version.
    cbn [os.IsDir os.Name negb andb].
    destruct (version_prefix_append q (lbl ++ ".sql") Hq) as [E1 E2].
    change (q ++ "_" ++ lbl ++ ".sql")%string
      with (q ++ String separator (lbl ++ ".sql"))%string.
    rewrite E1, E2. unfold is_numeral. rewrite Hq, Hq0. cbn [andb].
    split; [|reflexivity].
    replace (q ++ String separator (lbl ++ ".sql"))%string
      with ((q ++ String separator lbl) ++ ".sql")%string
      by (rewrite append_assoc; reflexivity).
    rewrite HasSuffix_append. cbn [andb]. now apply Z.leb_le. }
  destruct (Hwf p label' Hd Hne Hmax) as [W1 V1].
  destruct (Hwf (zeros ++ p)%string label Hzd) as [W2 V2].
  { destruct zeros; [exact Hne|reflexivity]. }
  { now rewrite Hzv. }
  rewrite append_assoc in W2, V2.
  destruct (descriptor_well_formed dir _ W1) as [D1 G1].
  destruct (descriptor_well_formed dir _ W2) as [D2 G2].
  eexists _, _. rewrite !toMigrationFile_eq.
  unfold diagnostics. rewrite D1, D2, G1, G2, !add_logs_nil.
  split; [reflexivity|]. split; [reflexivity|]. cbn [Version].
  now rewrite V1, V2, Hzv.
Qed.

End LeadingZeros.

(** The files [001_create_users.sql] and [1_users.sql] both have
    version 1. *)
Lemma leading_zeros_do_not_change_the_version_witness :
  exists m m',
    toMigrationFile migrationsDir (sample_file "001_create_users.sql")
      sample_start
    = (Ok (Some m), sample_start)
    /\ toMigrationFile migrationsDir (sample_file "1_users.sql") sample_start
       = (Ok (Some m'), sample_start)
    /\ Version m = 1 /\ Version m' = 1.
Proof.
  exact (leading_zeros_do_not_change_the_version migrationsDir
           "00" "1" "create_users" "users" sample_start
           eq_refl eq_refl ltac:(vm_compute; discriminate)).
Defined.


(** ** The engine's failures and order on the sample directory *)

(** The store is down at process start: the run exits on the creation of
    the ledger table. *)
Lemma table_creation_failure_stops_the_run_witness :
  exists w',
    RunMigrations sample_sql
      (sample_world sample_entries sample_bodies None [true])
    = (Fatal, w')
    /\ calls w' = [CallEnsure false] /\ log w' = [LogEnsureFailed]
    /\ ledger w' = None /\ schema w' = [].
Proof.
  exact (table_creation_failure_stops_the_run sample_sql
           (sample_world sample_entries sample_bodies None [true]) eq_refl).
Defined.

(** No migrations directory: the run exits after it has created an empty
    ledger table. *)
Lemma unreadable_directory_stops_the_run_witness :
  exists w',
    RunMigrations sample_sql
      (mkWorld (fun _ => None) sample_bodies None ([] : list string) 1000
         [] [] [])
    = (Fatal, w')
    /\ calls w' = [CallEnsure true] /\ log w' = [LogReadDirFailed]
    /\ ledger w' = Some [] /\ schema w' = [].
Proof.
  exact (unreadable_directory_stops_the_run sample_sql
           (mkWorld (fun _ => None) sample_bodies None ([] : list string)
              1000 [] [] [])
           eq_refl eq_refl).
Defined.

(** The file of version 1 has vanished between the scan and the read. *)
Lemma unreadable_migration_file_stops_the_run_witness :
  exists w',
    applyPendingMigrations sample_sql
      [sample_descriptor 1 "1_users.sql"; sample_descriptor 2 "2_orders.sql"]
      (sample_world sample_entries (fun _ => None) (Some []) [])
    = (Fatal, w')
    /\ calls w' = [CallCheck 1 (Some false)]
    /\ log w' = [LogReadFileFailed "database/migrations/1_users.sql"]
    /\ ledger w' = Some [] /\ schema w' = [].
Proof.
  exact (unreadable_migration_file_stops_the_run sample_sql
           (sample_descriptor 1 "1_users.sql")
           [sample_descriptor 2 "2_orders.sql"]
           (sample_world sample_entries (fun _ => None) (Some []) []) []
           (Forall_nil _) eq_refl eq_refl eq_refl).
Defined.

(** The ledger table is missing when the version is checked. *)
Lemma failed_check_stops_the_run_witness :
  exists w',
    applyPendingMigrations sample_sql
      [sample_descriptor 1 "1_users.sql"; sample_descriptor 2 "2_orders.sql"]
      (sample_world sample_entries sample_bodies None [])
    = (Fatal, w')
    /\ calls w' = [CallCheck 1 None] /\ log w' = [LogCheckFailed 1]
    /\ ledger w' = None /\ schema w' = [].
Proof.
  exact (failed_check_stops_the_run sample_sql
           (sample_descriptor 1 "1_users.sql")
           [sample_descriptor 2 "2_orders.sql"]
           (sample_world sample_entries sample_bodies None [])
           (or_intror eq_refl)).
Defined.

(** The run of the sample directory returns, and version 2 of
    [2_orders.sql] is in the ledger. *)
Lemma completed_run_records_every_migration_witness :
  exists l v,
    ledger (snd (RunMigrations sample_sql sample_start)) = Some l
    /\ strconv.Atoi (version_prefix "2_orders.sql") = Some v
    /\ has_version v l = true.
Proof.
  apply (completed_run_records_every_migration sample_sql sample_start
           (snd (RunMigrations sample_sql sample_start)) sample_entries
           (sample_file "2_orders.sql")).
  - apply sample_migrations_spare_ledger.
  - vm_compute. reflexivity.
  - reflexivity.
  - right. right. left. reflexivity.
  - reflexivity.
Defined.

(** The body executed for version 2 is the content of [2_orders.sql]. *)
Lemma run_executes_only_migration_files_witness :
  exists f,
    In f sample_entries /\ os.IsDir f = false
    /\ strings.HasSuffix (os.Name f) ".sql" = true
    /\ "2_orders.sql"%string = os.Name f
    /\ "database/migrations/2_orders.sql"%string
       = filepath.Join migrationsDir (os.Name f)
    /\ sample_bodies "database/migrations/2_orders.sql"
       = Some "CREATE database/migrations/2_orders.sql"%string.
Proof.
  apply (run_executes_only_migration_files sample_sql sample_start
           sample_entries (sample_descriptor 2 "2_orders.sql")
           "CREATE database/migrations/2_orders.sql"%string true).
  - reflexivity.
  - vm_compute. do 5 right. left. reflexivity.
Defined.


Section EngineResume.
Context {S : Type}
  (run_sql : string -> option (list LedgerEntry) * S ->
             option (option (list LedgerEntry) * S))
  {sorter : sort.Sorter}.
Local Abbreviation World := (@World S).

Lemma executed_versions_In (m : migrationFile) (q : string) (ok : bool)
  (cs : list Call) :
  In (CallExecute m q ok) cs -> In (Version m) (executed_versions cs).
Proof.
  intros H. unfold executed_versions. apply in_flat_map.
  exists (CallExecute m q ok). split; [assumption|now left].
Qed.

Lemma executed_versions_count (v : Z) (cs : list Call) :
  In v (executed_versions cs) -> (0 < count (executes_version v) cs)%nat.
Proof.
  unfold count. induction cs as [|c cs IH]; cbn; [intros []|].
  destruct c as [ok|v' r|m q ok|v' ok]; cbn; try exact IH.
  intros [E|H].
  - rewrite E, Z.eqb_refl. cbn. lia.
  - destruct (Version m =? v); cbn; [lia|now apply IH].
Qed.

(** X26: when no body of a migration file of the directory changes the
    ledger table, a run that returns has executed the bodies of exactly
    the pending versions: those of the migration files of the directory
    that the ledger did not hold when the run began.  A run after a failure
    so takes up the work where the failed run stopped. *)
Theorem completed_run_executes_the_pending_versions (w w' : World)
  (entries : list os.FileInfo) (v : Z) :
  migrations_spare_ledger run_sql w ->
  RunMigrations run_sql w = (Ok tt, w') ->
  dirs w migrationsDir = Some entries ->
  In v (executed_versions (calls_since w w'))
  <-> In v (map Version (descriptors migrationsDir entries))
      /\ has_version v match ledger w with Some l => l | None => [] end
         = false.
Proof.
  intros Hsp Hrun Hd.
  rewrite RunMigrations_eq, ensureMigrationsTable_eq in Hrun.
  destruct (hd false (outages w)); [discriminate|]. cbn [dirs] in Hrun.
  rewrite Hd in Hrun.
  match type of Hrun with context [applyPendingMigrations run_sql ?l ?w0] =>
    set (ms := l) in *; set (wb := w0) in * end.
  assert (Hspb : bodies_spare_ledger run_sql ms wb)
    by (now apply (migrations_spare_ledger_loop run_sql w wb entries)).
  destruct (applyPendingMigrations run_sql ms wb) as [[[]|] w3] eqn:Happly;
    [|discriminate].
  injection Hrun as <-.
  assert (Hl : ledger wb
               = Some match ledger w with Some l => l | None => [] end)
    by reflexivity.
  assert (Hsince : calls_since w (add_log LogCompleted w3)
                   = [CallEnsure true] ++ calls_since wb w3).
  { pose proof (applyPendingMigrations_extends _ _ _ _ _ Happly)
      as (_ & Hc & _).
    cbn [wb add_logs calls] in Hc. unfold calls_since at 1.
    cbn [calls add_log]. now rewrite Hc, <- app_assoc, skipn_length_app. }
  rewrite Hsince, executed_versions_app. cbn [executed_versions flat_map app].
  fold (executed_versions (calls_since wb w3)).
  assert (Hperm : Permutation (descriptors migrationsDir entries) ms)
    by apply sort.Slice_perm.
  split.
  - intros Hin.
    destruct (applyPendingMigrations_order _ _ _ _ _ Happly) as (_ & Hall & _).
    { apply sort.Slice_ordered, version_less_strict_weak. }
    rewrite Forall_forall in Hall. split.
    + apply (Permutation_in _
               (Permutation_sym (Permutation_map Version Hperm))).
      now apply Hall.
    + apply executed_versions_count in Hin.
      destruct (applyPendingMigrations_count _ v _ _ _ _ Hspb Happly)
        as [Hle _].
      unfold pending in Hle. rewrite Hl in Hle.
      destruct (has_version v _); [lia|reflexivity].
  - intros [Hv Hno]. apply in_map_iff in Hv. destruct Hv as (m & <- & Hm).
    destruct (applyPendingMigrations_applied _ _ _ _ Hspb Happly m)
      as (l' & Hl' & Hhas).
    { now apply (Permutation_in _ Hperm). }
    destruct (applyPendingMigrations_ledger _ _ _ _ _ Hspb Happly _ Hl)
      as (added & Hadd & Hall).
    rewrite Hl' in Hadd. injection Hadd as ->.
    rewrite has_version_app, Hno in Hhas. cbn [orb] in Hhas.
    apply has_version_In in Hhas. unfold versions in Hhas.
    apply in_map_iff in Hhas. destruct Hhas as (e & He & Hin).
    rewrite Forall_forall in Hall.
    destruct (Hall e Hin) as (_ & _ & m' & q & _ & Hm' & Hex).
    rewrite <- He, <- Hm'. now apply (executed_versions_In m' q true).
Qed.

End EngineResume.



(** The sample directory with version 1 in the ledger: the body of version
    2 is executed, since 2 is in the directory and not in the ledger. *)
Lemma completed_run_executes_the_pending_versions_witness :
  In 2 (executed_versions
          (calls_since sample_resumed
             (snd (RunMigrations sample_sql sample_resumed))))
  <-> In 2 (map Version (descriptors migrationsDir sample_entries))
      /\ has_version 2 [mkLedgerEntry 1 (Some 7)] = false.
Proof.
  apply (completed_run_executes_the_pending_versions sample_sql
           sample_resumed (snd (RunMigrations sample_sql sample_resumed))
           sample_entries 2).
  - apply sample_migrations_spare_ledger.
  - vm_compute. reflexivity.
  - reflexivity.
Defined.


(** * The rate limiter *)

Section RateLimiterFacts.
Import middleware.

Lemma counts_length (first step : Z) (n : nat) :
  length (counts first step n) = n.
Proof. revert first. induction n; intros; simpl; [reflexivity|now rewrite IHn]. Qed.

Lemma serve_all_cons (h : fiber.Handler) (c : fiber.Ctx) (d : N)
  (rest : list N) (r : redis.Client) :
  serve_all h c (d :: rest) r
  = (fst (h c (redis.advance d r))
     :: fst (serve_all h c rest (snd (h c (redis.advance d r)))),
     snd (serve_all h c rest (snd (h c (redis.advance d r))))).
Proof.
  cbn [serve_all]. destruct (h c (redis.advance d r)) as [a r1].
  cbn [fst snd]. now destruct (serve_all h c rest r1).
Qed.

Lemma total_nonneg (waits : list N) : 0 <= total waits.
Proof. induction waits; simpl; lia. Qed.

Lemma redis_calm_tl (fate : list bool) : redis.calm fate -> redis.calm (tl fate).
Proof. intros H. destruct H; [constructor|assumption]. Qed.

Lemma redis_calm_hd (fate : list bool) : redis.calm fate -> hd false fate = false.
Proof. intros H. destruct H; [reflexivity|assumption]. Qed.

(** A request on a counter that is there and is not 0: the counter grows
    by one, its deadline stays, and the count decides. *)
Lemma RateLimiter_counted (limit : Z) (window : time.Duration)
  (next : fiber.Handler) (c : fiber.Ctx) (r : redis.Client) (e : redis.Entry) :
  redis.get r (rate_key c) = Some e ->
  hd false (redis.outages r) = false ->
  redis.value e <> 0 -> redis.value e <> redis.maxInt64 ->
  exists r',
    RateLimiter limit window next c r
    = (if redis.value e + 1 >? limit then (too_many_requests, r')
       else next c r')
    /\ redis.keys r' (rate_key c)
       = Some (redis.mkEntry (redis.value e + 1) (redis.deadline e))
    /\ (forall k, k <> rate_key c -> redis.keys r' k = redis.keys r k)
    /\ redis.clock r' = redis.clock r
    /\ redis.outages r' = tl (redis.outages r).
Proof.
  intros Hg Hup H0 Hmax.
  unfold RateLimiter, redis.Incr, redis.serve. rewrite Hup. cbn [negb].
  unfold redis.get in *. cbn [redis.keys redis.clock].
  destruct (redis.keys r (rate_key c)) as [e'|]; [|discriminate].
  destruct (redis.live (redis.clock r) e'); [|discriminate].
  injection Hg as ->.
  apply Z.eqb_neq in Hmax. rewrite Hmax.
  assert (E : (redis.value e + 1 =? 1) = false) by (apply Z.eqb_neq; lia).
  rewrite E. eexists. split; [reflexivity|].
  unfold redis.set. cbn [redis.keys redis.clock redis.outages].
  rewrite String.eqb_refl. repeat split.
  intros k Hk. apply String.eqb_neq in Hk. now rewrite Hk.
Qed.

(** The first request on a counter that is absent or has run out, when the
    server takes both commands: the counter is 1 and lives for the
    window. *)
Lemma RateLimiter_first (limit : Z) (window : time.Duration)
  (next : fiber.Handler) (c : fiber.Ctx) (r : redis.Client) :
  redis.get r (rate_key c) = None ->
  hd false (redis.outages r) = false ->
  hd false (tl (redis.outages r)) = false ->
  0 < redis.formatSec window ->
  exists r',
    RateLimiter limit window next c r
    = (if 1 >? limit then (too_many_requests, r') else next c r')
    /\ redis.keys r' (rate_key c)
       = Some (redis.mkEntry 1
                 (Some (redis.clock r + 1000 * redis.formatSec window)))
    /\ (forall k, k <> rate_key c -> redis.keys r' k = redis.keys r k)
    /\ redis.clock r' = redis.clock r
    /\ redis.outages r' = tl (tl (redis.outages r)).
Proof.
  intros Hg Hup Hup2 Hw.
  unfold RateLimiter, redis.Incr, redis.serve. rewrite Hup. cbn [negb].
  unfold redis.get in *. cbn [redis.keys redis.clock].
  replace (match redis.keys r (rate_key c) with
           | Some e => if redis.live (redis.clock r) e then Some e else None
           | None => None
           end) with (@None redis.Entry).
  change (1 =? 1) with true. cbv iota.
  unfold redis.Expire, redis.serve, redis.set, redis.get, redis.live.
  cbn [redis.keys redis.clock redis.outages snd redis.deadline redis.value].
  rewrite Hup2. cbn [negb].
  rewrite String.eqb_refl. cbn [redis.deadline redis.value].
  apply Z.leb_gt in Hw. rewrite Hw. cbn [snd].
  eexists. split; [reflexivity|].
  cbn [redis.keys redis.clock redis.outages].
  rewrite String.eqb_refl. repeat split.
  intros k Hk. apply String.eqb_neq in Hk. now rewrite Hk.
Qed.

(** The first request on such a counter when the server takes [INCR] and
    fails [EXPIRE]: the counter is 1 and has no deadline. *)
Lemma RateLimiter_first_unexpired (limit : Z) (window : time.Duration)
  (next : fiber.Handler) (c : fiber.Ctx) (r : redis.Client) :
  redis.get r (rate_key c) = None ->
  hd false (redis.outages r) = false ->
  hd false (tl (redis.outages r)) = true ->
  exists r',
    RateLimiter limit window next c r
    = (if 1 >? limit then (too_many_requests, r') else next c r')
    /\ redis.keys r' (rate_key c) = Some (redis.mkEntry 1 None)
    /\ (forall k, k <> rate_key c -> redis.keys r' k = redis.keys r k)
    /\ redis.clock r' = redis.clock r
    /\ redis.outages r' = tl (tl (redis.outages r)).
Proof.
  intros Hg Hup Hup2.
  unfold RateLimiter, redis.Incr, redis.serve. rewrite Hup. cbn [negb].
  unfold redis.get in *. cbn [redis.keys redis.clock].
  replace (match redis.keys r (rate_key c) with
           | Some e => if redis.live (redis.clock r) e then Some e else None
           | None => None
           end) with (@None redis.Entry).
  change (1 =? 1) with true. cbv iota.
  unfold redis.Expire, redis.serve, redis.set.
  cbn [redis.keys redis.clock redis.outages snd]. rewrite Hup2.
  cbn [negb snd].
  eexists. split; [reflexivity|].
  cbn [redis.keys redis.clock redis.outages].
  rewrite String.eqb_refl. repeat split.
  intros k Hk. apply String.eqb_neq in Hk. now rewrite Hk.
Qed.

(** Requests on a counter that outlives them all: each adds one, and its
    count decides. *)
Lemma serve_all_counted (limit : Z) (window : time.Duration) (c : fiber.Ctx)
  (waits : list N) :
  forall (r : redis.Client) (v : Z) (dl : option Z),
    redis.keys r (rate_key c) = Some (redis.mkEntry v dl) ->
    1 <= v -> redis.calm (redis.outages r) ->
    (forall d, dl = Some d -> redis.clock r + total waits < d) ->
    v + Z.of_nat (length waits) <= redis.maxInt64 ->
    fst (serve_all (RateLimiter limit window fiber.endpoint) c waits r)
    = map (verdict limit) (counts (v + 1) 1 (length waits))
    /\ redis.keys
         (snd (serve_all (RateLimiter limit window fiber.endpoint) c waits r))
         (rate_key c)
       = Some (redis.mkEntry (v + Z.of_nat (length waits)) dl).
Proof.
  induction waits as [|d waits IH]; intros r v dl Hk Hv Hc Hdl Hmax.
  - cbn. rewrite Z.add_0_r. now split.
  - cbn [serve_all length counts map]. cbn [total fold_right] in Hdl.
    fold (total waits) in Hdl. cbn [length] in Hmax.
    rewrite Nat2Z.inj_succ in Hmax.
    pose proof (total_nonneg waits) as Ht.
    destruct (RateLimiter_counted limit window fiber.endpoint c
                (redis.advance d r) (redis.mkEntry v dl))
      as (r' & E & Hk' & _ & Hcl & Hout).
    + unfold redis.get, redis.advance, redis.live.
      cbn [redis.keys redis.clock redis.deadline]. rewrite Hk.
      cbn [redis.deadline]. destruct dl as [dd|]; [|reflexivity].
      specialize (Hdl dd eq_refl).
      replace (redis.clock r + Z.of_N d <? dd) with true; [reflexivity|].
      symmetry. apply Z.ltb_lt. lia.
    + cbn [redis.advance redis.outages]. now apply redis_calm_hd.
    + cbn [redis.value]. lia.
    + cbn [redis.value]. lia.
    + cbn [redis.value redis.deadline] in E, Hk'.
      assert (E' : RateLimiter limit window fiber.endpoint c
                     (redis.advance d r) = (verdict limit (v + 1), r')).
      { rewrite E. unfold verdict, fiber.endpoint.
        now destruct (v + 1 >? limit). }
      rewrite E'.
      destruct (IH r' (v + 1) dl) as [I1 I2]; try assumption; try lia.
      * rewrite Hout. cbn [redis.advance redis.outages]. now apply redis_calm_tl.
      * intros dd Hdd. rewrite Hcl. cbn [redis.advance redis.clock].
        specialize (Hdl dd Hdd). lia.
      * destruct (serve_all (RateLimiter limit window fiber.endpoint) c
                    waits r') as [l r2].
        cbn [fst snd] in *. rewrite I1, I2. split; [reflexivity|].
        do 2 f_equal. lia.
Qed.

End RateLimiterFacts.

Section RateLimiterClaims.
Import middleware.

(** X10: a fixed window.  Of the requests of one client on one route that
    start on a counter absent or run out, and come within the window of the
    first, the n-th is passed on exactly when n is at most the limit; the
    refused ones are counted too, and the deadline is the one the first
    request set. *)
Theorem fixed_window_of_the_first_request (limit : Z)
  (window : time.Duration) (c : fiber.Ctx) (d0 : N) (rest : list N)
  (r : redis.Client) :
  redis.calm (redis.outages r) ->
  redis.get (redis.advance d0 r) (rate_key c) = None ->
  total rest < 1000 * redis.formatSec window ->
  Z.of_nat (length rest) < redis.maxInt64 ->
  fst (serve_all (RateLimiter limit window fiber.endpoint) c (d0 :: rest) r)
  = map (verdict limit) (counts 1 1 (S (length rest)))
  /\ redis.keys
       (snd (serve_all (RateLimiter limit window fiber.endpoint) c
               (d0 :: rest) r))
       (rate_key c)
     = Some (redis.mkEntry (1 + Z.of_nat (length rest))
               (Some (redis.clock r + Z.of_N d0
                      + 1000 * redis.formatSec window))).
Proof.
  intros Hc Hg Hw Hmax. pose proof (total_nonneg rest) as Ht.
  rewrite serve_all_cons.
  change (counts 1 1 (S (length rest)))
    with (1 :: counts (1 + 1) 1 (length rest)).
  rewrite map_cons.
  destruct (RateLimiter_first limit window fiber.endpoint c
              (redis.advance d0 r))
    as (r' & E & Hk & _ & Hcl & Hout); try assumption.
  { cbn [redis.advance redis.outages]. now apply redis_calm_hd. }
  { cbn [redis.advance redis.outages]. now apply redis_calm_hd, redis_calm_tl. }
  { lia. }
  assert (E' : RateLimiter limit window fiber.endpoint c (redis.advance d0 r)
               = (verdict limit 1, r')).
  { rewrite E. unfold verdict, fiber.endpoint. now destruct (1 >? limit). }
  rewrite E'.
  destruct (serve_all_counted limit window c rest r' 1 _ Hk) as [I1 I2].
  - lia.
  - rewrite Hout. cbn [redis.advance redis.outages].
    now apply redis_calm_tl, redis_calm_tl.
  - intros d Hd.
    replace d
      with (redis.clock (redis.advance d0 r) + 1000 * redis.formatSec window)
      by congruence.
    rewrite Hcl. lia.
  - lia.
  - cbn [fst snd]. rewrite I1, I2. split; reflexivity.
Qed.

(** X11: the answer of [EXPIRE] is not looked at.  When the server takes
    the first [INCR] of a counter and fails the [EXPIRE] after it, the
    counter has no deadline: however long the client waits, and whatever
    the window, the n-th request is passed on exactly when n is at most the
    limit, and the counter never starts again. *)
Theorem counter_without_deadline_never_resets (limit : Z)
  (window : time.Duration) (c : fiber.Ctx) (d0 : N) (rest : list N)
  (r : redis.Client) :
  hd false (redis.outages r) = false ->
  hd false (tl (redis.outages r)) = true ->
  redis.calm (tl (tl (redis.outages r))) ->
  redis.get (redis.advance d0 r) (rate_key c) = None ->
  Z.of_nat (length rest) < redis.maxInt64 ->
  fst (serve_all (RateLimiter limit window fiber.endpoint) c (d0 :: rest) r)
  = map (verdict limit) (counts 1 1 (S (length rest)))
  /\ redis.keys
       (snd (serve_all (RateLimiter limit window fiber.endpoint) c
               (d0 :: rest) r))
       (rate_key c)
     = Some (redis.mkEntry (1 + Z.of_nat (length rest)) None).
Proof.
  intros Hup Hdown Hc Hg Hmax.
  rewrite serve_all_cons.
  change (counts 1 1 (S (length rest)))
    with (1 :: counts (1 + 1) 1 (length rest)).
  rewrite map_cons.
  destruct (RateLimiter_first_unexpired limit window fiber.endpoint c
              (redis.advance d0 r))
    as (r' & E & Hk & _ & Hcl & Hout); try assumption.
  assert (E' : RateLimiter limit window fiber.endpoint c (redis.advance d0 r)
               = (verdict limit 1, r')).
  { rewrite E. unfold verdict, fiber.endpoint. now destruct (1 >? limit). }
  rewrite E'.
  destruct (serve_all_counted limit window c rest r' 1 _ Hk) as [I1 I2].
  - lia.
  - rewrite Hout. exact Hc.
  - discriminate.
  - lia.
  - cbn [fst snd]. rewrite I1, I2. split; reflexivity.
Qed.

End RateLimiterClaims.


Section LimiterChain.
Import middleware.

Lemma get_keys (r : redis.Client) (k : string) (e : redis.Entry) :
  redis.get r k = Some e ->
  redis.keys r k = Some e /\ redis.live (redis.clock r) e = true.
Proof.
  unfold redis.get. destruct (redis.keys r k) as [e'|]; [|discriminate].
  destruct (redis.live (redis.clock r) e') eqn:L; [|discriminate].
  intros H. injection H as <-. now split.
Qed.

Lemma keys_get (r : redis.Client) (k : string) (e : redis.Entry) :
  redis.keys r k = Some e -> redis.live (redis.clock r) e = true ->
  redis.get r k = Some e.
Proof. intros H L. unfold redis.get. now rewrite H, L. Qed.

(** One request through two limiters that share the counter: the first
    adds one and, if it lets the request pass, so does the second. *)
Lemma chain_counted (general login : Z) (w1 w2 : time.Duration)
  (c : fiber.Ctx) (r : redis.Client) (v : Z) (dl : option Z) :
  redis.get r (rate_key c) = Some (redis.mkEntry v dl) ->
  hd false (redis.outages r) = false ->
  hd false (tl (redis.outages r)) = false ->
  1 <= v -> v + 2 <= redis.maxInt64 ->
  exists r' v',
    RateLimiter general w1 (RateLimiter login w2 fiber.endpoint) c r
    = (if v + 1 >? general then too_many_requests else verdict login (v + 2),
       r')
    /\ v' = (if v + 1 >? general then v + 1 else v + 2)
    /\ redis.keys r' (rate_key c) = Some (redis.mkEntry v' dl)
    /\ redis.clock r' = redis.clock r
    /\ redis.outages r'
       = (if v + 1 >? general then tl (redis.outages r)
          else tl (tl (redis.outages r))).
Proof.
  intros Hg Hup Hup2 Hv Hmax.
  destruct (get_keys _ _ _ Hg) as [_ L].
  destruct (RateLimiter_counted general w1 (RateLimiter login w2 fiber.endpoint)
              c r _ Hg Hup)
    as (r1 & E1 & K1 & _ & C1 & O1); cbn [redis.value redis.deadline] in *;
    try lia.
  rewrite E1. destruct (v + 1 >? general).
  - exists r1, (v + 1). repeat split; assumption.
  - destruct (RateLimiter_counted login w2 fiber.endpoint c r1
                (redis.mkEntry (v + 1) dl))
      as (r2 & E2 & K2 & _ & C2 & O2); cbn [redis.value redis.deadline] in *;
      try lia.
    + apply keys_get; [assumption|]. now rewrite C1.
    + now rewrite O1.
    + exists r2, (v + 1 + 1). rewrite E2. unfold verdict, fiber.endpoint.
      replace (v + 1 + 1) with (v + 2) by lia.
      repeat split; try congruence.
      * now destruct (v + 2 >? login).
      * rewrite K2. do 2 f_equal. lia.
Qed.

(** What the requests before have left of the counter, when [i] of them
    have come: twice their number while the second limit allows it, and no
    less than that limit less one from then on. *)
Definition shared (login : Z) (i v : Z) : Prop :=
  (2 * (i + 1) <= login -> v = 2 * i)
  /\ (login < 2 * (i + 1) -> login - 1 <= v).

Lemma serve_all_chain (general login : Z) (w1 w2 : time.Duration)
  (c : fiber.Ctx) (waits : list N) :
  login <= general + 1 ->
  forall (r : redis.Client) (i v : Z) (dl : option Z),
    redis.keys r (rate_key c) = Some (redis.mkEntry v dl) ->
    1 <= v -> shared login i v ->
    redis.calm (redis.outages r) ->
    (forall d, dl = Some d -> redis.clock r + total waits < d) ->
    v + 2 * Z.of_nat (length waits) <= redis.maxInt64 ->
    fst (serve_all (RateLimiter general w1 (RateLimiter login w2 fiber.endpoint))
           c waits r)
    = map (verdict login) (counts (2 * (i + 1)) 2 (length waits)).
Proof.
  intros Hl. induction waits as [|d waits IH]; intros r i v dl Hk Hv J Hc Hdl Hmax.
  - reflexivity.
  - rewrite serve_all_cons. cbn [length counts map].
    cbn [total fold_right] in Hdl. fold (total waits) in Hdl.
    cbn [length] in Hmax. rewrite Nat2Z.inj_succ in Hmax.
    pose proof (total_nonneg waits) as Ht.
    destruct (chain_counted general login w1 w2 c (redis.advance d r) v dl)
      as (r' & v' & E & Hv' & K & C & O); try lia.
    + apply keys_get; [exact Hk|]. unfold redis.live.
      cbn [redis.deadline redis.advance redis.clock].
      destruct dl as [dd|]; [|reflexivity]. specialize (Hdl dd eq_refl).
      apply Z.ltb_lt. lia.
    + cbn [redis.advance redis.outages]. now apply redis_calm_hd.
    + cbn [redis.advance redis.outages]. now apply redis_calm_hd, redis_calm_tl.
    + rewrite E. cbn [fst snd]. f_equal.
      * destruct J as [J1 J2]. unfold verdict.
        destruct (Z.gtb_spec (2 * (i + 1)) login) as [G|G].
        -- destruct (Z.gtb_spec (v + 1) general); [reflexivity|].
           destruct (Z.gtb_spec (v + 2) login); [reflexivity|lia].
        -- destruct (Z.gtb_spec (v + 1) general); [lia|].
           destruct (Z.gtb_spec (v + 2) login); [lia|reflexivity].
      * replace (2 * (i + 1) + 2) with (2 * (i + 1 + 1)) by lia.
        apply (IH r' (i + 1) v' dl); try assumption.
        -- subst v'. destruct (v + 1 >? general); lia.
        -- destruct J as [J1 J2]. subst v'. unfold shared.
           destruct (Z.gtb_spec (v + 1) general); lia.
        -- rewrite O. cbn [redis.advance redis.outages].
           destruct (v + 1 >? general); now repeat apply redis_calm_tl.
        -- intros dd Hdd. rewrite C. cbn [redis.advance redis.clock].
           specialize (Hdl dd Hdd). lia.
        -- subst v'. destruct (v + 1 >? general); lia.
Qed.

(** X12: two limiters on one route share one counter, since the key names
    the path and the client only.  Each request that passes the first
    limiter counts twice, so the second limiter sees the counts 2, 4, 6,
    ...: when its limit is at most one above the first one's, it lets the
    n-th request of a window pass exactly when 2n is at most its limit. *)
Theorem limiters_in_a_chain_count_twice (general login : Z)
  (w1 w2 : time.Duration) (c : fiber.Ctx) (d0 : N) (rest : list N)
  (r : redis.Client) :
  login <= general + 1 ->
  redis.calm (redis.outages r) ->
  redis.get (redis.advance d0 r) (rate_key c) = None ->
  total rest < 1000 * redis.formatSec w1 ->
  2 * Z.of_nat (S (length rest)) <= redis.maxInt64 ->
  fst (serve_all (RateLimiter general w1 (RateLimiter login w2 fiber.endpoint))
         c (d0 :: rest) r)
  = map (verdict login) (counts 2 2 (S (length rest))).
Proof.
  intros Hl Hc Hg Hw Hmax. pose proof (total_nonneg rest) as Ht.
  rewrite Nat2Z.inj_succ in Hmax.
  rewrite serve_all_cons.
  change (counts 2 2 (S (length rest)))
    with (2 :: counts (2 + 2) 2 (length rest)).
  rewrite map_cons.
  destruct (RateLimiter_first general w1 (RateLimiter login w2 fiber.endpoint)
              c (redis.advance d0 r))
    as (r1 & E1 & K1 & _ & C1 & O1); try assumption.
  { cbn [redis.advance redis.outages]. now apply redis_calm_hd. }
  { cbn [redis.advance redis.outages]. now apply redis_calm_hd, redis_calm_tl. }
  { lia. }
  assert (Hc1 : redis.calm (redis.outages r1)).
  { rewrite O1. cbn [redis.advance redis.outages]. now repeat apply redis_calm_tl. }
  assert (Hd1 : forall d,
             Some (redis.clock (redis.advance d0 r)
                   + 1000 * redis.formatSec w1) = Some d ->
             redis.clock r1 + total rest < d).
  { intros d Hd.
    replace d
      with (redis.clock (redis.advance d0 r) + 1000 * redis.formatSec w1)
      by congruence.
    rewrite C1. lia. }
  rewrite E1. destruct (Z.gtb_spec 1 general) as [G|G].
  - cbn [fst snd]. f_equal.
    + unfold verdict. destruct (Z.gtb_spec 2 login); [reflexivity|lia].
    + apply (serve_all_chain general login w1 w2 c rest Hl r1 1 1 _ K1);
        try assumption; try lia.
      unfold shared. lia.
  - destruct (RateLimiter_counted login w2 fiber.endpoint c r1
                (redis.mkEntry 1
                   (Some (redis.clock (redis.advance d0 r)
                          + 1000 * redis.formatSec w1))))
      as (r2 & E2 & K2 & _ & C2 & O2); cbn [redis.value redis.deadline] in *;
      try lia.
    + apply keys_get; [assumption|]. unfold redis.live.
      cbn [redis.deadline]. apply Z.ltb_lt. rewrite C1. lia.
    + now apply redis_calm_hd.
    + rewrite E2. change (1 + 1) with 2 in *.
      assert (E : (if 2 >? login then (too_many_requests, r2)
                   else fiber.endpoint c r2) = (verdict login 2, r2)).
      { unfold verdict, fiber.endpoint. now destruct (2 >? login). }
      rewrite E. cbn [fst snd]. f_equal.
      apply (serve_all_chain general login w1 w2 c rest Hl r2 1 2 _ K2);
        try lia.
      * unfold shared. lia.
      * rewrite O2. now apply redis_calm_tl.
      * intros d Hd. rewrite C2. now apply Hd1.
Qed.

End LimiterChain.


Section LimiterKeys.
Import middleware.

Lemma append_colon_inj (p p' i i' : string) :
  has_byte ":" i = false -> has_byte ":" i' = false ->
  (p ++ ":" ++ i = p' ++ ":" ++ i')%string -> p = p' /\ i = i'.
Proof.
  intros Hi Hi'. revert p'. induction p as [|a p IH]; intros [|a' p'] H.
  - simpl in H. injection H as ->. now split.
  - simpl in H. injection H as <- ->.
    rewrite has_byte_append in Hi. simpl in Hi.
    now rewrite orb_true_r in Hi.
  - simpl in H. injection H as -> <-.
    rewrite has_byte_append in Hi'. simpl in Hi'.
    now rewrite orb_true_r in Hi'.
  - simpl in H. injection H as -> H. destruct (IH _ H) as [-> ->].
    now split.
Qed.

(** For addresses without a colon, the key names the path and the
    address. *)
Lemma rate_key_inj (c c' : fiber.Ctx) :
  has_byte ":" (fiber.IP c) = false -> has_byte ":" (fiber.IP c') = false ->
  rate_key c = rate_key c' ->
  fiber.Path c = fiber.Path c' /\ fiber.IP c = fiber.IP c'.
Proof.
  intros Hi Hi' H. unfold rate_key in H. simpl in H.
  injection H as H. now apply append_colon_inj.
Qed.

(** The limiter writes no key but the one of its request. *)
Lemma RateLimiter_other_keys (limit : Z) (window : time.Duration)
  (c : fiber.Ctx) (r : redis.Client) (k : string) :
  k <> rate_key c ->
  redis.keys (snd (RateLimiter limit window fiber.endpoint c r)) k
  = redis.keys r k.
Proof.
  intros Hk. apply String.eqb_neq in Hk.
  unfold RateLimiter, redis.Incr, redis.serve.
  destruct (negb (hd false (redis.outages r))); [|reflexivity].
  destruct (redis.get _ (rate_key c)) as [e|].
  - destruct (redis.value e =? redis.maxInt64); [reflexivity|].
    assert (R : forall r2 : redis.Client,
               snd (if redis.value e + 1 >? limit
                    then (too_many_requests, r2)
                    else fiber.endpoint c r2) = r2)
      by (intros r2; now destruct (redis.value e + 1 >? limit)).
    rewrite R.
    destruct (redis.value e + 1 =? 1).
    + unfold redis.Expire, redis.serve.
      cbn [redis.set redis.keys redis.clock redis.outages].
      destruct (negb (hd false (tl (redis.outages r)))); cbn [snd].
      * destruct (redis.get _ (rate_key c)) as [e1|]; cbn [snd].
        -- destruct (redis.formatSec window <=? 0); cbn [snd];
             unfold redis.set; cbn [redis.keys]; now rewrite Hk.
        -- unfold redis.set; cbn [redis.keys]; now rewrite Hk.
      * unfold redis.set; cbn [redis.keys]; now rewrite Hk.
    + unfold redis.set; cbn [redis.keys]; now rewrite Hk.
  - assert (R : forall r2 : redis.Client,
               snd (if 1 >? limit then (too_many_requests, r2)
                    else fiber.endpoint c r2) = r2)
      by (intros r2; now destruct (1 >? limit)).
    rewrite R. change (1 =? 1) with true. cbv iota.
    unfold redis.Expire, redis.serve.
    cbn [redis.set redis.keys redis.clock redis.outages].
    destruct (negb (hd false (tl (redis.outages r)))); cbn [snd].
    + destruct (redis.get _ (rate_key c)) as [e1|]; cbn [snd].
      * destruct (redis.formatSec window <=? 0); cbn [snd];
          unfold redis.set; cbn [redis.keys]; now rewrite Hk.
      * unfold redis.set; cbn [redis.keys]; now rewrite Hk.
    + unfold redis.set; cbn [redis.keys]; now rewrite Hk.
Qed.

(** X13: every pair of a path and a client address has a counter of its
    own, as long as the addresses hold no colon: a request leaves the
    counter of any other path or any other such client as it is. *)
Theorem request_leaves_other_counters (limit : Z) (window : time.Duration)
  (c c' : fiber.Ctx) (r : redis.Client) :
  has_byte ":" (fiber.IP c) = false -> has_byte ":" (fiber.IP c') = false ->
  fiber.Path c <> fiber.Path c' \/ fiber.IP c <> fiber.IP c' ->
  redis.keys (snd (RateLimiter limit window fiber.endpoint c r)) (rate_key c')
  = redis.keys r (rate_key c').
Proof.
  intros Hi Hi' Hne. apply RateLimiter_other_keys. intros E.
  destruct (rate_key_inj c' c Hi' Hi E) as [E1 E2].
  destruct Hne as [N|N]; apply N; congruence.
Qed.


End LimiterKeys.


(** ** The limiter on sample requests *)

(** A limit of 2 and four requests within a minute: two pass, two are
    refused, and the counter stands at 4. *)
Lemma fixed_window_of_the_first_request_witness :
  fst (middleware.serve_all
         (middleware.RateLimiter 2 time.Minute fiber.endpoint)
         (sample_login "203.0.113.7") [0; 1000; 1000; 1000]%N sample_redis)
  = [fiber.Reached; fiber.Reached; middleware.too_many_requests;
     middleware.too_many_requests]
  /\ redis.keys
       (snd (middleware.serve_all
               (middleware.RateLimiter 2 time.Minute fiber.endpoint)
               (sample_login "203.0.113.7") [0; 1000; 1000; 1000]%N
               sample_redis))
       "rate:/api/v1/auth/login:203.0.113.7"
     = Some (redis.mkEntry 4 (Some 60000)).
Proof.
  exact (fixed_window_of_the_first_request 2 time.Minute
           (sample_login "203.0.113.7") 0 [1000; 1000; 1000]%N sample_redis
           (Forall_nil _) eq_refl eq_refl eq_refl).
Defined.

(** The same requests an hour apart, after an [EXPIRE] that failed: the
    third and fourth are still refused. *)
Lemma counter_without_deadline_never_resets_witness :
  fst (middleware.serve_all
         (middleware.RateLimiter 2 time.Minute fiber.endpoint)
         (sample_login "203.0.113.7") [0; 3600000; 3600000; 3600000]%N
         (redis.mkClient (fun _ => None) 0 [false; true]))
  = [fiber.Reached; fiber.Reached; middleware.too_many_requests;
     middleware.too_many_requests]
  /\ redis.keys
       (snd (middleware.serve_all
               (middleware.RateLimiter 2 time.Minute fiber.endpoint)
               (sample_login "203.0.113.7") [0; 3600000; 3600000; 3600000]%N
               (redis.mkClient (fun _ => None) 0 [false; true])))
       "rate:/api/v1/auth/login:203.0.113.7"
     = Some (redis.mkEntry 4 None).
Proof.
  exact (counter_without_deadline_never_resets 2 time.Minute
           (sample_login "203.0.113.7") 0 [3600000; 3600000; 3600000]%N
           (redis.mkClient (fun _ => None) 0 [false; true])
           eq_refl eq_refl (Forall_nil _) eq_refl eq_refl).
Defined.

(** The login of [main], limits 100 and 15: of nine attempts within a
    minute, seven reach the login handler. *)
Lemma limiters_in_a_chain_count_twice_witness :
  fst (middleware.serve_all middleware.login_route
         (sample_login "203.0.113.7")
         [0; 1000; 1000; 1000; 1000; 1000; 1000; 1000; 1000]%N sample_redis)
  = [fiber.Reached; fiber.Reached; fiber.Reached; fiber.Reached;
     fiber.Reached; fiber.Reached; fiber.Reached;
     middleware.too_many_requests; middleware.too_many_requests].
Proof.
  exact (limiters_in_a_chain_count_twice 100 15 (1 * time.Minute)
           (1 * time.Minute) (sample_login "203.0.113.7") 0
           [1000; 1000; 1000; 1000; 1000; 1000; 1000; 1000]%N sample_redis
           ltac:(lia) (Forall_nil _) eq_refl eq_refl
           ltac:(vm_compute; discriminate)).
Defined.

(** A login from one address leaves the counter of another address
    absent. *)
Lemma request_leaves_other_counters_witness :
  redis.keys
    (snd (middleware.RateLimiter 15 time.Minute fiber.endpoint
            (sample_login "203.0.113.7") sample_redis))
    (middleware.rate_key (sample_login "198.51.100.2"))
  = None.
Proof.
  apply (request_leaves_other_counters 15 time.Minute
           (sample_login "203.0.113.7") (sample_login "198.51.100.2")
           sample_redis).
  - reflexivity.
  - reflexivity.
  - right. cbn [fiber.IP sample_login]. intros E. inversion E.
Defined.


(** With addresses that hold colons, two requests on different paths from
    different clients can share a counter. *)
Example rate_key_shared_by_two_clients :
  middleware.rate_key (fiber.mkCtx "/a" "1:2::3")
  = middleware.rate_key (fiber.mkCtx "/a:1" "2::3").
Proof. reflexivity. Qed.


(** * Configuration and allowed origins *)

Section SplitFacts.

Lemma HasPrefix_byte (a c : ascii) (s : string) :
  strings.HasPrefix (String a s) (String c EmptyString) = Ascii.eqb a c.
Proof.
  unfold strings.HasPrefix; simpl. now destruct (Ascii.eqb a c).
Qed.

Lemma Index_byte (c : ascii) (s : string) :
  strings.Index s (String c EmptyString) =
  if has_byte c s then Some (String.length (before_byte c s)) else None.
Proof.
  induction s as [|a s IH].
  - reflexivity.
  - cbn [strings.Index has_byte before_byte]. rewrite HasPrefix_byte.
    destruct (Ascii.eqb a c); simpl; [reflexivity|].
    rewrite IH. now destruct (has_byte c s).
Qed.

Lemma slice_from_after (c : ascii) (s : string) :
  has_byte c s = true ->
  strings.slice_from (String.length (before_byte c s) + 1) s = after_byte c s.
Proof.
  induction s as [|a s IH]; simpl; [discriminate|].
  destruct (Ascii.eqb a c); simpl; [reflexivity|]. exact IH.
Qed.

Lemma after_byte_length (c : ascii) (s : string) :
  has_byte c s = true ->
  (String.length (after_byte c s) < String.length s)%nat.
Proof.
  induction s as [|a s IH]; simpl; [discriminate|].
  destruct (Ascii.eqb a c); simpl; [lia|]. intros H. specialize (IH H). lia.
Qed.

Lemma count_byte_after (c : ascii) (s : string) :
  count_byte c s =
  if has_byte c s then S (count_byte c (after_byte c s)) else O.
Proof.
  induction s as [|a s IH]; simpl; [reflexivity|].
  destruct (Ascii.eqb a c); simpl; [reflexivity|]. exact IH.
Qed.

Lemma fields_after (c : ascii) (s : string) :
  fields c s =
  before_byte c s
  :: (if has_byte c s then fields c (after_byte c s) else []).
Proof.
  induction s as [|a s IH]; simpl; [reflexivity|].
  destruct (Ascii.eqb a c); simpl; [reflexivity|]. now rewrite IH.
Qed.

Lemma before_byte_no_byte (c : ascii) (s : string) :
  has_byte c s = false -> before_byte c s = s.
Proof.
  induction s as [|a s IH]; simpl; [reflexivity|].
  destruct (Ascii.eqb a c); simpl; [discriminate|].
  intros H. now rewrite IH.
Qed.

Lemma before_byte_has_no_byte (c : ascii) (s : string) :
  has_byte c (before_byte c s) = false.
Proof.
  induction s as [|a s IH]; simpl; [reflexivity|].
  destruct (Ascii.eqb a c) eqn:E; simpl; [reflexivity|]. now rewrite E.
Qed.

Lemma count_from_byte (c : ascii) (searches : nat) :
  forall s : string,
    (String.length s <= searches)%nat ->
    strings_split.count_from searches s (String c EmptyString)
    = count_byte c s.
Proof.
  induction searches as [|n IH]; intros s Hs.
  - destruct s; [reflexivity|simpl in Hs; lia].
  - cbn [strings_split.count_from]. rewrite Index_byte, count_byte_after.
    destruct (has_byte c s) eqn:Hb; [|reflexivity].
    cbn [String.length]. rewrite slice_from_after by assumption.
    rewrite IH; [reflexivity|].
    pose proof (after_byte_length c s Hb). lia.
Qed.

Lemma SplitN_fields (c : ascii) (n : nat) :
  forall s : string,
    (count_byte c s <= n)%nat ->
    strings.SplitN s (String c EmptyString) (S n) = fields c s.
Proof.
  induction n as [|n IH]; intros s Hs; rewrite fields_after;
    rewrite count_byte_after in Hs.
  - destruct (has_byte c s) eqn:Hb; [lia|].
    now rewrite before_byte_no_byte.
  - change (strings.SplitN s (String c EmptyString) (S (S n)))
      with (match strings.Index s (String c EmptyString) with
            | None => [s]
            | Some m =>
                strings.slice_to m s
                :: strings.SplitN
                     (strings.slice_from
                        (m + String.length (String c EmptyString)) s)
                     (String c EmptyString) (S n)
            end).
    rewrite Index_byte.
    destruct (has_byte c s) eqn:Hb.
    + rewrite slice_to_before. cbn [String.length].
      rewrite slice_from_after by assumption. rewrite IH; [reflexivity|lia].
    + now rewrite before_byte_no_byte.
Qed.

(** [strings.Split] on a separator of one byte gives the texts between the
    separators. *)
Lemma Split_fields (c : ascii) (s : string) :
  strings_split.Split s (String c EmptyString) = fields c s.
Proof.
  unfold strings_split.Split, strings_split.Count.
  rewrite count_from_byte by lia. rewrite Nat.add_1_r.
  now apply SplitN_fields.
Qed.

Lemma fields_have_no_byte (c : ascii) (s o : string) :
  In o (fields c s) -> has_byte c o = false.
Proof.
  remember (String.length s) as n eqn:Hn. revert s Hn o.
  induction n as [n IH] using lt_wf_ind. intros s Hn o.
  rewrite fields_after. intros [<-|H].
  - apply before_byte_has_no_byte.
  - destruct (has_byte c s) eqn:Hb; [|contradiction].
    apply (IH (String.length (after_byte c s))) with (s := after_byte c s);
      [|reflexivity|assumption].
    subst n. now apply after_byte_length.
Qed.

Lemma AllowOriginsFunc_In (allowed : list string) (origin : string) :
  main.AllowOriginsFunc allowed origin = true <-> In origin allowed.
Proof.
  induction allowed as [|o rest IH]; simpl.
  - split; [discriminate|contradiction].
  - destruct (String.eqb_spec origin o) as [->|N].
    + split; auto.
    + rewrite IH. split; [auto|]. intros [E|H]; [congruence|assumption].
Qed.

End SplitFacts.

(** X15: an origin is allowed exactly when it is, byte for byte, one of the
    texts between the commas of CORS_ALLOWED_ORIGINS: nothing is trimmed,
    no pattern is matched, and an origin that holds a comma is never
    allowed. *)
Theorem origin_allowed_iff_listed (env : os_env.Environ) (origin : string) :
  main.AllowOriginsFunc (main.allowedOrigins env) origin = true
  <-> has_byte "," origin = false
      /\ In origin (fields "," (os_env.Getenv env "CORS_ALLOWED_ORIGINS")).
Proof.
  unfold main.allowedOrigins. rewrite Split_fields, AllowOriginsFunc_In.
  split.
  - intros H. split; [|assumption]. now apply fields_have_no_byte in H.
  - now intros [_ H].
Qed.

Section ConfigFacts.

Lemma getEnv_not_empty (env : os_env.Environ) (key defaultValue : string) :
  defaultValue <> EmptyString ->
  config.getEnv env key defaultValue <> EmptyString.
Proof.
  intros Hd. unfold config.getEnv. cbv zeta.
  destruct (String.eqb_spec (os_env.Getenv env key) EmptyString);
    cbn [negb]; assumption.
Qed.

Lemma getEnv_without_empty (env : os_env.Environ) (key defaultValue : string) :
  config.getEnv (without_empty env) key defaultValue
  = config.getEnv env key defaultValue.
Proof.
  unfold config.getEnv, os_env.Getenv, without_empty. cbv zeta.
  destruct (env key) as [value|]; [|reflexivity].
  destruct (String.eqb value EmptyString) eqn:E; cbn [negb].
  - reflexivity.
  - now rewrite E.
Qed.

End ConfigFacts.

(** X16: whatever the environment, no field of the configuration is empty;
    a variable set to the empty string counts as not set, so that its
    default is used (for JWT_SECRET, the secret written in the code); and
    the port [main] listens on is the configuration's. *)
Theorem LoadConfig_has_no_empty_field (env : os_env.Environ) :
  Forall (fun value => value <> EmptyString)
    (config.values (config.LoadConfig env))
  /\ config.LoadConfig (without_empty env) = config.LoadConfig env
  /\ main.port env = config.AppPort (config.LoadConfig env).
Proof.
  split; [|split].
  - unfold config.values, config.LoadConfig.
    cbn [config.DBHost config.DBPort config.DBUser config.DBPassword
         config.DBName config.RedisHost config.RedisPort config.JWTSecret
         config.AppPort].
    repeat constructor; apply getEnv_not_empty; discriminate.
  - unfold config.LoadConfig. now rewrite !getEnv_without_empty.
  - unfold main.port, config.LoadConfig, config.getEnv. cbn [config.AppPort].
    cbv zeta. now destruct (String.eqb (os_env.Getenv env "APP_PORT") "").
Qed.

(** An environment that sets only an empty JWT_SECRET: the secret is the
    default. *)
Example empty_secret_is_the_default :
  config.JWTSecret (config.LoadConfig (sample_env [("JWT_SECRET", "")]%string))
  = "your-secret-key"%string.
Proof. reflexivity. Qed.

(** The origins [https://a.example, https://b.example]: the second is not
    allowed without its leading space. *)
Example origins_are_not_trimmed :
  main.AllowOriginsFunc
    (main.allowedOrigins
       (sample_env
          [("CORS_ALLOWED_ORIGINS",
            "https://a.example, https://b.example")]%string))
    "https://b.example"%string = false
  /\ main.AllowOriginsFunc (main.allowedOrigins (sample_env [])) ""%string = true.
Proof. split; reflexivity. Qed.


(** * The paths of the proof files *)

Section PathFacts.

Lemma fields_no_byte (c : ascii) (s : string) :
  has_byte c s = false -> fields c s = [s].
Proof.
  intros H. rewrite fields_after, H. now rewrite before_byte_no_byte.
Qed.

Lemma fields_app_byte (c : ascii) (a rest : string) :
  has_byte c a = false ->
  fields c (a ++ String c rest) = a :: fields c rest.
Proof.
  induction a as [|x a IH]; simpl.
  - now rewrite Ascii.eqb_refl.
  - intros H. apply orb_false_elim in H. destruct H as [Hx Ha].
    rewrite Hx, (IH Ha). reflexivity.
Qed.

Lemma last_fields (c : ascii) (s : string) :
  In (last (fields c s) EmptyString) (fields c s).
Proof.
  assert (H : forall (l : list string) (d x : string), In (last (x :: l) d) (x :: l)).
  { induction l as [|y l IH]; intros d x; [now left|].
    right. exact (IH d y). }
  rewrite fields_after at 1 2. apply H.
Qed.

Lemma strip_trailing_append (a name : string) :
  has_byte "/" name = false -> name <> EmptyString ->
  filepath_unix.strip_trailing (a ++ name) = (a ++ name)%string.
Proof.
  intros Hs Hn.
  assert (B : filepath_unix.strip_trailing name = name).
  { clear Hn. induction name as [|x name IH]; [reflexivity|].
    simpl in Hs. apply orb_false_elim in Hs. destruct Hs as [Hx Hs].
    cbn [filepath_unix.strip_trailing]. rewrite (IH Hs), Hx.
    now destruct name. }
  induction a as [|x a IH]; [exact B|].
  cbn [append filepath_unix.strip_trailing]. rewrite IH.
  destruct (a ++ name)%string eqn:E; [|reflexivity].
  destruct a; [|discriminate]. simpl in E. contradiction.
Qed.

(** The last element of a path is [.], or [/], or a name that holds no
    slash. *)
Lemma Base_cases (path : string) :
  filepath_unix.Base path = "."%string \/ filepath_unix.Base path = "/"%string
  \/ (has_byte "/" (filepath_unix.Base path) = false
      /\ filepath_unix.Base path <> EmptyString).
Proof.
  unfold filepath_unix.Base.
  destruct (String.eqb path EmptyString); [now left|]. cbv zeta.
  destruct (String.eqb_spec
              (last (fields "/" (filepath_unix.strip_trailing path))
                 EmptyString) EmptyString) as [E|N].
  - right. now left.
  - right. right. split; [|assumption].
    apply (fields_have_no_byte "/" (filepath_unix.strip_trailing path)).
    apply last_fields.
Qed.

(** [filepath.Clean] of a name under [uploads/proofs], with or without a
    leading [./]. *)
Lemma Clean_under_proofs (name : string) :
  has_byte "/" name = false -> name <> EmptyString ->
  filepath_unix.Clean ("uploads/proofs/" ++ name)
  = (if String.eqb name "." then "uploads/proofs"%string
     else if String.eqb name ".." then "uploads"%string
     else ("uploads/proofs/" ++ name)%string)
  /\ filepath_unix.Clean ("./uploads/proofs/" ++ name)
     = filepath_unix.Clean ("uploads/proofs/" ++ name).
Proof.
  intros Hs Hn. apply String.eqb_neq in Hn.
  assert (F : fields "/" ("uploads/proofs/" ++ name)
              = ["uploads"; "proofs"; name]%string).
  { change ("uploads/proofs/" ++ name)%string
      with ("uploads" ++ String "/" ("proofs" ++ String "/" name))%string.
    rewrite !fields_app_byte by reflexivity. now rewrite fields_no_byte. }
  assert (F' : fields "/" ("./uploads/proofs/" ++ name)
               = ["."; "uploads"; "proofs"; name]%string).
  { change ("./uploads/proofs/" ++ name)%string
      with ("." ++ String "/" ("uploads/proofs/" ++ name))%string.
    rewrite fields_app_byte by reflexivity. now rewrite F. }
  unfold filepath_unix.Clean.
  change (String.eqb ("uploads/proofs/" ++ name) EmptyString) with false.
  change (String.eqb ("./uploads/proofs/" ++ name) EmptyString) with false.
  change (strings.HasPrefix ("uploads/proofs/" ++ name) "/") with false.
  change (strings.HasPrefix ("./uploads/proofs/" ++ name) "/") with false.
  cbv iota zeta. rewrite F, F'.
  change (filepath_unix.clean_elements false []
            ["."; "uploads"; "proofs"; name]%string)
    with (filepath_unix.clean_elements false []
            ["uploads"; "proofs"; name]%string).
  split; [|reflexivity].
  change (filepath_unix.clean_elements false []
            ["uploads"; "proofs"; name]%string)
    with (filepath_unix.clean_elements false ["proofs"; "uploads"]%string
            [name]).
  cbn [filepath_unix.clean_elements]. rewrite Hn. cbn [orb].
  destruct (String.eqb name "."); [reflexivity|].
  destruct (String.eqb name ".."); [reflexivity|].
  cbn [rev app String.concat]. reflexivity.
Qed.

End PathFacts.

(** X17: whatever proof path a transaction holds, the file that is looked
    up, sent or removed for it is [uploads], [uploads/proofs] or an entry
    of [uploads/proofs]: no stored path leads out of the upload directory,
    though one that ends in [..] or [.] names a directory. *)
Theorem stored_path_is_confined (proofFile : string) :
  confined (transaction_handler.stored_path proofFile).
Proof.
  unfold transaction_handler.stored_path, filepath_unix.join.
  change (String.eqb "uploads" EmptyString) with false. cbv iota.
  change (String.concat "/"
            ["uploads"; "proofs"; filepath_unix.Base proofFile]%string)
    with ("uploads/proofs/" ++ filepath_unix.Base proofFile)%string.
  destruct (Base_cases proofFile) as [E|[E|[Hs Hn]]].
  - rewrite E. right. left. reflexivity.
  - rewrite E. right. left. reflexivity.
  - destruct (Clean_under_proofs _ Hs Hn) as [-> _].
    destruct (String.eqb_spec (filepath_unix.Base proofFile) ".") as [E1|N1];
      [right; now left|].
    destruct (String.eqb_spec (filepath_unix.Base proofFile) "..") as [E2|N2];
      [now left|].
    right. right. exists (filepath_unix.Base proofFile). repeat split;
      assumption.
Qed.

(** X18: a proof file that is uploaded under a name without a slash is
    saved as [uploads/proofs/<time>_<name>], and that path, once stored, is
    the one [GetProofFile] sends and [UpdateTransaction] removes. *)
Theorem uploaded_file_is_the_stored_file (time name : string) :
  has_byte "/" time = false -> has_byte "/" name = false ->
  filepath_unix.join ["./uploads/proofs"; time ++ "_" ++ name]%string
  = ("uploads/proofs/" ++ time ++ "_" ++ name)%string
  /\ transaction_handler.stored_path
       ("uploads/proofs/" ++ time ++ "_" ++ name)
     = ("uploads/proofs/" ++ time ++ "_" ++ name)%string.
Proof.
  intros Ht Hf.
  assert (Hs : has_byte "/" (time ++ "_" ++ name) = false).
  { rewrite has_byte_append, Ht. simpl. exact Hf. }
  assert (Hu : has_byte "_" (time ++ "_" ++ name) = true).
  { rewrite has_byte_append. simpl. now rewrite orb_true_r. }
  assert (Hn : (time ++ "_" ++ name)%string <> EmptyString)
    by (intros E; rewrite E in Hu; discriminate).
  assert (N1 : String.eqb (time ++ "_" ++ name) "." = false).
  { apply String.eqb_neq. intros E. rewrite E in Hu. discriminate. }
  assert (N2 : String.eqb (time ++ "_" ++ name) ".." = false).
  { apply String.eqb_neq. intros E. rewrite E in Hu. discriminate. }
  destruct (Clean_under_proofs _ Hs Hn) as [C1 C2].
  rewrite N1, N2 in C1.
  split.
  - unfold filepath_unix.join.
    change (String.eqb "./uploads/proofs" EmptyString) with false. cbv iota.
    change (String.concat "/"
              ["./uploads/proofs"; time ++ "_" ++ name]%string)
      with ("./uploads/proofs/" ++ (time ++ "_" ++ name))%string.
    now rewrite C2, C1.
  - unfold transaction_handler.stored_path.
    assert (B : filepath_unix.Base ("uploads/proofs/" ++ time ++ "_" ++ name)
                = (time ++ "_" ++ name)%string).
    { unfold filepath_unix.Base.
      change (String.eqb ("uploads/proofs/" ++ time ++ "_" ++ name)
                EmptyString) with false. cbv iota zeta.
      rewrite (strip_trailing_append "uploads/proofs/" _ Hs Hn).
      change ("uploads/proofs/" ++ time ++ "_" ++ name)%string
        with ("uploads"
              ++ String "/" ("proofs"
                             ++ String "/" (time ++ "_" ++ name)))%string.
      rewrite !fields_app_byte by reflexivity. rewrite fields_no_byte by exact Hs.
      cbn [last]. apply String.eqb_neq in Hn. now rewrite Hn. }
    rewrite B. unfold filepath_unix.join.
    change (String.eqb "uploads" EmptyString) with false. cbv iota.
    change (String.concat "/"
              ["uploads"; "proofs"; time ++ "_" ++ name]%string)
      with ("uploads/proofs/" ++ (time ++ "_" ++ name))%string.
    exact C1.
Qed.

(** A stored path that ends in [..] names the directory [uploads]; an
    uploaded name with slashes can leave [uploads/proofs]. *)
Example stored_path_of_dots :
  transaction_handler.stored_path "uploads/proofs/.." = "uploads"%string
  /\ filepath_unix.join ["./uploads/proofs"; "1700000000_../../../x"]%string
     = "uploads/x"%string.
Proof. split; reflexivity. Qed.

(** The file [receipt.png], uploaded at 1700000000. *)
Lemma uploaded_file_is_the_stored_file_witness :
  filepath_unix.join ["./uploads/proofs"; "1700000000_receipt.png"]%string
  = "uploads/proofs/1700000000_receipt.png"%string
  /\ transaction_handler.stored_path "uploads/proofs/1700000000_receipt.png"
     = "uploads/proofs/1700000000_receipt.png"%string.
Proof.
  exact (uploaded_file_is_the_stored_file "1700000000" "receipt.png"
           eq_refl eq_refl).
Defined.


(** * The transaction handlers *)

Section HandlerFacts.
Import fiber_ctx transaction_handler.
Context {W : Type} (b : Backend W).

Ltac handler_step :=
  match goal with
  | |- context [userID_of ?c] => destruct (userID_of c) eqn:?
  | |- context [uuidParse ?b ?s] => destruct (uuidParse b s) eqn:?
  | |- context [BodyParser ?c] => destruct (BodyParser c) eqn:?
  | |- context [QueryParser ?c] => destruct (QueryParser c) eqn:?
  | |- context [validateCreate ?b ?r] => destruct (validateCreate b r) eqn:?
  | |- context [validateUpdate ?b ?r] => destruct (validateUpdate b r) eqn:?
  | |- context [validateParams ?b ?r] => destruct (validateParams b r) eqn:?
  | |- context [svcGetTransactionByID ?b ?i ?s] =>
      destruct (svcGetTransactionByID b i s) as [[?|[?|]] ?] eqn:?
  | |- context [svcUpdateTransaction ?b ?i ?r ?p ?s] =>
      destruct (svcUpdateTransaction b i r p s) as [[?|?] ?] eqn:?
  | |- context [svcCreateTransaction ?b ?r ?u ?p ?s] =>
      destruct (svcCreateTransaction b r u p s) as [[?|?] ?] eqn:?
  | |- context [svcDeleteTransaction ?b ?i ?s] =>
      destruct (svcDeleteTransaction b i s) as [[?|] ?] eqn:?
  | |- context [svcGetTransactionsWithPagination ?b ?u ?p ?s] =>
      destruct (svcGetTransactionsWithPagination b u p s) as [[?|?] ?] eqn:?
  | |- context [svcGetSummaryTransaction ?b ?u ?s] =>
      destruct (svcGetSummaryTransaction b u s) as [[?|?] ?] eqn:?
  | |- context [FormFile ?c ?n] => destruct (FormFile c n) eqn:?
  | |- context [osMkdirAll ?b ?d ?s] =>
      destruct (osMkdirAll b d s) as [[|] ?] eqn:?
  | |- context [cSaveFile ?b ?f ?p ?s] =>
      destruct (cSaveFile b f p s) as [[|] ?] eqn:?
  | |- context [osStat ?b ?p ?s] => destruct (osStat b p s) eqn:?
  | |- context [String.eqb ?x ?y] => destruct (String.eqb x y) eqn:?
  end;
  cbn [fst snd state calls negb].

Ltac calls_made :=
  unfold calls_from; cbn [snd fst calls state];
  rewrite <- ?app_assoc; rewrite ?skipn_length_app, ?skipn_all; cbn [app].

(** X19: [UpdateTransaction] and [DeleteTransaction] change nothing for a
    caller who does not own the transaction: the service's update and
    delete are called, a file is saved or removed, only after the service
    has returned the transaction of the route and its user is the
    caller. *)
Theorem only_the_owner_changes_a_transaction
  (c : Ctx Request TransactionListParams) (w : World W) (k : Call) :
  In k (calls_from w (snd (UpdateTransaction b c w)))
  \/ In k (calls_from w (snd (DeleteTransaction b c w))) ->
  changes k = true ->
  exists userID id tx,
    userID_of c = Some userID
    /\ uuidParse b (Params c "id") = Some id
    /\ fst (svcGetTransactionByID b id (state w)) = inr (Some tx)
    /\ UserID tx = userID.
Proof.
  intros [H|H] Hk; revert H;
    [unfold UpdateTransaction|unfold DeleteTransaction];
    unfold id_of, upload, call; cbn [fst snd state calls negb];
    repeat handler_step; calls_made; intros H; cbn [In] in H;
    repeat (destruct H as [H|H]); try contradiction; subst k;
    try discriminate Hk;
    eexists _, _, _;
    (split; [reflexivity|]); (split; [reflexivity|]);
    (split;
     [match goal with
      | E : svcGetTransactionByID _ _ _ = _ |- _ => rewrite E; reflexivity
      end
     |match goal with
      | E : String.eqb _ _ = true |- _ =>
          apply String.eqb_eq in E; exact E
      end]).
Qed.

(** X20: the reads check no owner.  Whoever the authenticated caller is, and
    whoever the user of the transaction, [GetTransactionByID] answers with
    the transaction the service returns for the id of the route, and
    [GetProofFile] sends its proof file. *)
Theorem reads_do_not_check_the_owner
  (c : Ctx Request TransactionListParams) (w : World W) (u id : UUID)
  (tx : Transaction) (s : W) :
  userID_of c = Some u ->
  TrimSpace b (Params c "id") <> EmptyString ->
  uuidParse b (Params c "id") = Some id ->
  svcGetTransactionByID b id (state w) = (inr (Some tx), s) ->
  ProofFile tx <> EmptyString ->
  osStat b (stored_path (ProofFile tx)) s <> StatNotExist ->
  fst (GetTransactionByID b c w)
  = Found "Transaction retrieved successfully" (Some tx)
  /\ fst (GetProofFile b c w) = SendFile (stored_path (ProofFile tx)).
Proof.
  intros Hu Ht Hid Hg Hp Hs.
  apply String.eqb_neq in Ht, Hp.
  unfold GetTransactionByID, GetProofFile, id_of, call.
  rewrite Hu, Ht, Hid, Hg, Hp. cbn [fst snd state].
  split; [reflexivity|].
  destruct (osStat b (stored_path (ProofFile tx)) s); try reflexivity.
  now contradiction Hs.
Qed.

(** X21: the service never sees a missing list parameter: the page and the
    limit it is called with are not 0, the sort field and the order are not
    empty (1, 10, [date] and [desc] stand in), and the parameters have
    passed validation with these values in place. *)
Theorem list_parameters_have_defaults
  (c : Ctx Request TransactionListParams) (w : World W) (u : UUID)
  (params : TransactionListParams) :
  In (SvcList u params)
    (calls_from w (snd (GetTransactionsWithPagination b c w))) ->
  userID_of c = Some u
  /\ validateParams b params = None
  /\ (exists given,
        QueryParser c = Some given
        /\ Page params = (if Page given =? 0 then 1 else Page given)
        /\ Limit params = (if Limit given =? 0 then 10 else Limit given))
  /\ Page params <> 0 /\ Limit params <> 0
  /\ SortBy params <> EmptyString /\ OrderBy params <> EmptyString.
Proof.
  unfold GetTransactionsWithPagination, call.
  destruct (userID_of c) as [u'|]; [|calls_made; contradiction].
  destruct (QueryParser c) as [given|]; [|calls_made; contradiction].
  cbv zeta.
  destruct (validateParams b _) eqn:Ev; [calls_made; contradiction|].
  destruct (svcGetTransactionsWithPagination b _ _ _) as [[err|result] s];
    calls_made; (intros [H|[]]); injection H as <- <-;
    (split; [reflexivity|]); (split; [exact Ev|]);
    (split; [exists given; repeat split; reflexivity|]);
    cbn [Page Limit SortBy OrderBy];
    (repeat split;
     [destruct (Z.eqb_spec (Page given) 0); [discriminate|assumption]
     |destruct (Z.eqb_spec (Limit given) 0); [discriminate|assumption]
     |destruct (String.eqb_spec (SortBy given) EmptyString);
      [discriminate|assumption]
     |destruct (String.eqb_spec (OrderBy given) EmptyString);
      [discriminate|assumption]]).
Qed.

(** X22: the old proof file goes before the update.  When
    [UpdateTransaction] removes a file, the removal is followed by one call
    only, the service's update, and the answer is that of the update: when
    the update fails, the transaction still names a file that is gone. *)
Theorem old_proof_is_removed_before_the_update
  (c : Ctx Request TransactionListParams) (w : World W) (path : string) :
  In (Remove path) (calls_from w (snd (UpdateTransaction b c w))) ->
  exists before id req newPath s,
    calls_from w (snd (UpdateTransaction b c w))
    = before ++ [Remove path; SvcUpdate id req newPath]
    /\ fst (UpdateTransaction b c w)
       = match fst (svcUpdateTransaction b id req newPath s) with
         | inl err => Failed err
         | inr result =>
             Success "Transaction updated successfully" (Some result)
         end.
Proof.
  unfold UpdateTransaction, id_of, upload, call;
    cbn [fst snd state calls negb];
    repeat handler_step; calls_made; intros H; cbn [In] in H;
    repeat (destruct H as [H|H]); try contradiction; try discriminate H;
    injection H as <-;
    eexists [_; _; _; _], _, _, _, _; (split; [reflexivity|]);
    match goal with
    | E : svcUpdateTransaction _ _ _ _ _ = _ |- _ => rewrite E; reflexivity
    end.
Qed.

(** X25: the handlers act for the caller only.  Whenever
    [CreateTransaction], [GetTransactionsWithPagination] or
    [GetSummaryTransaction] call the service for a user, that user is the
    one the request is authenticated as; and a transaction is created only
    from a body that has passed validation, with no proof path or with the
    path a file has just been saved under. *)
Theorem service_acts_for_the_caller
  (c : Ctx Request TransactionListParams) (w : World W) (k : Call)
  (u : UUID) :
  In k (calls_from w (snd (CreateTransaction b c w)))
  \/ In k (calls_from w (snd (GetTransactionsWithPagination b c w)))
  \/ In k (calls_from w (snd (GetSummaryTransaction b c w))) ->
  acts_for k = Some u ->
  userID_of c = Some u
  /\ forall req path,
       k = SvcCreate req u path ->
       BodyParser c = Some req /\ validateCreate b req = []
       /\ (path = EmptyString
           \/ exists file,
                In (SaveFile file path)
                  (calls_from w (snd (CreateTransaction b c w)))).
Proof.
  intros [H|[H|H]] Hk; revert H;
    [unfold CreateTransaction|unfold GetTransactionsWithPagination
    |unfold GetSummaryTransaction];
    unfold upload, call; cbn [fst snd state calls negb];
    repeat handler_step; calls_made; intros H; cbn [In] in H;
    repeat (destruct H as [H|H]); try contradiction; subst k;
    try discriminate Hk; injection Hk as <-;
    (split; [reflexivity|]); intros req path E; try discriminate E;
    injection E as <- <-;
    (split; [reflexivity|]); (split; [assumption|]);
    try (left; reflexivity);
    right; eexists; cbn [In]; right; left; reflexivity.
Qed.

End HandlerFacts.


(** ** The handlers on sample requests *)

(** The owner deletes the transaction. *)
Lemma only_the_owner_changes_a_transaction_witness :
  exists userID id tx,
    transaction_handler.userID_of (sample_ctx "user-a" "tx-1" None)
    = Some userID
    /\ transaction_handler.uuidParse (sample_backend true)
         (fiber_ctx.Params (sample_ctx "user-a" "tx-1" None) "id")
       = Some id
    /\ fst (transaction_handler.svcGetTransactionByID (sample_backend true) id
              (transaction_handler.state sample_handler_world))
       = inr (Some tx)
    /\ transaction_handler.UserID tx = userID.
Proof.
  apply (only_the_owner_changes_a_transaction (sample_backend true)
           (sample_ctx "user-a" "tx-1" None) sample_handler_world
           (transaction_handler.SvcDelete "tx-1"%string)).
  - right. vm_compute. right. left. reflexivity.
  - reflexivity.
Defined.

(** The user [user-b] reads the transaction of [user-a], and its proof
    file. *)
Lemma reads_do_not_check_the_owner_witness :
  fst (transaction_handler.GetTransactionByID (sample_backend true)
         (sample_ctx "user-b" "tx-1" None) sample_handler_world)
  = transaction_handler.Found "Transaction retrieved successfully"
      (Some sample_tx)
  /\ fst (transaction_handler.GetProofFile (sample_backend true)
            (sample_ctx "user-b" "tx-1" None) sample_handler_world)
     = transaction_handler.SendFile "uploads/proofs/1_a.png".
Proof.
  apply (reads_do_not_check_the_owner (sample_backend true)
           (sample_ctx "user-b" "tx-1" None) sample_handler_world
           "user-b"%string "tx-1"%string sample_tx []).
  - reflexivity.
  - discriminate.
  - reflexivity.
  - reflexivity.
  - discriminate.
  - discriminate.
Defined.

(** A request without list parameters: the service is asked for page 1 of
    10, by date, latest first. *)
Lemma list_parameters_have_defaults_witness :
  transaction_handler.userID_of (sample_ctx "user-a" "" None)
  = Some "user-a"%string
  /\ transaction_handler.validateParams (sample_backend true)
       (transaction_handler.mkParams 1 10 "date" "desc")
     = None
  /\ (exists given,
        fiber_ctx.QueryParser (sample_ctx "user-a" "" None) = Some given
        /\ 1 = (if transaction_handler.Page given =? 0 then 1
                else transaction_handler.Page given)
        /\ 10 = (if transaction_handler.Limit given =? 0 then 10
                 else transaction_handler.Limit given))
  /\ 1 <> 0 /\ 10 <> 0
  /\ "date"%string <> EmptyString /\ "desc"%string <> EmptyString.
Proof.
  apply (list_parameters_have_defaults (sample_backend true)
           (sample_ctx "user-a" "" None) sample_handler_world "user-a"%string
           (transaction_handler.mkParams 1 10 "date" "desc")).
  vm_compute. left. reflexivity.
Defined.

(** The owner uploads a new proof file and the update fails: the old file
    has been removed, and the answer is the failure. *)
Lemma old_proof_is_removed_before_the_update_witness :
  fst (transaction_handler.UpdateTransaction (sample_backend false)
         (sample_ctx "user-a" "tx-1"
            (Some (fiber_ctx.mkFileHeader "b.png")))
         sample_handler_world)
  = transaction_handler.Failed "update failed"%string
  /\ exists before id req newPath,
       transaction_handler.calls_from sample_handler_world
         (snd (transaction_handler.UpdateTransaction (sample_backend false)
                 (sample_ctx "user-a" "tx-1"
                    (Some (fiber_ctx.mkFileHeader "b.png")))
                 sample_handler_world))
       = before
         ++ [transaction_handler.Remove "uploads/proofs/1_a.png";
             transaction_handler.SvcUpdate id req newPath].
Proof.
  split; [reflexivity|].
  destruct (old_proof_is_removed_before_the_update (sample_backend false)
              (sample_ctx "user-a" "tx-1"
                 (Some (fiber_ctx.mkFileHeader "b.png")))
              sample_handler_world "uploads/proofs/1_a.png")
    as (before & id & req & newPath & _ & E & _).
  - vm_compute. do 4 right. left. reflexivity.
  - exists before, id, req, newPath. exact E.
Defined.

(** A transaction created with a proof file: the service is called for the
    caller, with the path the file was saved under. *)
Lemma service_acts_for_the_caller_witness :
  transaction_handler.userID_of
    (sample_ctx "user-a" "" (Some (fiber_ctx.mkFileHeader "b.png")))
  = Some "user-a"%string
  /\ In (transaction_handler.SaveFile (fiber_ctx.mkFileHeader "b.png")
           "uploads/proofs/1700000000_b.png")
       (transaction_handler.calls_from sample_handler_world
          (snd (transaction_handler.CreateTransaction (sample_backend true)
                  (sample_ctx "user-a" ""
                     (Some (fiber_ctx.mkFileHeader "b.png")))
                  sample_handler_world))).
Proof.
  destruct (service_acts_for_the_caller (sample_backend true)
              (sample_ctx "user-a" "" (Some (fiber_ctx.mkFileHeader "b.png")))
              sample_handler_world
              (transaction_handler.SvcCreate "body"%string "user-a"%string
                 "uploads/proofs/1700000000_b.png")
              "user-a"%string)
    as [U C].
  - left. vm_compute. do 2 right. left. reflexivity.
  - reflexivity.
  - split; [exact U|].
    destruct (C _ _ eq_refl) as (_ & _ & [E|[file F]]); [discriminate E|].
    vm_compute. right. left. reflexivity.
Defined.


(** * The handlers of the spending limits *)

Section LimitFacts.
Import fiber_ctx maximum_spend_handler.
Context {Amount Id W Query : Type} (b : Backend Amount Id W).

(** X23: the service of the limits is called only for the user whose id
    parses from the string held under [user_id], and [SetMaximumSpend]
    calls it only with the three limits of a body that has passed
    validation. *)
Theorem limits_are_called_for_the_parsed_user
  (c : Ctx (MaximumSpendRequest Amount) Query) (w : World Amount W)
  (k : Call Amount) :
  In k (calls_from w (snd (SetMaximumSpend b c w)))
  \/ In k (calls_from w (snd (GetMaximumSpend b c w))) ->
  exists text userID,
    Locals c "user_id" = LocalString text
    /\ uuidParse b text = Some userID
    /\ (k = SvcGet userID
        \/ exists req,
             BodyParser c = Some req /\ validateStruct b req = None
             /\ k = SvcSet userID (reqDailyLimit req) (reqMonthlyLimit req)
                      (reqYearlyLimit req)).
Proof.
  intros [H|H]; revert H;
    [unfold SetMaximumSpend|unfold GetMaximumSpend]; unfold user_of, call.
  - destruct (BodyParser c) as [req|];
      [|unfold calls_from; cbn [snd]; rewrite skipn_all; contradiction].
    destruct (validateStruct b req) eqn:Ev;
      [unfold calls_from; cbn [snd]; rewrite skipn_all; contradiction|].
    destruct (Locals c "user_id") as [|text| |];
      try (unfold calls_from; cbn [snd]; rewrite skipn_all; contradiction).
    destruct (uuidParse b text) as [u|] eqn:Eu;
      [|unfold calls_from; cbn [snd]; rewrite skipn_all; contradiction].
    destruct (svcSetMaximumSpend b u _ _ _ (state w)) as [[e|ms] s];
      unfold calls_from; cbn [snd calls]; rewrite skipn_length_app;
      (intros [H|[]]); subst k; exists text, u;
      (split; [reflexivity|]); (split; [exact Eu|]); right; exists req;
      repeat split; assumption.
  - destruct (Locals c "user_id") as [|text| |];
      try (unfold calls_from; cbn [snd]; rewrite skipn_all; contradiction).
    destruct (uuidParse b text) as [u|] eqn:Eu;
      [|unfold calls_from; cbn [snd]; rewrite skipn_all; contradiction].
    destruct (svcGetMaximumSpend b u (state w)) as [[e|ms] s];
      unfold calls_from; cbn [snd calls]; rewrite skipn_length_app;
      (intros [H|[]]); subst k; exists text, u;
      (split; [reflexivity|]); (split; [exact Eu|]); now left.
Qed.

(** X24: the user id is asserted to be a string without a check.  A request
    whose [user_id] holds a value of another type, a [uuid.UUID] for one,
    makes [GetMaximumSpend] panic, and [SetMaximumSpend] too once the body
    is valid; the service is not called. *)
Theorem user_id_of_another_type_panics
  (c : Ctx (MaximumSpendRequest Amount) Query) (w : World Amount W) :
  Locals c "user_id" <> LocalNil ->
  (forall text, Locals c "user_id" <> LocalString text) ->
  GetMaximumSpend b c w = (Panic, w)
  /\ forall req,
       BodyParser c = Some req -> validateStruct b req = None ->
       SetMaximumSpend b c w = (Panic, w).
Proof.
  intros Hn Hs.
  assert (U : user_of b c = inl Panic).
  { unfold user_of. destruct (Locals c "user_id") as [|text| |];
      try reflexivity; [contradiction|now contradiction (Hs text)]. }
  split.
  - unfold GetMaximumSpend. now rewrite U.
  - intros req Hb Hv. unfold SetMaximumSpend. now rewrite Hb, Hv, U.
Qed.

End LimitFacts.

(** A limit is set for the user whose id is held as a string. *)
Lemma limits_are_called_for_the_parsed_user_witness :
  exists text userID,
    fiber_ctx.Locals (sample_limits_ctx (fiber_ctx.LocalString "user-a"%string))
      "user_id"
    = fiber_ctx.LocalString text
    /\ maximum_spend_handler.uuidParse sample_limits text = Some userID
    /\ (maximum_spend_handler.SvcSet "user-a"%string 10 100 1000
        = maximum_spend_handler.SvcGet userID
        \/ exists req,
             fiber_ctx.BodyParser
               (sample_limits_ctx (fiber_ctx.LocalString "user-a"%string))
             = Some req
             /\ maximum_spend_handler.validateStruct sample_limits req = None
             /\ maximum_spend_handler.SvcSet "user-a"%string 10 100 1000
                = maximum_spend_handler.SvcSet userID
                    (maximum_spend_handler.reqDailyLimit req)
                    (maximum_spend_handler.reqMonthlyLimit req)
                    (maximum_spend_handler.reqYearlyLimit req)).
Proof.
  apply (limits_are_called_for_the_parsed_user sample_limits
           (sample_limits_ctx (fiber_ctx.LocalString "user-a"%string))
           (maximum_spend_handler.mkWorld [] [])
           (maximum_spend_handler.SvcSet "user-a"%string 10 100 1000)).
  left. vm_compute. left. reflexivity.
Defined.

(** The user id held as a [uuid.UUID], as the transaction handlers read
    it. *)
Lemma user_id_of_another_type_panics_witness :
  maximum_spend_handler.GetMaximumSpend sample_limits
    (sample_limits_ctx (fiber_ctx.LocalUUID "user-a"%string))
    (maximum_spend_handler.mkWorld [] [])
  = (maximum_spend_handler.Panic, maximum_spend_handler.mkWorld [] [])
  /\ maximum_spend_handler.SetMaximumSpend sample_limits
       (sample_limits_ctx (fiber_ctx.LocalUUID "user-a"%string))
       (maximum_spend_handler.mkWorld [] [])
     = (maximum_spend_handler.Panic, maximum_spend_handler.mkWorld [] []).
Proof.
  destruct (user_id_of_another_type_panics sample_limits
              (sample_limits_ctx (fiber_ctx.LocalUUID "user-a"%string))
              (maximum_spend_handler.mkWorld [] []))
    as [G S].
  - discriminate.
  - discriminate.
  - split; [exact G|]. exact (S _ eq_refl eq_refl).
Defined.

